(** * four-way-poing: lobby state machine and tick-driven physics

    A shallow embedding of [src/index.js]: the lobby registry, the WebSocket
    handlers, the game state machine and the ball physics.  The first half
    holds the definitions (the model of the source, then the lobby-level
    views, the invariants and the sample runs the proofs use); the second
    half holds the properties of the specification, proved or refuted on the
    model.

    Modelling choices.
    - JavaScript numbers of the ball are IEEE binary64 values: primitive
      floats, with the operations of the source ([+], [*], unary [-], [<],
      [>]).  Paddle coordinates only ever hold the integer literals of
      [startGame] moved by steps of 10, and scores are counters: both are
      [Z]; a score read from a missing entry and incremented is [NaN].
    - The [lobbies] Map and the [scores] object are finite maps keyed by
      strings.  Lobby objects are reached through the Map by their code in
      every handler, so a handler is a function from world to world.
    - [setInterval]/[clearInterval] are a table of active timers (handle to
      the lobby code captured by the callback) with a handle counter.
    - A socket is a number; the closure of its handlers over [lobbyCode] and
      [playerId] is the [bindings] table, its [readyState] the membership
      in [openSockets], and what was sent on it the [sent] log.
    - [Math.random()], [Date.now()], [uuidv4()] and [generateLobbyCode()] are
      inputs of the operation that calls them.
    - The reachable worlds are those the event loop produces from the empty
      registry.  Events carry arbitrary codes, names and uuids, so the
      invariants hold for more runs than the server can make. *)

From Stdlib Require Import ZArith Floats Uint63 Lia.
From stdpp Require Import gmap strings list.

Set Warnings "-inexact-float".

(** ** Data model *)

Inductive Position := TOP | RIGHT | BOTTOM | LEFT.
Inductive Status := WAITING | PLAYING | GAME_OVER.

#[global] Instance Position_eq_dec : EqDecision Position.
Proof. solve_decision. Defined.
#[global] Instance Status_eq_dec : EqDecision Status.
Proof. solve_decision. Defined.

(** A score entry: an integer count, or the [NaN] that [undefined++] leaves. *)
Inductive Score := Int (n : Z) | NaN.

Module Player.
Record t := mk { id : string; name : string; isReady : bool; position : Position }.
Definition setReady (b : bool) (p : t) : t := mk (id p) (name p) b (position p).
End Player.

Module Client.
Record t := mk { ws : nat; playerId : string }.
End Client.

Module Ball.
Record t := mk { x : float; y : float; velocityX : float; velocityY : float }.
End Ball.

Module Paddle.
Record t := mk { playerId : string; position : Position; x : Z; y : Z; width : Z; height : Z }.
Definition setX (v : Z) (p : t) : t := mk (playerId p) (position p) v (y p) (width p) (height p).
Definition setY (v : Z) (p : t) : t := mk (playerId p) (position p) (x p) v (width p) (height p).
End Paddle.

Module GameState.
Record t := mk { status : Status; ball : Ball.t; paddles : list Paddle.t; scores : gmap string Score }.
Definition setStatus (s : Status) (g : t) : t := mk s (ball g) (paddles g) (scores g).
Definition setBall (b : Ball.t) (g : t) : t := mk (status g) b (paddles g) (scores g).
Definition setPaddles (ps : list Paddle.t) (g : t) : t := mk (status g) (ball g) ps (scores g).
Definition setScores (sc : gmap string Score) (g : t) : t := mk (status g) (ball g) (paddles g) sc.
End GameState.

Module Lobby.
Record t := mk {
  code : string;
  host : string;
  clients : list Client.t;
  players : list Player.t;
  gameState : GameState.t;
  gameLoopInterval : option nat
}.
Definition setHost (h : string) (l : t) : t :=
  mk (code l) h (clients l) (players l) (gameState l) (gameLoopInterval l).
Definition setClients (cs : list Client.t) (l : t) : t :=
  mk (code l) (host l) cs (players l) (gameState l) (gameLoopInterval l).
Definition setPlayers (ps : list Player.t) (l : t) : t :=
  mk (code l) (host l) (clients l) ps (gameState l) (gameLoopInterval l).
Definition setGameState (g : GameState.t) (l : t) : t :=
  mk (code l) (host l) (clients l) (players l) g (gameLoopInterval l).
Definition setGameLoopInterval (h : option nat) (l : t) : t :=
  mk (code l) (host l) (clients l) (players l) (gameState l) h.
Definition status (l : t) : Status := GameState.status (gameState l).
End Lobby.

(** Outbound messages; a [GAME_STATE_UPDATE] carries the game state as it
    is serialised at the moment of the send. *)
Inductive Message :=
| GAME_STATE_UPDATE (payload : GameState.t)
| PLAYER_JOINED (playerName : string)
| PLAYER_LEFT (playerName : string)
| GAME_START (startTime : Z)
| GAME_OVER_MSG (winner : string).

(** Inbound messages of a channel, after [JSON.parse] and the [switch]. *)
Inductive Inbound :=
| PLAYER_READY
| MOVE_PADDLE (direction : string)
| LEAVE_LOBBY
| UnknownType (type : string)
| Malformed.

(** Replies of the admission endpoints. *)
Inductive Reply :=
| Created (lobbyCode hostId : string)
| Joined (playerId lobbyCode : string)
| Error (httpStatus : nat) (error : string).

(** Values drawn from the environment during one handler run: the two
    [Math.random()] calls of [startGame]/[resetBall] and [Date.now()]. *)
Record Env := { random1 : float; random2 : float; now : Z }.

Record World := mkWorld {
  lobbies : gmap string Lobby.t;
  intervals : gmap nat string;
  nextInterval : nat;
  bindings : gmap nat (string * string);
  nextSocket : nat;
  openSockets : gset nat;
  sent : list (nat * Message)
}.

Definition initial : World := mkWorld ∅ ∅ 0 ∅ 0 ∅ [].

Definition setLobbies (m : gmap string Lobby.t) (w : World) : World :=
  mkWorld m (intervals w) (nextInterval w) (bindings w) (nextSocket w) (openSockets w) (sent w).
Definition setLobby (lobbyCode : string) (l : Lobby.t) (w : World) : World :=
  setLobbies (<[lobbyCode := l]> (lobbies w)) w.
Definition setIntervals (m : gmap nat string) (n : nat) (w : World) : World :=
  mkWorld (lobbies w) m n (bindings w) (nextSocket w) (openSockets w) (sent w).
Definition pushSent (ms : list (nat * Message)) (w : World) : World :=
  mkWorld (lobbies w) (intervals w) (nextInterval w) (bindings w) (nextSocket w)
          (openSockets w) (sent w ++ ms).

(** ** Helpers *)

(** [arr.find(f)] followed by a mutation of the element found: the first
    element that satisfies [f] is replaced by its image, the others stay. *)
Fixpoint updateFirst {A} (f : A → bool) (g : A → A) (l : list A) : list A :=
  match l with
  | [] => []
  | a :: l' => if f a then g a :: l' else a :: updateFirst f g l'
  end.

(** An integer-valued JavaScript number as a binary64 float. *)
Definition Z2F (z : Z) : float :=
  match z with
  | Z0 => 0%float
  | Zpos _ => PrimFloat.of_uint63 (Uint63.of_Z z)
  | Zneg p => PrimFloat.opp (PrimFloat.of_uint63 (Uint63.of_Z (Zpos p)))
  end.

(** Truthiness of a string, as in [if (s)]. *)
Definition truthy (s : string) : bool := negb (bool_decide (s = "")).

Definition hasId (playerId : string) (p : Player.t) : bool :=
  bool_decide (Player.id p = playerId).
Definition ownedBy (playerId : string) (p : Paddle.t) : bool :=
  bool_decide (Paddle.playerId p = playerId).
Definition atSide (s : Position) (p : Player.t) : bool :=
  bool_decide (Player.position p = s).

(** ** Broadcast *)

Definition broadcastToLobby (lobbyCode : string) (message : Message) (w : World) : World :=
  match lobbies w !! lobbyCode with
  | None => w
  | Some lobby =>
      pushSent
        ((λ c, (Client.ws c, message)) <$>
           filter (λ c, Client.ws c ∈ openSockets w) (Lobby.clients lobby))
        w
  end.

Definition updateGameState (lobbyCode : string) (w : World) : World :=
  match lobbies w !! lobbyCode with
  | None => w
  | Some lobby => broadcastToLobby lobbyCode (GAME_STATE_UPDATE (Lobby.gameState lobby)) w
  end.

(** ** Admission endpoints *)

Definition positions : list Position := [TOP; RIGHT; BOTTOM; LEFT].

(** [positions[n]]; the guard of the join endpoint keeps [n] below 4. *)
Definition positionAt (n : nat) : Position := default LEFT (positions !! n).

(** [codes] are the successive results of [generateLobbyCode()]; the
    [do ... while] loop keeps the first one that is not a live lobby.  [None]
    when every candidate is taken (the loop would draw again). *)
Definition createLobby (hostName : string) (codes : list string) (uuid : string)
    (w : World) : option (World * Reply) :=
  if bool_decide (hostName = "") then Some (w, Error 400 "Host name is required")
  else
    match find (λ c, bool_decide (lobbies w !! c = None)) codes with
    | None => None
    | Some lobbyCode =>
        let hostId := "player-" +:+ uuid in
        let lobby :=
          Lobby.mk lobbyCode hostId []
            [Player.mk hostId hostName false TOP]
            (GameState.mk WAITING (Ball.mk 300 300 0 0) [] ∅)
            None in
        Some (setLobby lobbyCode lobby w, Created lobbyCode hostId)
    end.

Definition joinLobby (lobbyCode playerName uuid : string) (w : World) : World * Reply :=
  if bool_decide (lobbyCode = "") || bool_decide (playerName = "")
  then (w, Error 400 "Lobby code and player name are required")
  else
    match lobbies w !! lobbyCode with
    | None => (w, Error 404 "Lobby not found")
    | Some lobby =>
        if 4 <=? length (Lobby.players lobby) then (w, Error 400 "Lobby is full")
        else
          let playerId := "player-" +:+ uuid in
          let position := positionAt (length (Lobby.players lobby)) in
          let gs := Lobby.gameState lobby in
          let lobby' :=
            Lobby.setGameState
              (GameState.setScores (<[playerId := Int 0]> (GameState.scores gs)) gs)
              (Lobby.setPlayers
                 (Lobby.players lobby ++ [Player.mk playerId playerName false position])
                 lobby) in
          (broadcastToLobby lobbyCode (PLAYER_JOINED playerName) (setLobby lobbyCode lobby' w),
           Joined playerId lobbyCode)
    end.

(** ** Timers *)

Definition clearInterval (h : nat) (w : World) : World :=
  setIntervals (delete h (intervals w)) (nextInterval w) w.

Definition startGameLoop (lobbyCode : string) (w : World) : World :=
  match lobbies w !! lobbyCode with
  | None => w
  | Some lobby =>
      let w1 := match Lobby.gameLoopInterval lobby with
                | Some h => clearInterval h w
                | None => w
                end in
      let h' := nextInterval w1 in
      setLobby lobbyCode (Lobby.setGameLoopInterval (Some h') lobby)
        (setIntervals (<[h' := lobbyCode]> (intervals w1)) (S h') w1)
  end.

(** ** Game state machine *)

Definition makePaddle (player : Player.t) : Paddle.t :=
  let position := Player.position player in
  match position with
  | TOP => Paddle.mk (Player.id player) position 250 20 100 10
  | RIGHT => Paddle.mk (Player.id player) position 570 250 10 100
  | BOTTOM => Paddle.mk (Player.id player) position 250 570 100 10
  | LEFT => Paddle.mk (Player.id player) position 20 250 10 100
  end.

(** [Math.random() > 0.5 ? 3 : -3] *)
Definition randomVelocity (r : float) : float :=
  if PrimFloat.ltb 0.5 r then 3%float else (-3)%float.

Definition zeroScores (players : list Player.t) (scores : gmap string Score) : gmap string Score :=
  foldl (λ sc player, <[Player.id player := Int 0]> sc) scores players.

Definition startGame (lobbyCode : string) (env : Env) (w : World) : World :=
  match lobbies w !! lobbyCode with
  | None => w
  | Some lobby =>
      let gs :=
        GameState.mk PLAYING
          (Ball.mk 300 300 (randomVelocity (random1 env)) (randomVelocity (random2 env)))
          (makePaddle <$> Lobby.players lobby)
          (zeroScores (Lobby.players lobby) (GameState.scores (Lobby.gameState lobby))) in
      let w1 := setLobby lobbyCode (Lobby.setGameState gs lobby) w in
      let w2 := broadcastToLobby lobbyCode (GAME_START (now env)) w1 in
      startGameLoop lobbyCode w2
  end.

Definition endGame (lobbyCode : string) (winnerId : option string) (w : World) : World :=
  match lobbies w !! lobbyCode with
  | None => w
  | Some lobby =>
      let w1 := match Lobby.gameLoopInterval lobby with
                | Some h => clearInterval h w
                | None => w
                end in
      let lobby1 :=
        Lobby.setGameState (GameState.setStatus GAME_OVER (Lobby.gameState lobby))
          (Lobby.setGameLoopInterval None lobby) in
      let winnerName :=
        match winnerId with
        | Some wid =>
            if truthy wid then
              match find (hasId wid) (Lobby.players lobby1) with
              | Some winner => Player.name winner
              | None => "Unknown"
              end
            else "Unknown"
        | None => "Unknown"
        end in
      let w2 := broadcastToLobby lobbyCode (GAME_OVER_MSG winnerName) (setLobby lobbyCode lobby1 w1) in
      let lobby2 := Lobby.setPlayers (Player.setReady false <$> Lobby.players lobby1) lobby1 in
      updateGameState lobbyCode (setLobby lobbyCode lobby2 w2)
  end.

Definition handlePlayerReady (lobbyCode playerId : string) (env : Env) (w : World) : World :=
  match lobbies w !! lobbyCode with
  | None => w
  | Some lobby =>
      let players' := updateFirst (hasId playerId) (Player.setReady true) (Lobby.players lobby) in
      let w1 := setLobby lobbyCode (Lobby.setPlayers players' lobby) w in
      let allReady := forallb Player.isReady players' in
      if allReady && (2 <=? length players') then startGame lobbyCode env w1
      else updateGameState lobbyCode w1
  end.

Definition PADDLE_SPEED : Z := 10.

(** The body of [handleMovePaddle] on the paddle found. *)
Definition movePaddle (direction : string) (paddle : Paddle.t) : Paddle.t :=
  match Paddle.position paddle with
  | TOP | BOTTOM =>
      if bool_decide (direction = "LEFT") && (0 <? Paddle.x paddle)%Z
      then Paddle.setX (Paddle.x paddle - PADDLE_SPEED) paddle
      else if bool_decide (direction = "RIGHT") && (Paddle.x paddle + Paddle.width paddle <? 600)%Z
      then Paddle.setX (Paddle.x paddle + PADDLE_SPEED) paddle
      else paddle
  | LEFT | RIGHT =>
      if bool_decide (direction = "UP") && (0 <? Paddle.y paddle)%Z
      then Paddle.setY (Paddle.y paddle - PADDLE_SPEED) paddle
      else if bool_decide (direction = "DOWN") && (Paddle.y paddle + Paddle.height paddle <? 600)%Z
      then Paddle.setY (Paddle.y paddle + PADDLE_SPEED) paddle
      else paddle
  end.

Definition handleMovePaddle (lobbyCode playerId direction : string) (w : World) : World :=
  match lobbies w !! lobbyCode with
  | None => w
  | Some lobby =>
      if bool_decide (Lobby.status lobby = PLAYING) then
        let gs := Lobby.gameState lobby in
        match find (ownedBy playerId) (GameState.paddles gs) with
        | None => w
        | Some _ =>
            let paddles' := updateFirst (ownedBy playerId) (movePaddle direction) (GameState.paddles gs) in
            updateGameState lobbyCode
              (setLobby lobbyCode (Lobby.setGameState (GameState.setPaddles paddles' gs) lobby) w)
        end
      else w
  end.

Definition handlePlayerLeave (lobbyCode playerId : string) (w : World) : World :=
  match lobbies w !! lobbyCode with
  | None => w
  | Some lobby =>
      match list_find (λ p, Player.id p = playerId) (Lobby.players lobby) with
      | None => w
      | Some (playerIndex, player) =>
          let playerName := Player.name player in
          let lobby1 :=
            Lobby.setClients (filter (λ c, Client.playerId c ≠ playerId) (Lobby.clients lobby))
              (Lobby.setPlayers (delete playerIndex (Lobby.players lobby)) lobby) in
          let continue (lobby2 : Lobby.t) :=
            let w1 := broadcastToLobby lobbyCode (PLAYER_LEFT playerName) (setLobby lobbyCode lobby2 w) in
            if bool_decide (Lobby.status lobby2 = PLAYING) then endGame lobbyCode None w1
            else updateGameState lobbyCode w1 in
          if bool_decide (Lobby.host lobby = playerId) then
            match Lobby.players lobby1 with
            | first :: _ => continue (Lobby.setHost (Player.id first) lobby1)
            | [] => setLobbies (delete lobbyCode (lobbies w)) w
            end
          else continue lobby1
      end
  end.

(** ** Physics *)

Definition checkCollision (ball : Ball.t) (paddle : Paddle.t) : bool :=
  PrimFloat.ltb (Ball.x ball) (Z2F (Paddle.x paddle + Paddle.width paddle))
  && PrimFloat.ltb (Z2F (Paddle.x paddle)) (Ball.x ball + 10)
  && PrimFloat.ltb (Ball.y ball) (Z2F (Paddle.y paddle + Paddle.height paddle))
  && PrimFloat.ltb (Z2F (Paddle.y paddle)) (Ball.y ball + 10).

Definition resetBall (env : Env) : Ball.t :=
  Ball.mk 300 300 (randomVelocity (random1 env)) (randomVelocity (random2 env)).

(** [ball.x += ball.velocityX; ball.y += ball.velocityY] *)
Definition advance (ball : Ball.t) : Ball.t :=
  Ball.mk (Ball.x ball + Ball.velocityX ball) (Ball.y ball + Ball.velocityY ball)
          (Ball.velocityX ball) (Ball.velocityY ball).

(** The body of the collision branch for the paddle hit. *)
Definition bounce (paddle : Paddle.t) (ball : Ball.t) : Ball.t :=
  let flipped :=
    match Paddle.position paddle with
    | TOP | BOTTOM => Ball.mk (Ball.x ball) (Ball.y ball) (Ball.velocityX ball) (- Ball.velocityY ball)
    | LEFT | RIGHT => Ball.mk (Ball.x ball) (Ball.y ball) (- Ball.velocityX ball) (Ball.velocityY ball)
    end in
  Ball.mk (Ball.x flipped) (Ball.y flipped)
          (Ball.velocityX flipped * 1.05) (Ball.velocityY flipped * 1.05).

(** The [for ... break] loop over the paddles. *)
Definition collide (paddles : list Paddle.t) (ball : Ball.t) : Ball.t :=
  match find (checkCollision ball) paddles with
  | Some paddle => bounce paddle ball
  | None => ball
  end.

(** The wall crossed, named by the side whose guard scores. *)
Definition scoringSide (ball : Ball.t) : option Position :=
  if PrimFloat.ltb (Ball.y ball) 0 then Some BOTTOM
  else if PrimFloat.ltb 600 (Ball.x ball) then Some LEFT
  else if PrimFloat.ltb 600 (Ball.y ball) then Some TOP
  else if PrimFloat.ltb (Ball.x ball) 0 then Some RIGHT
  else None.

(** [scores[id]++] *)
Definition increment (playerId : string) (scores : gmap string Score) : gmap string Score :=
  match scores !! playerId with
  | Some (Int n) => <[playerId := Int (n + 1)]> scores
  | _ => <[playerId := NaN]> scores
  end.

(** [score >= 10] *)
Definition reachedTen (s : option Score) : bool :=
  match s with
  | Some (Int n) => (10 <=? n)%Z
  | _ => false
  end.

Definition updateBallPosition (lobbyCode : string) (env : Env) (w : World) : World :=
  match lobbies w !! lobbyCode with
  | None => w
  | Some lobby =>
      if bool_decide (Lobby.status lobby = PLAYING) then
        let gs := Lobby.gameState lobby in
        let ball := collide (GameState.paddles gs) (advance (GameState.ball gs)) in
        match scoringSide ball with
        | None =>
            setLobby lobbyCode (Lobby.setGameState (GameState.setBall ball gs) lobby) w
        | Some side =>
            match find (atSide side) (Lobby.players lobby) with
            | None =>
                setLobby lobbyCode
                  (Lobby.setGameState (GameState.setBall (resetBall env) gs) lobby) w
            | Some player =>
                let scorer := Player.id player in
                let scores' := increment scorer (GameState.scores gs) in
                let w1 :=
                  setLobby lobbyCode
                    (Lobby.setGameState
                       (GameState.setScores scores' (GameState.setBall (resetBall env) gs))
                       lobby) w in
                if truthy scorer && reachedTen (scores' !! scorer)
                then endGame lobbyCode (Some scorer) w1
                else w1
            end
        end
      else w
  end.

(** The callback given to [setInterval]. *)
Definition tick (lobbyCode : string) (env : Env) (w : World) : World :=
  updateGameState lobbyCode (updateBallPosition lobbyCode env w).

(** ** Channels *)

(** [wss.on('connection')]: the socket is a fresh one; the handlers it
    installs close over [lobbyCode] and [playerId]. *)
Definition connection (lobbyCode playerId : string) (w : World) : World :=
  if bool_decide (lobbyCode = "") || bool_decide (playerId = "") then w
  else
    match lobbies w !! lobbyCode with
    | None => w
    | Some lobby =>
        match list_find (λ p, Player.id p = playerId) (Lobby.players lobby) with
        | None => w
        | Some _ =>
            let ws := nextSocket w in
            let lobby' := Lobby.setClients (Lobby.clients lobby ++ [Client.mk ws playerId]) lobby in
            mkWorld (<[lobbyCode := lobby']> (lobbies w)) (intervals w) (nextInterval w)
                    (<[ws := (lobbyCode, playerId)]> (bindings w)) (S ws)
                    ({[ws]} ∪ openSockets w)
                    (sent w ++ [(ws, GAME_STATE_UPDATE (Lobby.gameState lobby'))])
        end
    end.

(** [ws.on('message')] *)
Definition onMessage (lobbyCode playerId : string) (data : Inbound) (env : Env) (w : World) : World :=
  match data with
  | PLAYER_READY => handlePlayerReady lobbyCode playerId env w
  | MOVE_PADDLE direction => handleMovePaddle lobbyCode playerId direction w
  | LEAVE_LOBBY => handlePlayerLeave lobbyCode playerId w
  | UnknownType _ => w
  | Malformed => w
  end.

(** ** The event loop

    One event is one turn of the single-threaded loop: a request, a
    connection, a message or the closing of a channel, or a timer firing. *)
Inductive Event :=
| EvCreate (hostName : string) (codes : list string) (uuid : string)
| EvJoin (lobbyCode playerName uuid : string)
| EvConnect (lobbyCode playerId : string)
| EvMessage (ws : nat) (data : Inbound) (env : Env)
| EvSocketDown (ws : nat)
| EvClose (ws : nat)
| EvTick (handle : nat) (env : Env).

Definition step (w : World) (e : Event) : World :=
  match e with
  | EvCreate hostName codes uuid =>
      match createLobby hostName codes uuid w with
      | Some (w', _) => w'
      | None => w
      end
  | EvJoin lobbyCode playerName uuid => fst (joinLobby lobbyCode playerName uuid w)
  | EvConnect lobbyCode playerId => connection lobbyCode playerId w
  | EvMessage ws data env =>
      match bindings w !! ws with
      | Some (lobbyCode, playerId) => onMessage lobbyCode playerId data env w
      | None => w
      end
  | EvSocketDown ws =>
      mkWorld (lobbies w) (intervals w) (nextInterval w) (bindings w) (nextSocket w)
              (openSockets w ∖ {[ws]}) (sent w)
  | EvClose ws =>
      match bindings w !! ws with
      | Some (lobbyCode, playerId) =>
          handlePlayerLeave lobbyCode playerId
            (mkWorld (lobbies w) (intervals w) (nextInterval w) (bindings w) (nextSocket w)
                     (openSockets w ∖ {[ws]}) (sent w))
      | None => w
      end
  | EvTick handle env =>
      match intervals w !! handle with
      | Some lobbyCode => tick lobbyCode env w
      | None => w
      end
  end.

Definition run (es : list Event) : World := foldl step initial es.

Definition reachable (w : World) : Prop := ∃ es, w = run es.

(** ** The handlers, seen from the lobby they act on

    Every handler looks its lobby up by code, changes it and leaves the other
    lobbies alone.  The functions of this part give the lobby a handler
    leaves behind; the lemmas of the second half connect each handler to its
    function and say what happens to the timer table. *)

(** What a broadcast delivers: one copy per attached client whose socket is
    open. *)
Definition deliveries (w : World) (lobby : Lobby.t) (m : Message) : list (nat * Message) :=
  (λ c, (Client.ws c, m)) <$> filter (λ c, Client.ws c ∈ openSockets w) (Lobby.clients lobby).

(** The lobby as [startGame] leaves it, given the timer handle it gets. *)
Definition startedLobby (env : Env) (h : nat) (lobby : Lobby.t) : Lobby.t :=
  Lobby.setGameLoopInterval (Some h)
    (Lobby.setGameState
       (GameState.mk PLAYING
          (Ball.mk 300 300 (randomVelocity (random1 env)) (randomVelocity (random2 env)))
          (makePaddle <$> Lobby.players lobby)
          (zeroScores (Lobby.players lobby) (GameState.scores (Lobby.gameState lobby))))
       lobby).

(** The lobby as [endGame] leaves it. *)
Definition endedLobby (lobby : Lobby.t) : Lobby.t :=
  Lobby.mk (Lobby.code lobby) (Lobby.host lobby) (Lobby.clients lobby)
    (Player.setReady false <$> Lobby.players lobby)
    (GameState.setStatus GAME_OVER (Lobby.gameState lobby))
    None.

(** [clearInterval] guarded by [if (lobby.gameLoopInterval)]. *)
Definition cleared (h : option nat) (m : gmap nat string) : gmap nat string :=
  match h with
  | Some h => delete h m
  | None => m
  end.

(** The lobby after [handlePlayerReady], given the handle a new timer gets. *)
Definition readied (env : Env) (h : nat) (playerId : string) (l : Lobby.t) : Lobby.t :=
  let l1 :=
    Lobby.setPlayers (updateFirst (hasId playerId) (Player.setReady true) (Lobby.players l)) l in
  if forallb Player.isReady (Lobby.players l1) && (2 <=? length (Lobby.players l1))
  then startedLobby env h l1 else l1.

(** The lobby after [handleMovePaddle]. *)
Definition moved (playerId direction : string) (l : Lobby.t) : Lobby.t :=
  if bool_decide (Lobby.status l = PLAYING) then
    match find (ownedBy playerId) (GameState.paddles (Lobby.gameState l)) with
    | None => l
    | Some _ =>
        Lobby.setGameState
          (GameState.setPaddles
             (updateFirst (ownedBy playerId) (movePaddle direction)
                (GameState.paddles (Lobby.gameState l)))
             (Lobby.gameState l)) l
    end
  else l.

(** The end of [handlePlayerLeave]: a game in progress is ended. *)
Definition finished (l : Lobby.t) : Lobby.t :=
  if bool_decide (Lobby.status l = PLAYING) then endedLobby l else l.

(** The lobby after [handlePlayerLeave]; [None]: the lobby is destroyed. *)
Definition departed (playerId : string) (l : Lobby.t) : option Lobby.t :=
  match list_find (λ p, Player.id p = playerId) (Lobby.players l) with
  | None => Some l
  | Some (playerIndex, _) =>
      let l1 :=
        Lobby.setClients (filter (λ c, Client.playerId c ≠ playerId) (Lobby.clients l))
          (Lobby.setPlayers (delete playerIndex (Lobby.players l)) l) in
      if bool_decide (Lobby.host l = playerId) then
        match Lobby.players l1 with
        | first :: _ => Some (finished (Lobby.setHost (Player.id first) l1))
        | [] => None
        end
      else Some (finished l1)
  end.

(** The lobby after [updateBallPosition]. *)
Definition ticked (env : Env) (l : Lobby.t) : Lobby.t :=
  if bool_decide (Lobby.status l = PLAYING) then
    let gs := Lobby.gameState l in
    let ball := collide (GameState.paddles gs) (advance (GameState.ball gs)) in
    match scoringSide ball with
    | None => Lobby.setGameState (GameState.setBall ball gs) l
    | Some side =>
        match find (atSide side) (Lobby.players l) with
        | None => Lobby.setGameState (GameState.setBall (resetBall env) gs) l
        | Some player =>
            let scorer := Player.id player in
            let scores' := increment scorer (GameState.scores gs) in
            let l1 :=
              Lobby.setGameState
                (GameState.setScores scores' (GameState.setBall (resetBall env) gs)) l in
            if truthy scorer && reachedTen (scores' !! scorer) then endedLobby l1 else l1
        end
    end
  else l.

(** The lobby after a join with a non-empty code and name. *)
Definition joined (playerName uuid : string) (l : Lobby.t) : Lobby.t :=
  if 4 <=? length (Lobby.players l) then l
  else
    let playerId := "player-" +:+ uuid in
    Lobby.setGameState
      (GameState.setScores (<[playerId := Int 0]> (GameState.scores (Lobby.gameState l)))
         (Lobby.gameState l))
      (Lobby.setPlayers
         (Lobby.players l
            ++ [Player.mk playerId playerName false (positionAt (length (Lobby.players l)))])
         l).

(** How the timer table follows a change of lobby [c] from [l] to [l']:
    untouched, the lobby's timer cleared, or cleared and a fresh one set. *)
Definition timers_sync (c : string) (l l' : Lobby.t) (w w' : World) : Prop :=
  (Lobby.gameLoopInterval l' = Lobby.gameLoopInterval l
   ∧ intervals w' = intervals w ∧ nextInterval w' = nextInterval w)
  ∨ (Lobby.gameLoopInterval l' = None
     ∧ intervals w' = cleared (Lobby.gameLoopInterval l) (intervals w)
     ∧ nextInterval w' = nextInterval w)
  ∨ (Lobby.gameLoopInterval l' = Some (nextInterval w)
     ∧ intervals w' = <[nextInterval w := c]> (cleared (Lobby.gameLoopInterval l) (intervals w))
     ∧ nextInterval w' = S (nextInterval w)).

(** ** Invariants *)

Definition ids (l : Lobby.t) : list string := Player.id <$> Lobby.players l.

(** A paddle keeps the size of its side, sits on the grid of 10 and stays
    inside the playfield along the axis it moves on. *)
Definition paddle_ok (p : Paddle.t) : Prop :=
  match Paddle.position p with
  | TOP | BOTTOM =>
      Paddle.width p = 100%Z ∧ Paddle.height p = 10%Z
      ∧ (0 ≤ Paddle.x p ≤ 500)%Z ∧ ∃ k, Paddle.x p = (10 * k)%Z
  | LEFT | RIGHT =>
      Paddle.width p = 10%Z ∧ Paddle.height p = 100%Z
      ∧ (0 ≤ Paddle.y p ≤ 500)%Z ∧ ∃ k, Paddle.y p = (10 * k)%Z
  end.

(** A well-formed lobby: a game in progress has at least two players, a
    score entry for each of them and paddles that belong to them; a lobby
    that is not PLAYING holds no timer handle; no player id is empty. *)
Record lobby_ok (l : Lobby.t) : Prop := {
  ok_players : Lobby.status l = PLAYING → 2 ≤ length (Lobby.players l);
  ok_handle : Lobby.status l ≠ PLAYING → Lobby.gameLoopInterval l = None;
  ok_paddles : Forall paddle_ok (GameState.paddles (Lobby.gameState l));
  ok_ids : "" ∉ ids l;
  ok_scores :
    Lobby.status l = PLAYING →
    ∀ i, i ∈ ids l → ∃ n, GameState.scores (Lobby.gameState l) !! i = Some (Int n);
  ok_owners :
    Lobby.status l = PLAYING →
    ∀ p, p ∈ GameState.paddles (Lobby.gameState l) → Paddle.playerId p ∈ ids l
}.

(** Every lobby is well formed, every active timer is the registered tick
    loop of a live lobby, and every registered handle is an active timer. *)
Record world_ok (w : World) : Prop := {
  ok_lobbies : ∀ c l, lobbies w !! c = Some l → lobby_ok l;
  ok_timer_owner :
    ∀ h c, intervals w !! h = Some c →
      h < nextInterval w
      ∧ ∃ l, lobbies w !! c = Some l ∧ Lobby.gameLoopInterval l = Some h;
  ok_timer_active :
    ∀ c l h, lobbies w !! c = Some l → Lobby.gameLoopInterval l = Some h →
      intervals w !! h = Some c
}.

(** ** Sample runs *)

Definition env0 : Env := {| random1 := 0.75; random2 := 0.25; now := 0 |}.

(** Alice creates a lobby, Bob and Carol join, the three attach a channel
    and mark themselves ready: the game starts. *)
Definition threeReady : list Event :=
  [EvCreate "Alice" ["ABCD"] "a"; EvJoin "ABCD" "Bob" "b"; EvJoin "ABCD" "Carol" "c";
   EvConnect "ABCD" "player-a"; EvConnect "ABCD" "player-b"; EvConnect "ABCD" "player-c";
   EvMessage 0 PLAYER_READY env0; EvMessage 1 PLAYER_READY env0; EvMessage 2 PLAYER_READY env0].

(** Carol then leaves in mid-game: the game is over for Alice and Bob. *)
Definition carolLeaves : list Event := threeReady ++ [EvMessage 2 LEAVE_LOBBY env0].

(** Alice and Bob are ready before Carol, who leaves without having been
    ready. *)
Definition carolLeavesWaiting : list Event :=
  [EvCreate "Alice" ["ABCD"] "a"; EvJoin "ABCD" "Bob" "b"; EvJoin "ABCD" "Carol" "c";
   EvConnect "ABCD" "player-a"; EvConnect "ABCD" "player-b"; EvConnect "ABCD" "player-c";
   EvMessage 0 PLAYER_READY env0; EvMessage 1 PLAYER_READY env0; EvMessage 2 LEAVE_LOBBY env0].

Definition statusOf (lobbyCode : string) (w : World) : option Status :=
  Lobby.status <$> lobbies w !! lobbyCode.

Definition noLobby : Lobby.t :=
  Lobby.mk "" "" [] [] (GameState.mk WAITING (Ball.mk 0 0 0 0) [] ∅) None.

(** The lobby registered under a code ([noLobby] when there is none). *)
Definition lobbyAt (lobbyCode : string) (w : World) : Lobby.t :=
  default noLobby (lobbies w !! lobbyCode).

(** The game of [threeReady] after a hundred ticks: the ball, which left the
    centre with velocity (3, -3), is at (600, 0), on the edge of the field. *)
Definition hundredTicks : list Event := threeReady ++ replicate 100 (EvTick 0 env0).




(** The paddle of a player in the lobby registered under a code, found as
    [handleMovePaddle] finds it. *)
Definition paddleOf (playerId lobbyCode : string) (w : World) : option Paddle.t :=
  find (ownedBy playerId) (GameState.paddles (Lobby.gameState (lobbyAt lobbyCode w))).

(** The game of [threeReady] after Alice, at TOP, has moved her paddle 25
    times to the left: it started at x = 250 and is now at x = 0. *)
Definition aliceAtTheWall : list Event :=
  threeReady ++ replicate 25 (EvMessage 0 (MOVE_PADDLE "LEFT") env0).

(** Carol has left in mid-game and Alice has asked for another game. *)
Definition aliceReadyAgain : list Event := carolLeaves ++ [EvMessage 0 PLAYER_READY env0].

(** Alice and Bob are in the lobby, each with a channel; Alice is ready. *)
Definition aliceReady : list Event :=
  [EvCreate "Alice" ["ABCD"] "a"; EvJoin "ABCD" "Bob" "b";
   EvConnect "ABCD" "player-a"; EvConnect "ABCD" "player-b";
   EvMessage 0 PLAYER_READY env0].

(** ** The status endpoint *)

(** Replies of [GET /api/lobby/status]. *)
Inductive StatusReply :=
| StatusOk (lobbyCode : string) (players : list string)
| StatusError (httpStatus : nat) (error : string).

Definition getStatus (lobbyCode : string) (w : World) : StatusReply :=
  if bool_decide (lobbyCode = "") then StatusError 400 "Lobby code is required"
  else
    match lobbies w !! lobbyCode with
    | None => StatusError 404 "Lobby not found"
    | Some lobby => StatusOk lobbyCode (Player.name <$> Lobby.players lobby)
    end.

(** ** More lobby-level views *)

(** The lobby [createLobby] registers. *)
Definition createdLobby (lobbyCode hostName uuid : string) : Lobby.t :=
  Lobby.mk lobbyCode ("player-" +:+ uuid) []
    [Player.mk ("player-" +:+ uuid) hostName false TOP]
    (GameState.mk WAITING (Ball.mk 300 300 0 0) [] ∅)
    None.

(** The lobby after a successful [connection] on socket [ws]. *)
Definition connected (ws : nat) (playerId : string) (l : Lobby.t) : Lobby.t :=
  Lobby.setClients (Lobby.clients l ++ [Client.mk ws playerId]) l.

(** ** More invariants *)

(** The roster of a lobby: between one and four players, the host among
    them, the lobby registered under its own code, and every attached
    channel bound to a current player. *)
Record roster_ok (c : string) (l : Lobby.t) : Prop := {
  roster_size : 1 ≤ length (Lobby.players l) ≤ 4;
  roster_host : Lobby.host l ∈ ids l;
  roster_code : Lobby.code l = c;
  roster_clients : ∀ client, client ∈ Lobby.clients l → Client.playerId client ∈ ids l
}.

(** The score board: every entry is an integer from 0 to 10, and while the
    game is on every current player is below 10. *)
Record scores_ok (l : Lobby.t) : Prop := {
  scores_range :
    ∀ i s, GameState.scores (Lobby.gameState l) !! i = Some s →
      ∃ n, s = Int n ∧ (0 ≤ n ≤ 10)%Z;
  scores_playing :
    Lobby.status l = PLAYING →
    ∀ i n, i ∈ ids l → GameState.scores (Lobby.gameState l) !! i = Some (Int n) → (n < 10)%Z
}.

(** The phases: a PLAYING lobby holds a timer handle; a WAITING lobby has
    never played (no paddles, the ball at rest in the centre). *)
Record phase_ok (l : Lobby.t) : Prop := {
  phase_playing : Lobby.status l = PLAYING → is_Some (Lobby.gameLoopInterval l);
  phase_waiting :
    Lobby.status l = WAITING →
    GameState.paddles (Lobby.gameState l) = []
    ∧ GameState.ball (Lobby.gameState l) = Ball.mk 300 300 0 0
}.

(** The name [endGame] announces for a winner id. *)
Definition winnerName (winnerId : option string) (l : Lobby.t) : string :=
  match winnerId with
  | Some wid =>
      if truthy wid then
        match find (hasId wid) (Lobby.players l) with
        | Some winner => Player.name winner
        | None => "Unknown"
        end
      else "Unknown"
  | None => "Unknown"
  end.

(** The game of [threeReady] after nine rounds of 101 ticks, each won by
    Carol at BOTTOM, and a hundred ticks more: Carol has 9 points and the
    ball is at (600, 0) again. *)
Definition matchPoint : list Event := threeReady ++ replicate 1009 (EvTick 0 env0).

(** * Properties *)

(** Closed facts about sample runs are settled by evaluation, one conjunct
    at a time. *)
Ltac by_evaluation :=
  repeat match goal with |- _ ∧ _ => split end; vm_compute; reflexivity.

(** ** Projections of the world after each primitive *)

Section Projections.
Context (w : World).

Lemma lobbies_setLobby c l : lobbies (setLobby c l w) = <[c := l]> (lobbies w).
Proof. reflexivity. Qed.

Lemma lookup_setLobby c l : lobbies (setLobby c l w) !! c = Some l.
Proof. apply lookup_insert_eq. Qed.

Lemma nextInterval_setLobby c l : nextInterval (setLobby c l w) = nextInterval w.
Proof. reflexivity. Qed.

Lemma intervals_setLobby c l : intervals (setLobby c l w) = intervals w.
Proof. reflexivity. Qed.

Lemma lobbies_clearInterval h : lobbies (clearInterval h w) = lobbies w.
Proof. reflexivity. Qed.

Lemma lobbies_broadcastToLobby c m : lobbies (broadcastToLobby c m w) = lobbies w.
Proof. unfold broadcastToLobby. by destruct (lobbies w !! c). Qed.

Lemma intervals_broadcastToLobby c m : intervals (broadcastToLobby c m w) = intervals w.
Proof. unfold broadcastToLobby. by destruct (lobbies w !! c). Qed.

Lemma nextInterval_broadcastToLobby c m :
  nextInterval (broadcastToLobby c m w) = nextInterval w.
Proof. unfold broadcastToLobby. by destruct (lobbies w !! c). Qed.

Lemma openSockets_broadcastToLobby c m :
  openSockets (broadcastToLobby c m w) = openSockets w.
Proof. unfold broadcastToLobby. by destruct (lobbies w !! c). Qed.

Lemma lobbies_updateGameState c : lobbies (updateGameState c w) = lobbies w.
Proof.
  unfold updateGameState. destruct (lobbies w !! c); [|done].
  apply lobbies_broadcastToLobby.
Qed.

Lemma intervals_updateGameState c : intervals (updateGameState c w) = intervals w.
Proof.
  unfold updateGameState. destruct (lobbies w !! c); [|done].
  apply intervals_broadcastToLobby.
Qed.

Lemma nextInterval_updateGameState c :
  nextInterval (updateGameState c w) = nextInterval w.
Proof.
  unfold updateGameState. destruct (lobbies w !! c); [|done].
  apply nextInterval_broadcastToLobby.
Qed.

End Projections.

Create Rewrite HintDb world.
#[local] Hint Rewrite lobbies_setLobby nextInterval_setLobby intervals_setLobby
  lobbies_clearInterval lobbies_broadcastToLobby intervals_broadcastToLobby
  nextInterval_broadcastToLobby openSockets_broadcastToLobby lobbies_updateGameState
  intervals_updateGameState nextInterval_updateGameState : world.

Lemma sent_broadcastToLobby w c m lobby :
  lobbies w !! c = Some lobby →
  sent (broadcastToLobby c m w) = sent w ++ deliveries w lobby m.
Proof. intros H. unfold broadcastToLobby. by rewrite H. Qed.

Lemma sent_updateGameState w c lobby :
  lobbies w !! c = Some lobby →
  sent (updateGameState c w)
  = sent w ++ deliveries w lobby (GAME_STATE_UPDATE (Lobby.gameState lobby)).
Proof.
  intros H. unfold updateGameState. rewrite H. by apply sent_broadcastToLobby.
Qed.

Lemma startGame_lobbies w c env lobby :
  lobbies w !! c = Some lobby →
  lobbies (startGame c env w) = <[c := startedLobby env (nextInterval w) lobby]> (lobbies w).
Proof.
  intros H. unfold startGame, startGameLoop. rewrite H.
  autorewrite with world. rewrite lookup_insert_eq. cbn [Lobby.setGameState Lobby.gameLoopInterval].
  destruct (Lobby.gameLoopInterval lobby);
    cbn; autorewrite with world; by rewrite insert_insert_eq.
Qed.

Lemma startGame_intervals w c env lobby :
  lobbies w !! c = Some lobby →
  intervals (startGame c env w)
  = <[nextInterval w := c]> (cleared (Lobby.gameLoopInterval lobby) (intervals w))
  ∧ nextInterval (startGame c env w) = S (nextInterval w).
Proof.
  intros H. unfold startGame, startGameLoop. rewrite H.
  autorewrite with world. rewrite lookup_insert_eq. cbn [Lobby.setGameState Lobby.gameLoopInterval].
  destruct (Lobby.gameLoopInterval lobby);
    cbn; autorewrite with world; done.
Qed.

Lemma endGame_lobbies w c winnerId lobby :
  lobbies w !! c = Some lobby →
  lobbies (endGame c winnerId w) = <[c := endedLobby lobby]> (lobbies w).
Proof.
  intros H. unfold endGame. rewrite H.
  autorewrite with world.
  destruct (Lobby.gameLoopInterval lobby); cbn; by rewrite insert_insert_eq.
Qed.

Lemma endGame_intervals w c winnerId lobby :
  lobbies w !! c = Some lobby →
  intervals (endGame c winnerId w) = cleared (Lobby.gameLoopInterval lobby) (intervals w)
  ∧ nextInterval (endGame c winnerId w) = nextInterval w.
Proof.
  intros H. unfold endGame. rewrite H.
  autorewrite with world.
  destruct (Lobby.gameLoopInterval lobby); done.
Qed.

(** ** Small facts about the helpers *)

Lemma forallb_Forall {A} (f : A → bool) (l : list A) :
  forallb f l = true ↔ Forall (λ a, f a = true) l.
Proof.
  induction l as [|a l IH]; simpl.
  - split; [constructor | done].
  - rewrite andb_true_iff, IH, Forall_cons. done.
Qed.

Lemma length_updateFirst {A} (f : A → bool) (g : A → A) (l : list A) :
  length (updateFirst f g l) = length l.
Proof. induction l as [|a l IH]; simpl; [done|]. destruct (f a); simpl; congruence. Qed.

Lemma updateFirst_none {A} (f : A → bool) (g : A → A) (l : list A) :
  find f l = None → updateFirst f g l = l.
Proof.
  induction l as [|a l IH]; simpl; [done|].
  destruct (f a); [done|]. intros H. by rewrite IH.
Qed.

Lemma find_hasId_None (playerId : string) (players : list Player.t) :
  find (hasId playerId) players = None ↔ playerId ∉ Player.id <$> players.
Proof.
  induction players as [|p ps IH]; simpl.
  - split; [intros _; apply not_elem_of_nil | done].
  - unfold hasId at 1. rewrite not_elem_of_cons. case_bool_decide as E.
    + split; [done | intros [? _]; congruence].
    + rewrite IH. split; [intros ?; split; [congruence | done] | tauto].
Qed.

Lemma list_find_id_None (playerId : string) (players : list Player.t) :
  list_find (λ p, Player.id p = playerId) players = None ↔ playerId ∉ Player.id <$> players.
Proof.
  rewrite list_find_None, Forall_forall, list_elem_of_fmap. split.
  - intros H (p & -> & Hp). by apply (H p).
  - intros H p Hp E. apply H. exists p. done.
Qed.

(** ** Admission *)

(** C10. Joining never looks at the game status: for a non-empty code that
    names a live lobby with fewer than four players and a non-empty name,
    the join succeeds whatever the status is; the player is appended with a
    zero score entry, the status is as it was and the paddle list is left
    alone. *)
Theorem joinLobby_ignores_status (w : World) (lobbyCode playerName uuid : string)
    (lobby : Lobby.t) :
  lobbyCode ≠ "" →
  playerName ≠ "" →
  lobbies w !! lobbyCode = Some lobby →
  length (Lobby.players lobby) < 4 →
  let playerId := "player-" +:+ uuid in
  ∃ w' lobby',
    joinLobby lobbyCode playerName uuid w = (w', Joined playerId lobbyCode) ∧
    lobbies w' !! lobbyCode = Some lobby' ∧
    Lobby.players lobby'
    = Lobby.players lobby
        ++ [Player.mk playerId playerName false (positionAt (length (Lobby.players lobby)))] ∧
    GameState.scores (Lobby.gameState lobby') !! playerId = Some (Int 0) ∧
    GameState.paddles (Lobby.gameState lobby') = GameState.paddles (Lobby.gameState lobby) ∧
    Lobby.status lobby' = Lobby.status lobby.
Proof.
  intros Hc Hn Hl Hlen playerId. unfold joinLobby.
  rewrite !bool_decide_eq_false_2 by done. cbn [orb]. rewrite Hl.
  destruct (Nat.leb_spec 4 (length (Lobby.players lobby))) as [?|_]; [lia|].
  eexists _, _. split; [reflexivity|].
  autorewrite with world. rewrite lookup_insert_eq.
  split; [reflexivity|]. cbn. split; [reflexivity|].
  split; [apply lookup_insert_eq | done].
Qed.

Lemma joinLobby_ignores_status_witness :
  ("ABCD" ≠ "" ∧ "Dave" ≠ ""
   ∧ lobbies (run threeReady) !! "ABCD" = Some (lobbyAt "ABCD" (run threeReady))
   ∧ length (Lobby.players (lobbyAt "ABCD" (run threeReady))) < 4
   ∧ Lobby.status (lobbyAt "ABCD" (run threeReady)) = PLAYING)
  ∧ ∃ w' lobby',
      joinLobby "ABCD" "Dave" "d" (run threeReady) = (w', Joined "player-d" "ABCD")
      ∧ lobbies w' !! "ABCD" = Some lobby'
      ∧ Lobby.players lobby'
        = Lobby.players (lobbyAt "ABCD" (run threeReady))
            ++ [Player.mk "player-d" "Dave" false LEFT]
      ∧ GameState.scores (Lobby.gameState lobby') !! "player-d" = Some (Int 0)
      ∧ GameState.paddles (Lobby.gameState lobby')
        = GameState.paddles (Lobby.gameState (lobbyAt "ABCD" (run threeReady)))
      ∧ Lobby.status lobby' = PLAYING.
Proof.
  assert ("ABCD" ≠ "") as H1 by discriminate.
  assert ("Dave" ≠ "") as H2 by discriminate.
  assert (lobbies (run threeReady) !! "ABCD" = Some (lobbyAt "ABCD" (run threeReady)))
    as H3 by (vm_compute; reflexivity).
  assert (length (Lobby.players (lobbyAt "ABCD" (run threeReady))) < 4)
    as H4 by (vm_compute; repeat constructor).
  assert (Lobby.status (lobbyAt "ABCD" (run threeReady)) = PLAYING)
    as H5 by (vm_compute; reflexivity).
  split; [exact (conj H1 (conj H2 (conj H3 (conj H4 H5))))|].
  destruct (joinLobby_ignores_status _ "ABCD" "Dave" "d" _ H1 H2 H3 H4)
    as (w' & lobby' & Hj & Hl' & Hp & Hsc & Hpd & Hst).
  exists w', lobby'. split; [exact Hj|]. split; [exact Hl'|].
  split; [rewrite Hp; vm_compute; reflexivity|].
  split; [exact Hsc|]. split; [exact Hpd|]. rewrite Hst. exact H5.
Defined.

(** ** Readiness *)

(** C7. In a WAITING lobby, PLAYER_READY leads to PLAYING exactly when, once
    the sender's flag is set, there are at least two players and all of them
    are ready; then the lobby is the one the start procedure builds.
    Otherwise only the readiness flag changes, no timer is touched, and the
    one thing sent is the updated game state. *)
Theorem handlePlayerReady_starts_iff_all_ready (w : World) (lobbyCode playerId : string)
    (env : Env) (lobby : Lobby.t) :
  lobbies w !! lobbyCode = Some lobby →
  Lobby.status lobby = WAITING →
  let players' := updateFirst (hasId playerId) (Player.setReady true) (Lobby.players lobby) in
  let w' := handlePlayerReady lobbyCode playerId env w in
  ∃ lobby',
    lobbies w' !! lobbyCode = Some lobby' ∧
    (Lobby.status lobby' = PLAYING ↔
       2 ≤ length players' ∧ Forall (λ p, Player.isReady p = true) players') ∧
    (Lobby.status lobby' = PLAYING →
       lobby' = startedLobby env (nextInterval w) (Lobby.setPlayers players' lobby)) ∧
    (Lobby.status lobby' ≠ PLAYING →
       lobby' = Lobby.setPlayers players' lobby ∧
       intervals w' = intervals w ∧
       sent w' = sent w ++ deliveries w lobby (GAME_STATE_UPDATE (Lobby.gameState lobby))).
Proof.
  intros Hl Hst players' w'. subst w'. unfold handlePlayerReady. rewrite Hl.
  fold players'.
  destruct (forallb Player.isReady players' && (2 <=? length players')) eqn:E.
  - apply andb_true_iff in E as [Hall Hlen].
    apply forallb_Forall in Hall. apply Nat.leb_le in Hlen.
    erewrite startGame_lobbies by apply lookup_setLobby.
    eexists. split; [apply lookup_insert_eq|].
    split; [done|]. split; [done|]. intros Hne. by destruct Hne.
  - autorewrite with world. eexists. split; [apply lookup_insert_eq|].
    assert (Lobby.status (Lobby.setPlayers players' lobby) = WAITING) as Hw by exact Hst.
    split.
    + rewrite Hw. split; [done|]. intros [Hlen Hall].
      apply forallb_Forall in Hall. apply Nat.leb_le in Hlen.
      rewrite Hall, Hlen in E. done.
    + split; [rewrite Hw; done|]. intros _. split; [done|]. split; [done|].
      erewrite sent_updateGameState by apply lookup_setLobby. done.
Qed.

Lemma handlePlayerReady_starts_iff_all_ready_witness :
  (lobbies (run aliceReady) !! "ABCD" = Some (lobbyAt "ABCD" (run aliceReady))
   ∧ Lobby.status (lobbyAt "ABCD" (run aliceReady)) = WAITING)
  ∧ ∃ lobby',
      lobbies (handlePlayerReady "ABCD" "player-b" env0 (run aliceReady)) !! "ABCD" = Some lobby'
      ∧ (Lobby.status lobby' = PLAYING ↔
           2 ≤ length (updateFirst (hasId "player-b") (Player.setReady true)
                         (Lobby.players (lobbyAt "ABCD" (run aliceReady))))
           ∧ Forall (λ p, Player.isReady p = true)
               (updateFirst (hasId "player-b") (Player.setReady true)
                  (Lobby.players (lobbyAt "ABCD" (run aliceReady)))))
      ∧ Lobby.status lobby' = PLAYING.
Proof.
  assert (lobbies (run aliceReady) !! "ABCD" = Some (lobbyAt "ABCD" (run aliceReady)))
    as H1 by (vm_compute; reflexivity).
  assert (Lobby.status (lobbyAt "ABCD" (run aliceReady)) = WAITING)
    as H2 by (vm_compute; reflexivity).
  split; [exact (conj H1 H2)|].
  destruct (handlePlayerReady_starts_iff_all_ready _ "ABCD" "player-b" env0 _ H1 H2)
    as (lobby' & Hl' & Hiff & _).
  exists lobby'. split; [exact Hl'|]. split; [exact Hiff|].
  apply Hiff. split; [vm_compute; repeat constructor|].
  apply forallb_Forall. vm_compute. reflexivity.
Defined.

(** ** Each handler and its lobby-level function *)

Lemma handlePlayerReady_lobbies w c playerId env l :
  lobbies w !! c = Some l →
  lobbies (handlePlayerReady c playerId env w)
  = <[c := readied env (nextInterval w) playerId l]> (lobbies w)
  ∧ timers_sync c l (readied env (nextInterval w) playerId l) w
      (handlePlayerReady c playerId env w).
Proof.
  intros H. unfold handlePlayerReady, readied, timers_sync. rewrite H.
  cbn [Lobby.players Lobby.setPlayers].
  destruct (forallb _ _ && _).
  - erewrite startGame_lobbies by apply lookup_setLobby.
    edestruct startGame_intervals as [-> ->]; [apply lookup_setLobby|].
    autorewrite with world. rewrite insert_insert_eq. split; [done|].
    right; right. done.
  - autorewrite with world. split; [done|]. left. done.
Qed.

Lemma handleMovePaddle_lobbies w c playerId direction l :
  lobbies w !! c = Some l →
  lobbies (handleMovePaddle c playerId direction w) = <[c := moved playerId direction l]> (lobbies w)
  ∧ timers_sync c l (moved playerId direction l) w (handleMovePaddle c playerId direction w).
Proof.
  intros H. unfold handleMovePaddle, moved, timers_sync. rewrite H.
  destruct (bool_decide _); [|by rewrite insert_id; auto].
  destruct (find _ _); [|by rewrite insert_id; auto].
  autorewrite with world. auto.
Qed.

Lemma finish_lobbies w c l playerName :
  let w1 := broadcastToLobby c (PLAYER_LEFT playerName) (setLobby c l w) in
  let w' := if bool_decide (Lobby.status l = PLAYING) then endGame c None w1
            else updateGameState c w1 in
  lobbies w' = <[c := finished l]> (lobbies w)
  ∧ (Lobby.gameLoopInterval (finished l) = Lobby.gameLoopInterval l
     ∧ intervals w' = intervals w ∧ nextInterval w' = nextInterval w
     ∨ Lobby.gameLoopInterval (finished l) = None
       ∧ intervals w' = cleared (Lobby.gameLoopInterval l) (intervals w)
       ∧ nextInterval w' = nextInterval w).
Proof.
  intros w1 w'. subst w1 w'. unfold finished.
  destruct (bool_decide _).
  - assert (lobbies (broadcastToLobby c (PLAYER_LEFT playerName) (setLobby c l w)) !! c = Some l)
      as Hl by (autorewrite with world; apply lookup_insert_eq).
    rewrite (endGame_lobbies _ _ _ _ Hl).
    destruct (endGame_intervals _ c None _ Hl) as [-> ->].
    autorewrite with world. rewrite insert_insert_eq. auto.
  - autorewrite with world. auto.
Qed.

Lemma handlePlayerLeave_lobbies w c playerId l :
  lobbies w !! c = Some l →
  match departed playerId l with
  | Some l' =>
      lobbies (handlePlayerLeave c playerId w) = <[c := l']> (lobbies w)
      ∧ timers_sync c l l' w (handlePlayerLeave c playerId w)
  | None =>
      lobbies (handlePlayerLeave c playerId w) = delete c (lobbies w)
      ∧ intervals (handlePlayerLeave c playerId w) = intervals w
      ∧ nextInterval (handlePlayerLeave c playerId w) = nextInterval w
  end.
Proof.
  intros H. unfold handlePlayerLeave, departed, timers_sync. rewrite H.
  destruct (list_find _ _) as [[i p]|]; [|by rewrite insert_id; auto].
  cbn zeta.
  repeat match goal with
  | |- context [bool_decide (Lobby.host l = playerId)] =>
      destruct (bool_decide (Lobby.host l = playerId))
  | |- context [match ?ps with [] => _ | _ :: _ => _ end] => destruct ps eqn:?
  end; try done.
  all: match goal with
       | |- context [PLAYER_LEFT ?n] =>
           match goal with
           | |- context [finished ?l2] =>
               destruct (finish_lobbies w c l2 n) as [-> Ht]; split; [done|];
                 destruct Ht as [Ht|Ht]; [left | right; left]; exact Ht
           end
       end.
Qed.

Lemma updateBallPosition_lobbies w c env l :
  lobbies w !! c = Some l →
  lobbies (updateBallPosition c env w) = <[c := ticked env l]> (lobbies w)
  ∧ timers_sync c l (ticked env l) w (updateBallPosition c env w).
Proof.
  intros H. unfold updateBallPosition, ticked, timers_sync. rewrite H.
  destruct (bool_decide _); [|by rewrite insert_id; auto].
  cbn zeta. destruct (scoringSide _); [|by autorewrite with world; auto].
  destruct (find _ _); [|by autorewrite with world; auto].
  destruct (truthy _ && _); [|by autorewrite with world; auto].
  erewrite endGame_lobbies by apply lookup_setLobby.
  edestruct endGame_intervals as [-> ->]; [apply lookup_setLobby|].
  autorewrite with world. rewrite insert_insert_eq. split; [done|].
  right; left. done.
Qed.

Lemma tick_lobbies w c env l :
  lobbies w !! c = Some l →
  lobbies (tick c env w) = <[c := ticked env l]> (lobbies w)
  ∧ timers_sync c l (ticked env l) w (tick c env w).
Proof.
  intros H. unfold tick, timers_sync. autorewrite with world.
  by apply updateBallPosition_lobbies.
Qed.

Lemma joinLobby_lobbies w c playerName uuid l :
  lobbies w !! c = Some l →
  lobbies (joinLobby c playerName uuid w).1 = <[c := joined playerName uuid l]> (lobbies w)
  ∨ lobbies (joinLobby c playerName uuid w).1 = lobbies w.
Proof.
  intros H. unfold joinLobby, joined.
  destruct (_ || _); [by right|]. rewrite H.
  destruct (4 <=? _); [by right|]. left. cbn. by autorewrite with world.
Qed.

Lemma joinLobby_intervals w c playerName uuid :
  intervals (joinLobby c playerName uuid w).1 = intervals w
  ∧ nextInterval (joinLobby c playerName uuid w).1 = nextInterval w.
Proof.
  unfold joinLobby.
  destruct (_ || _); [done|]. destruct (lobbies w !! c); [|done].
  destruct (4 <=? _); [done|]. cbn. by autorewrite with world.
Qed.

(** ** Invariants of a lobby *)

Lemma Forall_updateFirst {A} (P : A → Prop) (f : A → bool) (g : A → A) (l : list A) :
  (∀ a, P a → P (g a)) → Forall P l → Forall P (updateFirst f g l).
Proof.
  intros Hg. induction 1 as [|a l Ha Hl IH]; simpl; [constructor|].
  destruct (f a); constructor; auto.
Qed.

Lemma fmap_updateFirst {A B} (h : A → B) (f : A → bool) (g : A → A) (l : list A) :
  (∀ a, h (g a) = h a) → h <$> updateFirst f g l = h <$> l.
Proof.
  intros Hg. induction l as [|a l IH]; [done|]. cbn [updateFirst].
  destruct (f a); rewrite !fmap_cons; congruence.
Qed.

Lemma ids_setReady (b : bool) (players : list Player.t) :
  Player.id <$> (Player.setReady b <$> players) = Player.id <$> players.
Proof. rewrite <- list_fmap_compose. by apply list_fmap_ext. Qed.

Lemma zeroScores_lookup (players : list Player.t) (scores : gmap string Score) (i : string) :
  i ∈ Player.id <$> players → zeroScores players scores !! i = Some (Int 0).
Proof.
  unfold zeroScores. revert scores.
  induction players as [|p ps IH]; intros scores; simpl.
  - intros H. by apply elem_of_nil in H.
  - intros H. destruct (decide (i ∈ Player.id <$> ps)) as [Hin|Hout]; [by apply IH|].
    apply elem_of_cons in H as [->|?]; [|done].
    clear IH. revert scores. induction ps as [|q qs IH]; intros scores; simpl.
    + apply lookup_insert_eq.
    + apply not_elem_of_cons in Hout as [Hne Hout].
      rewrite insert_insert_ne by done. by apply IH.
Qed.

Lemma movePaddle_ok (direction : string) (p : Paddle.t) :
  paddle_ok p → paddle_ok (movePaddle direction p).
Proof.
  unfold paddle_ok, movePaddle, PADDLE_SPEED.
  destruct p as [pid pos x y wd ht]; cbn.
  destruct pos; intros (-> & -> & Hb & k & ->);
    repeat match goal with
    | |- context [bool_decide ?P] => destruct (bool_decide P); cbn
    | |- context [(?a <? ?b)%Z] => destruct (Z.ltb_spec a b); cbn
    end;
    repeat split; try lia; try (by exists k);
    first [exists (k - 1)%Z; lia | exists (k + 1)%Z; lia].
Qed.

Lemma movePaddle_playerId (direction : string) (p : Paddle.t) :
  Paddle.playerId (movePaddle direction p) = Paddle.playerId p.
Proof.
  unfold movePaddle. destruct (Paddle.position p);
    repeat match goal with
    | |- context [if ?b then _ else _] => destruct b
    end; done.
Qed.

Lemma makePaddle_ok (player : Player.t) : paddle_ok (makePaddle player).
Proof.
  unfold paddle_ok, makePaddle. destruct (Player.position player); cbn;
    repeat split; try lia; first [by exists 25%Z | by exists 57%Z | by exists 2%Z].
Qed.

Lemma makePaddle_playerId (player : Player.t) :
  Paddle.playerId (makePaddle player) = Player.id player.
Proof. unfold makePaddle. by destruct (Player.position player). Qed.

Lemma increment_keeps_Int (j i : string) (scores : gmap string Score) :
  (∃ n, scores !! i = Some (Int n)) → ∃ n, increment j scores !! i = Some (Int n).
Proof.
  intros [n Hn]. unfold increment. destruct (decide (j = i)) as [->|Hne].
  - rewrite Hn, lookup_insert_eq. eauto.
  - destruct (scores !! j) as [[m|]|]; rewrite lookup_insert_ne by done; eauto.
Qed.

Section LobbyInvariant.
Context (l : Lobby.t) (Hok : lobby_ok l).

Lemma lobby_ok_ended (l2 : Lobby.t) :
  Forall paddle_ok (GameState.paddles (Lobby.gameState l2)) →
  "" ∉ ids l2 →
  lobby_ok (endedLobby l2).
Proof.
  intros Hp Hi. split; try done.
  unfold ids, endedLobby. cbn. by rewrite ids_setReady.
Qed.

Lemma lobby_ok_started env h : 2 ≤ length (Lobby.players l) → lobby_ok (startedLobby env h l).
Proof.
  intros Hlen. destruct Hok. split; cbn; try done.
  - apply Forall_fmap, Forall_forall. intros p _. apply makePaddle_ok.
  - intros _ i Hi. exists 0%Z. by apply zeroScores_lookup.
  - intros _ p Hp. apply list_elem_of_fmap in Hp as (q & -> & Hq).
    apply list_elem_of_fmap. exists q. by rewrite makePaddle_playerId.
Qed.

Lemma lobby_ok_readied env h playerId : lobby_ok (readied env h playerId l).
Proof.
  unfold readied.
  set (l1 := Lobby.setPlayers _ l).
  assert (ids l1 = ids l) as Hids by (by apply fmap_updateFirst).
  assert (length (Lobby.players l1) = length (Lobby.players l)) as Hlen
    by apply length_updateFirst.
  assert (lobby_ok l1) as Hok1.
  { destruct Hok. split; rewrite ?Hids, ?Hlen; done. }
  destruct (forallb _ _ && _) eqn:E; [|done].
  apply andb_true_iff in E as [_ E%Nat.leb_le].
  clear Hok. destruct Hok1. split; cbn; try done.
  - apply Forall_fmap, Forall_forall. intros p _. apply makePaddle_ok.
  - intros _ i Hi. exists 0%Z. by apply zeroScores_lookup.
  - intros _ p Hp. apply list_elem_of_fmap in Hp as (q & -> & Hq).
    apply list_elem_of_fmap. exists q. by rewrite makePaddle_playerId.
Qed.

Lemma lobby_ok_moved playerId direction : lobby_ok (moved playerId direction l).
Proof.
  unfold moved. destruct (bool_decide _); [|done].
  destruct (find _ _); [|done].
  destruct Hok. split; cbn; try done.
  - apply Forall_updateFirst; [apply movePaddle_ok | done].
  - intros Hs p Hp. specialize (ok_owners0 Hs).
    assert (Forall (λ p, Paddle.playerId p ∈ ids l)
              (updateFirst (ownedBy playerId) (movePaddle direction)
                 (GameState.paddles (Lobby.gameState l)))) as HF.
    { apply Forall_updateFirst.
      - intros a. by rewrite movePaddle_playerId.
      - by apply Forall_forall. }
    by eapply Forall_forall in HF.
Qed.

Lemma lobby_ok_finished (l2 : Lobby.t) :
  Lobby.gameState l2 = Lobby.gameState l →
  Lobby.gameLoopInterval l2 = Lobby.gameLoopInterval l →
  ids l2 ⊆ ids l →
  lobby_ok (finished l2).
Proof.
  intros Hg Hh Hi. destruct Hok.
  assert ("" ∉ ids l2) by (intros ?; apply ok_ids0; by apply Hi).
  unfold finished. case_bool_decide as Hs.
  - apply lobby_ok_ended; [by rewrite Hg | done].
  - unfold Lobby.status in *. rewrite Hg in Hs. split; unfold Lobby.status; rewrite ?Hg, ?Hh; done.
Qed.

Lemma lobby_ok_departed playerId l' : departed playerId l = Some l' → lobby_ok l'.
Proof.
  unfold departed.
  destruct (list_find _ _) as [[i p]|]; [|intros [= <-]; done].
  assert (Player.id <$> delete i (Lobby.players l) ⊆ ids l) as Hsub.
  { unfold ids. apply sublist_subseteq, fmap_sublist, sublist_delete. }
  cbn zeta. cbn [Lobby.players Lobby.setClients Lobby.setPlayers].
  destruct (bool_decide _).
  - destruct (delete i (Lobby.players l)) eqn:E; [done|]. intros [= <-].
    apply lobby_ok_finished; done.
  - intros [= <-]. apply lobby_ok_finished; done.
Qed.

Lemma lobby_ok_ticked env : lobby_ok (ticked env l).
Proof.
  unfold ticked. destruct (bool_decide _); [|done]. cbn zeta.
  destruct Hok.
  destruct (scoringSide _); [|by split].
  destruct (find _ _) as [player|]; [|by split].
  destruct (_ && _).
  - by apply lobby_ok_ended.
  - split; cbn; try done.
    intros Hs i Hi. apply increment_keeps_Int. by apply ok_scores0.
Qed.

Lemma lobby_ok_joined playerName uuid : lobby_ok (joined playerName uuid l).
Proof.
  unfold joined. destruct (4 <=? _); [done|].
  destruct Hok. split; unfold ids; cbn; rewrite ?fmap_app, ?length_app; cbn.
  - intros Hs. specialize (ok_players0 Hs). lia.
  - done.
  - done.
  - intros [?|H]%elem_of_app; [done|]. by apply list_elem_of_singleton in H.
  - intros Hs i Hi. destruct (decide ("player-" +:+ uuid = i)) as [<-|Hne].
    + exists 0%Z. apply lookup_insert_eq.
    + rewrite lookup_insert_ne by done. apply ok_scores0; [done|].
      apply elem_of_app in Hi as [?|Hi]; [done|].
      apply list_elem_of_singleton in Hi. congruence.
  - intros Hs p Hp. apply elem_of_app. left. by apply ok_owners0.
Qed.

Lemma lobby_ok_setClients cs : lobby_ok (Lobby.setClients cs l).
Proof. destruct Hok. by split. Qed.

End LobbyInvariant.

(** ** Invariants of the world *)

Lemma world_ok_ext w w' :
  lobbies w' = lobbies w → intervals w' = intervals w → nextInterval w' = nextInterval w →
  world_ok w → world_ok w'.
Proof. intros Hl Hi Hn [H1 H2 H3]. split; rewrite ?Hl, ?Hi, ?Hn; done. Qed.

Lemma departed_None_handle playerId l :
  lobby_ok l → departed playerId l = None → Lobby.gameLoopInterval l = None.
Proof.
  intros Hok. unfold departed.
  destruct (list_find _ _) as [[i p]|] eqn:Hf; [|done].
  apply list_find_Some in Hf as (Hi & _ & _).
  cbn zeta. cbn [Lobby.players Lobby.setClients Lobby.setPlayers].
  destruct (bool_decide _); [|done].
  destruct (delete i (Lobby.players l)) eqn:E; [|done]. intros _.
  apply (ok_handle _ Hok). intros Hs. apply (ok_players _ Hok) in Hs.
  assert (length (delete i (Lobby.players l)) = length (Lobby.players l) - 1) as Hlen
    by (apply length_delete; eauto).
  rewrite E in Hlen. simpl in Hlen. lia.
Qed.

Section WorldInvariant.
Context (w w' : World) (Hok : world_ok w).

Lemma world_ok_update c l l' :
  lobbies w !! c = Some l →
  lobby_ok l' →
  lobbies w' = <[c := l']> (lobbies w) →
  timers_sync c l l' w w' →
  world_ok w'.
Proof.
  intros Hl Hl' Hlob Hsync. destruct Hok as [H1 H2 H3].
  assert (∀ h c0, Lobby.gameLoopInterval l = Some h → intervals w !! h = Some c0 → c0 = c)
    as Hown.
  { intros h c0 Hh Hc0. apply (H3 _ _ _ Hl) in Hh. congruence. }
  split.
  - intros c0 l0. rewrite Hlob. destruct (decide (c = c0)) as [->|Hne].
    + rewrite lookup_insert_eq. by intros [= <-].
    + rewrite lookup_insert_ne by done. apply H1.
  - intros h c0 Hh. rewrite Hlob.
    destruct Hsync as [(Eh & Ei & En)|[(Eh & Ei & En)|(Eh & Ei & En)]];
      rewrite Ei in Hh; rewrite En.
    + destruct (H2 _ _ Hh) as (Hlt & l0 & Hl0 & Hh0). split; [done|].
      destruct (decide (c = c0)) as [->|Hne].
      * rewrite lookup_insert_eq. exists l'. split; [done|]. congruence.
      * rewrite lookup_insert_ne by done. eauto.
    + assert (intervals w !! h = Some c0 ∧ Lobby.gameLoopInterval l ≠ Some h) as [Hh' Hneq].
      { unfold cleared in Hh. destruct (Lobby.gameLoopInterval l) as [h0|]; [|done].
        apply lookup_delete_Some in Hh as [? ?]. split; [done | congruence]. }
      destruct (H2 _ _ Hh') as (Hlt & l0 & Hl0 & Hh0). split; [done|].
      destruct (decide (c = c0)) as [->|Hne]; [congruence|].
      rewrite lookup_insert_ne by done. eauto.
    + destruct (decide (nextInterval w = h)) as [<-|Hnh].
      * rewrite lookup_insert_eq in Hh. injection Hh as <-.
        split; [lia|]. rewrite lookup_insert_eq. eauto.
      * rewrite lookup_insert_ne in Hh by done.
        assert (intervals w !! h = Some c0 ∧ Lobby.gameLoopInterval l ≠ Some h) as [Hh' Hneq].
        { unfold cleared in Hh. destruct (Lobby.gameLoopInterval l) as [h0|]; [|done].
          apply lookup_delete_Some in Hh as [? ?]. split; [done | congruence]. }
        destruct (H2 _ _ Hh') as (Hlt & l0 & Hl0 & Hh0). split; [lia|].
        destruct (decide (c = c0)) as [->|Hne]; [congruence|].
        rewrite lookup_insert_ne by done. eauto.
  - intros c0 l0 h. rewrite Hlob.
    assert (c ≠ c0 → lobbies w !! c0 = Some l0 → Lobby.gameLoopInterval l0 = Some h →
            cleared (Lobby.gameLoopInterval l) (intervals w) !! h = Some c0) as Hkeep.
    { intros Hne Hl0 Hh0. pose proof (H3 _ _ _ Hl0 Hh0) as Hh.
      unfold cleared. destruct (Lobby.gameLoopInterval l) as [h0|] eqn:E0; [|done].
      rewrite lookup_delete_ne; [done|]. intros ->.
      apply Hne. symmetry. by eapply Hown. }
    destruct Hsync as [(Eh & Ei & En)|[(Eh & Ei & En)|(Eh & Ei & En)]]; rewrite Ei.
    + destruct (decide (c = c0)) as [->|Hne].
      * rewrite lookup_insert_eq. intros [= <-] Hh. rewrite Eh in Hh. by eapply H3.
      * rewrite lookup_insert_ne by done. apply H3.
    + destruct (decide (c = c0)) as [->|Hne].
      * rewrite lookup_insert_eq. intros [= <-] Hh. congruence.
      * rewrite lookup_insert_ne by done. by apply Hkeep.
    + destruct (decide (c = c0)) as [->|Hne].
      * rewrite lookup_insert_eq. intros [= <-] Hh. rewrite Eh in Hh.
        injection Hh as <-. apply lookup_insert_eq.
      * rewrite lookup_insert_ne by done. intros Hl0 Hh0.
        pose proof (H3 _ _ _ Hl0 Hh0) as Hh. apply H2 in Hh as [Hlt _].
        rewrite lookup_insert_ne by lia. by apply Hkeep.
Qed.

Lemma world_ok_delete c l :
  lobbies w !! c = Some l →
  Lobby.gameLoopInterval l = None →
  lobbies w' = delete c (lobbies w) →
  intervals w' = intervals w →
  nextInterval w' = nextInterval w →
  world_ok w'.
Proof.
  intros Hl Hh Hlob Hi Hn. destruct Hok as [H1 H2 H3].
  split; rewrite ?Hlob, ?Hi, ?Hn.
  - intros c0 l0 [_ ?]%lookup_delete_Some. by eapply H1.
  - intros h c0 Hh0. destruct (H2 _ _ Hh0) as (Hlt & l0 & Hl0 & Hg). split; [done|].
    exists l0. split; [|done]. apply lookup_delete_Some. split; [|done]. congruence.
  - intros c0 l0 h [_ ?]%lookup_delete_Some. by apply H3.
Qed.

Lemma world_ok_create c l' :
  lobbies w !! c = None →
  lobby_ok l' →
  Lobby.gameLoopInterval l' = None →
  lobbies w' = <[c := l']> (lobbies w) →
  intervals w' = intervals w →
  nextInterval w' = nextInterval w →
  world_ok w'.
Proof.
  intros Hl Hl' Hh Hlob Hi Hn. destruct Hok as [H1 H2 H3].
  split; rewrite ?Hlob, ?Hi, ?Hn.
  - intros c0 l0. destruct (decide (c = c0)) as [->|Hne].
    + rewrite lookup_insert_eq. by intros [= <-].
    + rewrite lookup_insert_ne by done. apply H1.
  - intros h c0 Hh0. destruct (H2 _ _ Hh0) as (Hlt & l0 & Hl0 & Hg). split; [done|].
    exists l0. split; [|done]. rewrite lookup_insert_ne; [done|]. congruence.
  - intros c0 l0 h. destruct (decide (c = c0)) as [->|Hne].
    + rewrite lookup_insert_eq. intros [= <-]. congruence.
    + rewrite lookup_insert_ne by done. apply H3.
Qed.

End WorldInvariant.

Lemma createLobby_ok w hostName codes uuid w' r :
  world_ok w → createLobby hostName codes uuid w = Some (w', r) → world_ok w'.
Proof.
  intros Hok. unfold createLobby.
  destruct (bool_decide (hostName = "")); [by intros [= <- _]|].
  destruct (find _ codes) as [c|] eqn:Hf; [|done]. intros [= <- _].
  apply find_some in Hf as [_ Hc%bool_decide_eq_true].
  eapply (world_ok_create w _ Hok c); [done | | | reflexivity | done | done]; [|done].
  split; cbn; try done.
  unfold ids. cbn. intros H%list_elem_of_singleton. done.
Qed.

Lemma joinLobby_ok w c playerName uuid :
  world_ok w → world_ok (joinLobby c playerName uuid w).1.
Proof.
  intros Hok. destruct (joinLobby_intervals w c playerName uuid) as [Hi Hn].
  destruct (lobbies w !! c) as [l|] eqn:Hl.
  - destruct (joinLobby_lobbies w c playerName uuid l Hl) as [H|H].
    + eapply world_ok_update; [done | done | | done |].
      * eapply lobby_ok_joined, ok_lobbies; done.
      * left. split; [|done]. unfold joined. by destruct (4 <=? _).
    + by eapply world_ok_ext.
  - eapply world_ok_ext; [|done..]. unfold joinLobby.
    destruct (_ || _); [done|]. by rewrite Hl.
Qed.

Lemma connection_ok w c playerId : world_ok w → world_ok (connection c playerId w).
Proof.
  intros Hok. unfold connection. destruct (_ || _); [done|].
  destruct (lobbies w !! c) as [l|] eqn:Hl; [|done].
  destruct (list_find _ _); [|done].
  eapply world_ok_update; [done | done | | reflexivity |].
  - eapply lobby_ok_setClients, ok_lobbies; done.
  - by left.
Qed.

Lemma handlePlayerReady_ok w c playerId env :
  world_ok w → world_ok (handlePlayerReady c playerId env w).
Proof.
  intros Hok. destruct (lobbies w !! c) as [l|] eqn:Hl.
  - destruct (handlePlayerReady_lobbies w c playerId env l Hl) as [H Hs].
    eapply world_ok_update; [done | done | | done | done].
    eapply lobby_ok_readied, ok_lobbies; done.
  - unfold handlePlayerReady. by rewrite Hl.
Qed.

Lemma handleMovePaddle_ok w c playerId direction :
  world_ok w → world_ok (handleMovePaddle c playerId direction w).
Proof.
  intros Hok. destruct (lobbies w !! c) as [l|] eqn:Hl.
  - destruct (handleMovePaddle_lobbies w c playerId direction l Hl) as [H Hs].
    eapply world_ok_update; [done | done | | done | done].
    eapply lobby_ok_moved, ok_lobbies; done.
  - unfold handleMovePaddle. by rewrite Hl.
Qed.

Lemma handlePlayerLeave_ok w c playerId :
  world_ok w → world_ok (handlePlayerLeave c playerId w).
Proof.
  intros Hok. destruct (lobbies w !! c) as [l|] eqn:Hl.
  - pose proof (handlePlayerLeave_lobbies w c playerId l Hl) as H.
    assert (lobby_ok l) as Hl_ok by (by eapply ok_lobbies).
    destruct (departed playerId l) as [l'|] eqn:Hd.
    + destruct H as [H Hs].
      eapply world_ok_update; [done | done | | done | done].
      by eapply lobby_ok_departed.
    + destruct H as (H & Hi & Hn).
      eapply world_ok_delete; [done | done | | done..].
      by eapply departed_None_handle.
  - unfold handlePlayerLeave. by rewrite Hl.
Qed.

Lemma tick_ok w c env : world_ok w → world_ok (tick c env w).
Proof.
  intros Hok. destruct (lobbies w !! c) as [l|] eqn:Hl.
  - destruct (tick_lobbies w c env l Hl) as [H Hs].
    eapply world_ok_update; [done | done | | done | done].
    eapply lobby_ok_ticked, ok_lobbies; done.
  - eapply world_ok_ext; [| | |done]; unfold tick, updateBallPosition;
      autorewrite with world; by rewrite Hl.
Qed.

Lemma step_ok w e : world_ok w → world_ok (step w e).
Proof.
  intros Hok. destruct e as [hostName codes uuid|c playerName uuid|c playerId|ws data env|ws|ws|h env]; cbn.
  - destruct (createLobby _ _ _ _) as [[w' r]|] eqn:E; [|done]. by eapply createLobby_ok.
  - by apply joinLobby_ok.
  - by apply connection_ok.
  - destruct (bindings w !! ws) as [[c playerId]|]; [|done].
    destruct data; cbn; auto using handlePlayerReady_ok, handleMovePaddle_ok, handlePlayerLeave_ok.
  - by apply (world_ok_ext w).
  - destruct (bindings w !! ws) as [[c playerId]|]; [|done].
    apply handlePlayerLeave_ok. by apply (world_ok_ext w).
  - destruct (intervals w !! h); [|done]. by apply tick_ok.
Qed.

Lemma initial_ok : world_ok initial.
Proof. split; cbn; intros *; by rewrite lookup_empty. Qed.

Lemma reachable_ok w : reachable w → world_ok w.
Proof.
  intros [es ->]. unfold run.
  induction es as [|e es IH] using rev_ind; [apply initial_ok|].
  rewrite foldl_snoc. by apply step_ok.
Qed.

Lemma reachable_step w e : reachable w → reachable (step w e).
Proof. intros [es ->]. exists (es ++ [e]). unfold run. by rewrite foldl_snoc. Qed.

(** ** The tick loop *)

(** C4. In every reachable world an active timer is the registered tick
    loop of a live lobby whose status is PLAYING, and a lobby that is not
    PLAYING has no handle.  Hence after any event that takes a PLAYING lobby
    out of PLAYING, or destroys it, no timer is left for its code and its
    handle, if the lobby is still there, is cleared. *)
Theorem tick_loop_only_while_PLAYING (w : World) :
  reachable w →
  (∀ h c, intervals w !! h = Some c →
     ∃ l, lobbies w !! c = Some l ∧ Lobby.status l = PLAYING
          ∧ Lobby.gameLoopInterval l = Some h)
  ∧ (∀ c l, lobbies w !! c = Some l → Lobby.status l ≠ PLAYING →
       Lobby.gameLoopInterval l = None)
  ∧ (∀ e c l,
       lobbies w !! c = Some l → Lobby.status l = PLAYING →
       (∀ l', lobbies (step w e) !! c = Some l' → Lobby.status l' ≠ PLAYING) →
       (∀ h, intervals (step w e) !! h ≠ Some c)
       ∧ (∀ l', lobbies (step w e) !! c = Some l' → Lobby.gameLoopInterval l' = None)).
Proof.
  assert (∀ w0, world_ok w0 →
            (∀ h c, intervals w0 !! h = Some c →
               ∃ l, lobbies w0 !! c = Some l ∧ Lobby.status l = PLAYING
                    ∧ Lobby.gameLoopInterval l = Some h)
            ∧ (∀ c l, lobbies w0 !! c = Some l → Lobby.status l ≠ PLAYING →
                 Lobby.gameLoopInterval l = None)) as Hinv.
  { intros w0 Hok. split.
    - intros h c Hh. apply (ok_timer_owner _ Hok) in Hh as (_ & l & Hl & Hg).
      exists l. split; [done|]. split; [|done].
      destruct (decide (Lobby.status l = PLAYING)) as [|Hs]; [done|].
      apply (ok_handle _ (ok_lobbies _ Hok _ _ Hl)) in Hs. congruence.
    - intros c l Hl Hs. by apply (ok_handle _ (ok_lobbies _ Hok _ _ Hl)). }
  intros Hr. pose proof (reachable_ok _ Hr) as Hok.
  destruct (Hinv w Hok) as [H1 H2]. split; [done|]. split; [done|].
  intros e c l Hl Hs Hout.
  destruct (Hinv (step w e) (step_ok _ e Hok)) as [H1' H2']. split.
  - intros h Hh. apply H1' in Hh as (l' & Hl' & Hs' & _). by apply (Hout l').
  - intros l' Hl'. apply (H2' _ _ Hl'). by apply Hout.
Qed.

Lemma tick_loop_only_while_PLAYING_witness :
  reachable (run carolLeaves)
  ∧ statusOf "ABCD" (run threeReady) = Some PLAYING
  ∧ statusOf "ABCD" (run carolLeaves) = Some GAME_OVER
  ∧ ∀ h c, intervals (run carolLeaves) !! h = Some c →
      ∃ l, lobbies (run carolLeaves) !! c = Some l ∧ Lobby.status l = PLAYING
           ∧ Lobby.gameLoopInterval l = Some h.
Proof.
  split; [by exists carolLeaves|]. split; [by vm_compute|]. split; [by vm_compute|].
  apply (tick_loop_only_while_PLAYING (run carolLeaves)). by exists carolLeaves.
Defined.

(** ** Paddles *)

Lemma find_updateFirst {A} (f : A → bool) (g : A → A) (l : list A) (a : A) :
  (∀ a, f a = true → f (g a) = true) →
  find f l = Some a → find f (updateFirst f g l) = Some (g a).
Proof.
  intros Hg. induction l as [|b l IH]; simpl; [done|].
  destruct (f b) eqn:E.
  - intros [= ->]. simpl. by rewrite Hg.
  - intros H. simpl. rewrite E. by apply IH.
Qed.

(** C3, as stated, fails at the edge of the field.  In the reachable game
    of [aliceAtTheWall] the lobby is PLAYING and Alice's TOP paddle is at
    x = 0; her next MOVE_PADDLE "LEFT" is handled (the state is broadcast to
    the three channels) and the paddle is where it was: LEFT is a direction
    of its axis, yet it has not moved by 10. *)
Lemma LEFT_at_the_wall_does_not_move :
  statusOf "ABCD" (run aliceAtTheWall) = Some PLAYING
  ∧ bindings (run aliceAtTheWall) !! 0 = Some ("ABCD", "player-a")
  ∧ paddleOf "player-a" "ABCD" (run aliceAtTheWall)
    = Some (Paddle.mk "player-a" TOP 0 20 100 10)
  ∧ paddleOf "player-a" "ABCD"
      (step (run aliceAtTheWall) (EvMessage 0 (MOVE_PADDLE "LEFT") env0))
    = Some (Paddle.mk "player-a" TOP 0 20 100 10)
  ∧ paddleOf "player-a" "ABCD" (handleMovePaddle "ABCD" "player-a" "LEFT" (run aliceAtTheWall))
    = Some (Paddle.mk "player-a" TOP 0 20 100 10)
  ∧ length (sent (handleMovePaddle "ABCD" "player-a" "LEFT" (run aliceAtTheWall)))
    = length (sent (run aliceAtTheWall)) + 3.
Proof. by_evaluation. Qed.

(** C3, amended. In a reachable world, a MOVE_PADDLE handled while the lobby
    is PLAYING changes the sender's paddle on its movable axis only, and by
    the guards of the source: a TOP or BOTTOM paddle goes 10 to the left
    exactly when the direction is LEFT and x > 0, 10 to the right exactly
    when the direction is RIGHT and x + width < 600, and stays where it is
    otherwise (at the edge it would leave, or for any other direction); a
    LEFT or RIGHT paddle likewise with UP, DOWN, y and height.  Owner, side
    and size are kept, and after the move the paddle lies within [0, 600] on
    its movable axis. *)
Theorem handleMovePaddle_step_and_bounds (w : World) (c playerId direction : string)
    (l : Lobby.t) (p : Paddle.t) :
  reachable w →
  lobbies w !! c = Some l →
  Lobby.status l = PLAYING →
  find (ownedBy playerId) (GameState.paddles (Lobby.gameState l)) = Some p →
  ∃ l' p',
    lobbies (handleMovePaddle c playerId direction w) !! c = Some l'
    ∧ find (ownedBy playerId) (GameState.paddles (Lobby.gameState l')) = Some p'
    ∧ Paddle.playerId p' = Paddle.playerId p
    ∧ Paddle.position p' = Paddle.position p
    ∧ Paddle.width p' = Paddle.width p
    ∧ Paddle.height p' = Paddle.height p
    ∧ match Paddle.position p with
      | TOP | BOTTOM =>
          Paddle.y p' = Paddle.y p
          ∧ (Paddle.x p' = Paddle.x p - 10 ∨ Paddle.x p' = Paddle.x p + 10
             ∨ Paddle.x p' = Paddle.x p)%Z
          ∧ (Paddle.x p' = Paddle.x p - 10
             ↔ direction = "LEFT" ∧ 0 < Paddle.x p)%Z
          ∧ (Paddle.x p' = Paddle.x p + 10
             ↔ direction = "RIGHT" ∧ Paddle.x p + Paddle.width p < 600)%Z
          ∧ (0 ≤ Paddle.x p' ∧ Paddle.x p' + Paddle.width p' ≤ 600)%Z
      | LEFT | RIGHT =>
          Paddle.x p' = Paddle.x p
          ∧ (Paddle.y p' = Paddle.y p - 10 ∨ Paddle.y p' = Paddle.y p + 10
             ∨ Paddle.y p' = Paddle.y p)%Z
          ∧ (Paddle.y p' = Paddle.y p - 10
             ↔ direction = "UP" ∧ 0 < Paddle.y p)%Z
          ∧ (Paddle.y p' = Paddle.y p + 10
             ↔ direction = "DOWN" ∧ Paddle.y p + Paddle.height p < 600)%Z
          ∧ (0 ≤ Paddle.y p' ∧ Paddle.y p' + Paddle.height p' ≤ 600)%Z
      end.
Proof.
  intros Hr Hl Hs Hp.
  destruct (handleMovePaddle_lobbies w c playerId direction l Hl) as [-> _].
  rewrite lookup_insert_eq. unfold moved. rewrite bool_decide_eq_true_2 by done. rewrite Hp.
  eexists _, _. split; [done|]. cbn. split.
  { apply find_updateFirst; [|done].
    intros a. unfold ownedBy. by rewrite movePaddle_playerId. }
  assert (paddle_ok p) as Hpok.
  { pose proof (ok_paddles _ (ok_lobbies _ (reachable_ok _ Hr) _ _ Hl)) as HF.
    apply find_some in Hp as [Hin _]. apply list_elem_of_In in Hin.
    by eapply Forall_forall in HF. }
  unfold paddle_ok, movePaddle, PADDLE_SPEED in *.
  destruct p as [pid pos x y wd ht]; cbn in *.
  destruct pos; destruct Hpok as (-> & -> & Hb & k & ->);
    repeat match goal with
    | |- context [bool_decide ?P] => destruct (bool_decide_reflect P); cbn
    | |- context [(?a <? ?b)%Z] => destruct (Z.ltb_spec a b); cbn
    end; intuition (try lia; try congruence).
Qed.

Lemma handleMovePaddle_step_and_bounds_witness :
  (reachable (run threeReady)
   ∧ lobbies (run threeReady) !! "ABCD" = Some (lobbyAt "ABCD" (run threeReady))
   ∧ Lobby.status (lobbyAt "ABCD" (run threeReady)) = PLAYING
   ∧ find (ownedBy "player-a")
       (GameState.paddles (Lobby.gameState (lobbyAt "ABCD" (run threeReady))))
     = Some (Paddle.mk "player-a" TOP 250 20 100 10))
  ∧ ∃ l' p',
      lobbies (handleMovePaddle "ABCD" "player-a" "LEFT" (run threeReady)) !! "ABCD" = Some l'
      ∧ find (ownedBy "player-a") (GameState.paddles (Lobby.gameState l')) = Some p'
      ∧ Paddle.playerId p' = "player-a"
      ∧ Paddle.position p' = TOP
      ∧ Paddle.width p' = 100%Z
      ∧ Paddle.height p' = 10%Z
      ∧ Paddle.y p' = 20%Z
      ∧ (Paddle.x p' = 250 - 10 ∨ Paddle.x p' = 250 + 10 ∨ Paddle.x p' = 250)%Z
      ∧ (Paddle.x p' = 250 - 10 ↔ "LEFT" = "LEFT" ∧ 0 < 250)%Z
      ∧ (Paddle.x p' = 250 + 10 ↔ "LEFT" = "RIGHT" ∧ 250 + 100 < 600)%Z
      ∧ (0 ≤ Paddle.x p' ∧ Paddle.x p' + Paddle.width p' ≤ 600)%Z.
Proof.
  assert (reachable (run threeReady)) as H1 by (by exists threeReady).
  assert (lobbies (run threeReady) !! "ABCD" = Some (lobbyAt "ABCD" (run threeReady)))
    as H2 by (vm_compute; reflexivity).
  assert (Lobby.status (lobbyAt "ABCD" (run threeReady)) = PLAYING)
    as H3 by (vm_compute; reflexivity).
  assert (find (ownedBy "player-a")
            (GameState.paddles (Lobby.gameState (lobbyAt "ABCD" (run threeReady))))
          = Some (Paddle.mk "player-a" TOP 250 20 100 10))
    as H4 by (vm_compute; reflexivity).
  split; [exact (conj H1 (conj H2 (conj H3 H4)))|].
  exact (handleMovePaddle_step_and_bounds _ "ABCD" "player-a" "LEFT" _ _ H1 H2 H3 H4).
Defined.

(** ** The tick *)

Lemma randomVelocity_cases (r : float) :
  randomVelocity r = 3%float ∨ randomVelocity r = (-3)%float.
Proof. unfold randomVelocity. destruct (PrimFloat.ltb 0.5 r); [by left | by right]. Qed.

Lemma collide_position (paddles : list Paddle.t) (ball : Ball.t) :
  Ball.x (collide paddles ball) = Ball.x ball ∧ Ball.y (collide paddles ball) = Ball.y ball.
Proof.
  unfold collide, bounce. destruct (find _ _) as [p|]; [|done].
  by destruct (Paddle.position p).
Qed.

Lemma scoringSide_collide (paddles : list Paddle.t) (ball : Ball.t) :
  scoringSide (collide paddles ball) = scoringSide ball.
Proof.
  unfold scoringSide. destruct (collide_position paddles ball) as [-> ->]. done.
Qed.

Lemma find_atSide_id (side : Position) (l : Lobby.t) (player : Player.t) :
  find (atSide side) (Lobby.players l) = Some player → Player.id player ∈ ids l.
Proof.
  intros [Hin _]%find_some. apply list_elem_of_In in Hin.
  unfold ids. apply list_elem_of_fmap. eauto.
Qed.

Lemma truthy_id (l : Lobby.t) (i : string) : lobby_ok l → i ∈ ids l → truthy i = true.
Proof.
  intros Hok Hi. unfold truthy. rewrite bool_decide_eq_false_2; [done|].
  intros ->. by apply (ok_ids _ Hok).
Qed.

(** What a tick does to the scores and the status of a PLAYING lobby: nothing
    to the scores unless a guarded wall was crossed, and then one increment
    for the guard; the game is over exactly when that guard reached ten. *)
Lemma ticked_scores (env : Env) (l : Lobby.t) :
  Lobby.status l = PLAYING →
  (GameState.scores (Lobby.gameState (ticked env l)) = GameState.scores (Lobby.gameState l)
   ∧ Lobby.status (ticked env l) = PLAYING)
  ∨ ∃ side player,
      scoringSide (advance (GameState.ball (Lobby.gameState l))) = Some side
      ∧ find (atSide side) (Lobby.players l) = Some player
      ∧ GameState.scores (Lobby.gameState (ticked env l))
        = increment (Player.id player) (GameState.scores (Lobby.gameState l))
      ∧ GameState.ball (Lobby.gameState (ticked env l)) = resetBall env
      ∧ Lobby.status (ticked env l)
        = if truthy (Player.id player)
             && reachedTen (increment (Player.id player) (GameState.scores (Lobby.gameState l))
                              !! Player.id player)
          then GAME_OVER else PLAYING.
Proof.
  intros Hs. unfold ticked. rewrite bool_decide_eq_true_2 by done. cbn zeta.
  rewrite scoringSide_collide.
  destruct (scoringSide _) as [side|] eqn:Eside; [|by left].
  destruct (find _ _) as [player|] eqn:Ef; [|by left].
  right. exists side, player. destruct (_ && _); done.
Qed.

Lemma ticked_scored (env : Env) (l : Lobby.t) (side : Position) (player : Player.t) :
  Lobby.status l = PLAYING →
  scoringSide (advance (GameState.ball (Lobby.gameState l))) = Some side →
  find (atSide side) (Lobby.players l) = Some player →
  GameState.scores (Lobby.gameState (ticked env l))
  = increment (Player.id player) (GameState.scores (Lobby.gameState l))
  ∧ GameState.ball (Lobby.gameState (ticked env l)) = resetBall env.
Proof.
  intros Hs Hside Hf. unfold ticked. rewrite bool_decide_eq_true_2 by done. cbn zeta.
  rewrite scoringSide_collide, Hside, Hf. destruct (_ && _); done.
Qed.

Lemma ticked_idle (env : Env) (l : Lobby.t) : Lobby.status l ≠ PLAYING → ticked env l = l.
Proof. intros Hs. unfold ticked. by rewrite bool_decide_eq_false_2. Qed.

(** C6. In a reachable world, a tick of a PLAYING lobby never lowers a score
    (an integer entry stays an integer entry, at least as large); and when
    the tick brings an entry to a value of 10 or more that it did not have
    before, the lobby is GAME_OVER at the end of that same tick, no timer is
    left for it, and running the tick procedure again changes nothing (the
    ball stays where the winning point left it). *)
Theorem tick_scores_monotone_and_ten_ends (w : World) (c : string) (env : Env) (l : Lobby.t) :
  reachable w →
  lobbies w !! c = Some l →
  Lobby.status l = PLAYING →
  ∃ l',
    lobbies (tick c env w) !! c = Some l'
    ∧ (∀ i n, GameState.scores (Lobby.gameState l) !! i = Some (Int n) →
         ∃ m, GameState.scores (Lobby.gameState l') !! i = Some (Int m) ∧ (n ≤ m)%Z)
    ∧ (∀ i m, GameState.scores (Lobby.gameState l') !! i = Some (Int m) → (10 ≤ m)%Z →
         GameState.scores (Lobby.gameState l) !! i ≠ Some (Int m) →
         Lobby.status l' = GAME_OVER
         ∧ (∀ h, intervals (tick c env w) !! h ≠ Some c)
         ∧ ∀ env', lobbies (tick c env' (tick c env w)) = lobbies (tick c env w)).
Proof.
  intros Hr Hl Hs. pose proof (reachable_ok _ Hr) as Hok.
  pose proof (ok_lobbies _ Hok _ _ Hl) as Hlok.
  destruct (tick_lobbies w c env l Hl) as [Hlob _].
  assert (lobbies (tick c env w) !! c = Some (ticked env l)) as Hl'
    by (rewrite Hlob; apply lookup_insert_eq).
  exists (ticked env l). split; [done|].
  destruct (ticked_scores env l Hs) as [[Hsc Hst]|(side & player & _ & Hf & Hsc & _ & Hst)];
    rewrite Hsc.
  - split; [intros i n Hi; exists n; split; [done | lia]|].
    intros i m Hi _ Hne. done.
  - set (j := Player.id player) in *. split.
    + intros i n Hi. unfold increment. destruct (decide (j = i)) as [->|Hne].
      * rewrite Hi, lookup_insert_eq. exists (n + 1)%Z. split; [done | lia].
      * exists n. split; [|lia].
        destruct (GameState.scores _ !! j) as [[?|]|]; by rewrite lookup_insert_ne.
    + intros i m Hi Hm Hne.
      assert (i = j) as ->.
      { destruct (decide (j = i)) as [->|Hji]; [done|]. exfalso. apply Hne.
        rewrite <- Hi. unfold increment.
        destruct (GameState.scores _ !! j) as [[?|]|]; by rewrite lookup_insert_ne. }
      rewrite Hi in Hst. cbn in Hst.
      rewrite (truthy_id l j Hlok (find_atSide_id _ _ _ Hf)) in Hst.
      destruct (Z.leb_spec 10 m) as [_|?]; [|lia]. cbn in Hst.
      split; [done|]. split.
      * intros h Hh. pose proof (tick_ok w c env Hok) as Hok'.
        apply (ok_timer_owner _ Hok') in Hh as (_ & l0 & Hl0 & Hg).
        rewrite Hl' in Hl0. injection Hl0 as <-.
        assert (Lobby.status (ticked env l) ≠ PLAYING) as Hnp by (by rewrite Hst).
        apply (ok_handle _ (ok_lobbies _ Hok' _ _ Hl')) in Hnp. congruence.
      * intros env'. destruct (tick_lobbies _ c env' _ Hl') as [-> _].
        rewrite ticked_idle by (by rewrite Hst). by apply insert_id.
Qed.

Lemma tick_scores_monotone_and_ten_ends_witness :
  (reachable (run threeReady)
   ∧ lobbies (run threeReady) !! "ABCD" = Some (lobbyAt "ABCD" (run threeReady))
   ∧ Lobby.status (lobbyAt "ABCD" (run threeReady)) = PLAYING)
  ∧ ∃ l',
      lobbies (tick "ABCD" env0 (run threeReady)) !! "ABCD" = Some l'
      ∧ ∀ i n,
          GameState.scores (Lobby.gameState (lobbyAt "ABCD" (run threeReady))) !! i
          = Some (Int n) →
          ∃ m, GameState.scores (Lobby.gameState l') !! i = Some (Int m) ∧ (n ≤ m)%Z.
Proof.
  assert (reachable (run threeReady)) as H1 by (by exists threeReady).
  assert (lobbies (run threeReady) !! "ABCD" = Some (lobbyAt "ABCD" (run threeReady)))
    as H2 by (vm_compute; reflexivity).
  assert (Lobby.status (lobbyAt "ABCD" (run threeReady)) = PLAYING)
    as H3 by (vm_compute; reflexivity).
  split; [exact (conj H1 (conj H2 H3))|].
  destruct (tick_scores_monotone_and_ten_ends _ "ABCD" env0 _ H1 H2 H3) as (l' & Hl' & Hm & _).
  exists l'. exact (conj Hl' Hm).
Defined.

(** C8. In a reachable world, when the ball of a PLAYING lobby ends its
    movement step above the top wall ([ball.y < 0]) and a player guards
    BOTTOM, the first such player in lobby order gains exactly one point, no
    other entry of the scores changes (so the TOP guard gains nothing), and
    the ball is back at (300, 300) with each velocity component drawn anew
    as 3 or -3. *)
Theorem top_wall_scores_BOTTOM (w : World) (c : string) (env : Env) (l : Lobby.t)
    (player : Player.t) :
  reachable w →
  lobbies w !! c = Some l →
  Lobby.status l = PLAYING →
  PrimFloat.ltb (Ball.y (advance (GameState.ball (Lobby.gameState l)))) 0 = true →
  find (atSide BOTTOM) (Lobby.players l) = Some player →
  ∃ l' n,
    lobbies (updateBallPosition c env w) !! c = Some l'
    ∧ Player.position player = BOTTOM
    ∧ GameState.scores (Lobby.gameState l) !! Player.id player = Some (Int n)
    ∧ GameState.scores (Lobby.gameState l') !! Player.id player = Some (Int (n + 1))
    ∧ (∀ i, i ≠ Player.id player →
         GameState.scores (Lobby.gameState l') !! i = GameState.scores (Lobby.gameState l) !! i)
    ∧ GameState.ball (Lobby.gameState l')
      = Ball.mk 300 300 (randomVelocity (random1 env)) (randomVelocity (random2 env))
    ∧ (randomVelocity (random1 env) = 3%float ∨ randomVelocity (random1 env) = (-3)%float)
    ∧ (randomVelocity (random2 env) = 3%float ∨ randomVelocity (random2 env) = (-3)%float).
Proof.
  intros Hr Hl Hs Hy Hf. pose proof (reachable_ok _ Hr) as Hok.
  pose proof (ok_lobbies _ Hok _ _ Hl) as Hlok.
  destruct (updateBallPosition_lobbies w c env l Hl) as [-> _].
  rewrite lookup_insert_eq.
  destruct (ok_scores _ Hlok Hs _ (find_atSide_id _ _ _ Hf)) as [n Hn].
  exists (ticked env l), n. split; [done|].
  split. { apply find_some in Hf as [_ Hp]. unfold atSide in Hp. by apply bool_decide_eq_true in Hp. }
  split; [done|].
  assert (scoringSide (advance (GameState.ball (Lobby.gameState l))) = Some BOTTOM) as Hside
    by (unfold scoringSide; by rewrite Hy).
  destruct (ticked_scored env l BOTTOM player Hs Hside Hf) as [-> ->].
  unfold increment. rewrite Hn.
  split; [apply lookup_insert_eq|].
  split; [intros i Hi; by rewrite lookup_insert_ne|].
  split; [done|].
  split; apply randomVelocity_cases.
Qed.

Lemma top_wall_scores_BOTTOM_witness :
  (reachable (run hundredTicks)
   ∧ lobbies (run hundredTicks) !! "ABCD" = Some (lobbyAt "ABCD" (run hundredTicks))
   ∧ Lobby.status (lobbyAt "ABCD" (run hundredTicks)) = PLAYING
   ∧ PrimFloat.ltb
       (Ball.y (advance (GameState.ball (Lobby.gameState (lobbyAt "ABCD" (run hundredTicks))))))
       0 = true
   ∧ find (atSide BOTTOM) (Lobby.players (lobbyAt "ABCD" (run hundredTicks)))
     = Some (Player.mk "player-c" "Carol" true BOTTOM))
  ∧ ∃ l' n,
      lobbies (updateBallPosition "ABCD" env0 (run hundredTicks)) !! "ABCD" = Some l'
      ∧ GameState.scores (Lobby.gameState (lobbyAt "ABCD" (run hundredTicks))) !! "player-c"
        = Some (Int n)
      ∧ GameState.scores (Lobby.gameState l') !! "player-c" = Some (Int (n + 1))
      ∧ GameState.ball (Lobby.gameState l') = Ball.mk 300 300 3 (-3).
Proof.
  assert (reachable (run hundredTicks)) as H1 by (by exists hundredTicks).
  assert (lobbies (run hundredTicks) !! "ABCD" = Some (lobbyAt "ABCD" (run hundredTicks)))
    as H2 by (vm_compute; reflexivity).
  assert (Lobby.status (lobbyAt "ABCD" (run hundredTicks)) = PLAYING)
    as H3 by (vm_compute; reflexivity).
  assert (PrimFloat.ltb
            (Ball.y (advance (GameState.ball (Lobby.gameState (lobbyAt "ABCD" (run hundredTicks))))))
            0 = true)
    as H4 by (vm_compute; reflexivity).
  assert (find (atSide BOTTOM) (Lobby.players (lobbyAt "ABCD" (run hundredTicks)))
          = Some (Player.mk "player-c" "Carol" true BOTTOM))
    as H5 by (vm_compute; reflexivity).
  split; [exact (conj H1 (conj H2 (conj H3 (conj H4 H5))))|].
  destruct (top_wall_scores_BOTTOM _ "ABCD" env0 _ _ H1 H2 H3 H4 H5)
    as (l' & n & Hl' & _ & Hn & Hn' & _ & Hb & _).
  exists l', n. exact (conj Hl' (conj Hn (conj Hn' Hb))).
Defined.

(** When nobody guards BOTTOM the top wall gives no point: the scores are as
    they were and the ball is reset all the same. *)
Lemma top_wall_without_BOTTOM_guard (w : World) (c : string) (env : Env) (l : Lobby.t) :
  lobbies w !! c = Some l →
  Lobby.status l = PLAYING →
  PrimFloat.ltb (Ball.y (advance (GameState.ball (Lobby.gameState l)))) 0 = true →
  find (atSide BOTTOM) (Lobby.players l) = None →
  lobbies (updateBallPosition c env w) !! c
  = Some (Lobby.setGameState (GameState.setBall (resetBall env) (Lobby.gameState l)) l).
Proof.
  intros Hl Hs Hy Hf. destruct (updateBallPosition_lobbies w c env l Hl) as [-> _].
  rewrite lookup_insert_eq. unfold ticked. rewrite bool_decide_eq_true_2 by done. cbn zeta.
  rewrite scoringSide_collide. unfold scoringSide. by rewrite Hy, Hf.
Qed.

(** ** Collisions *)





(** ** Lookups after a handler *)

Section Lookups.
Context (w : World) (c0 c : string).

Lemma lookup_handlePlayerReady playerId env :
  lobbies (handlePlayerReady c0 playerId env w) !! c
  = if decide (c0 = c) then readied env (nextInterval w) playerId <$> lobbies w !! c
    else lobbies w !! c.
Proof.
  destruct (lobbies w !! c0) as [l0|] eqn:H0.
  - destruct (handlePlayerReady_lobbies w c0 playerId env l0 H0) as [-> _].
    case_decide as E; [subst; by rewrite lookup_insert_eq, H0 | by rewrite lookup_insert_ne].
  - unfold handlePlayerReady. rewrite H0. case_decide as E; [subst; by rewrite H0 | done].
Qed.

Lemma lookup_handleMovePaddle playerId direction :
  lobbies (handleMovePaddle c0 playerId direction w) !! c
  = if decide (c0 = c) then moved playerId direction <$> lobbies w !! c else lobbies w !! c.
Proof.
  destruct (lobbies w !! c0) as [l0|] eqn:H0.
  - destruct (handleMovePaddle_lobbies w c0 playerId direction l0 H0) as [-> _].
    case_decide as E; [subst; by rewrite lookup_insert_eq, H0 | by rewrite lookup_insert_ne].
  - unfold handleMovePaddle. rewrite H0. case_decide as E; [subst; by rewrite H0 | done].
Qed.

Lemma lookup_handlePlayerLeave playerId :
  lobbies (handlePlayerLeave c0 playerId w) !! c
  = if decide (c0 = c) then lobbies w !! c ≫= departed playerId else lobbies w !! c.
Proof.
  destruct (lobbies w !! c0) as [l0|] eqn:H0.
  - pose proof (handlePlayerLeave_lobbies w c0 playerId l0 H0) as H.
    destruct (departed playerId l0) as [l'|] eqn:Hd.
    + destruct H as [-> _]. case_decide as E.
      * subst. rewrite lookup_insert_eq, H0. cbn. by rewrite Hd.
      * by rewrite lookup_insert_ne.
    + destruct H as [-> _]. case_decide as E.
      * subst. rewrite lookup_delete_eq, H0. cbn. by rewrite Hd.
      * by rewrite lookup_delete_ne.
  - unfold handlePlayerLeave. rewrite H0. case_decide as E; [subst; by rewrite H0 | done].
Qed.

Lemma lookup_tick env :
  lobbies (tick c0 env w) !! c
  = if decide (c0 = c) then ticked env <$> lobbies w !! c else lobbies w !! c.
Proof.
  destruct (lobbies w !! c0) as [l0|] eqn:H0.
  - destruct (tick_lobbies w c0 env l0 H0) as [-> _].
    case_decide as E; [subst; by rewrite lookup_insert_eq, H0 | by rewrite lookup_insert_ne].
  - unfold tick, updateBallPosition. autorewrite with world. rewrite H0.
    case_decide as E; [subst; by rewrite H0 | done].
Qed.

Lemma lookup_joinLobby playerName uuid l' :
  lobbies (joinLobby c0 playerName uuid w).1 !! c = Some l' →
  ∃ l, lobbies w !! c = Some l ∧ Lobby.status l' = Lobby.status l.
Proof.
  destruct (lobbies w !! c0) as [l0|] eqn:H0.
  - destruct (joinLobby_lobbies w c0 playerName uuid l0 H0) as [-> | ->]; [|by eauto].
    destruct (decide (c0 = c)) as [->|Hne].
    + rewrite lookup_insert_eq. intros [= <-]. exists l0. split; [done|].
      unfold joined. by destruct (4 <=? _).
    + rewrite lookup_insert_ne by done. eauto.
  - unfold joinLobby. destruct (_ || _); [by eauto|]. rewrite H0. by eauto.
Qed.

Lemma lookup_connection playerId l' :
  lobbies (connection c0 playerId w) !! c = Some l' →
  ∃ l, lobbies w !! c = Some l ∧ Lobby.status l' = Lobby.status l.
Proof.
  unfold connection. destruct (_ || _); [by eauto|].
  destruct (lobbies w !! c0) as [l0|] eqn:H0; [|by eauto].
  destruct (list_find _ _); [|by eauto]. cbn.
  destruct (decide (c0 = c)) as [->|Hne].
  - rewrite lookup_insert_eq. intros [= <-]. by eauto.
  - rewrite lookup_insert_ne by done. eauto.
Qed.

End Lookups.

Lemma lookup_createLobby w hostName codes uuid w' r c l :
  createLobby hostName codes uuid w = Some (w', r) →
  lobbies w !! c = Some l → lobbies w' !! c = Some l.
Proof.
  unfold createLobby. destruct (bool_decide _); [by intros [= <- _]|].
  destruct (find _ codes) as [c0|] eqn:Hf; [|done]. intros [= <- _] Hl.
  apply find_some in Hf as [_ Hc%bool_decide_eq_true].
  autorewrite with world. rewrite lookup_insert_ne; [done | congruence].
Qed.

Lemma departed_status playerId l l' :
  departed playerId l = Some l' → Lobby.status l ≠ PLAYING → Lobby.status l' = Lobby.status l.
Proof.
  intros Hd Hs. unfold departed in Hd.
  destruct (list_find _ _) as [[i p]|]; [|by injection Hd as <-].
  cbn zeta in Hd. cbn [Lobby.players Lobby.setClients Lobby.setPlayers] in Hd.
  unfold finished in Hd.
  destruct (bool_decide _); [destruct (delete i _); [done|]|];
    injection Hd as <-; by rewrite bool_decide_eq_false_2.
Qed.

(** ** After the game *)

(** C1, as stated, fails: the lobby of [aliceReadyAgain] is GAME_OVER, and
    Bob's PLAYER_READY puts it back to PLAYING. *)
Lemma GAME_OVER_restarts_on_PLAYER_READY :
  statusOf "ABCD" (run aliceReadyAgain) = Some GAME_OVER
  ∧ bindings (run aliceReadyAgain) !! 1 = Some ("ABCD", "player-b")
  ∧ statusOf "ABCD" (step (run aliceReadyAgain) (EvMessage 1 PLAYER_READY env0)) = Some PLAYING
  ∧ statusOf "ABCD" (handlePlayerReady "ABCD" "player-b" env0 (run aliceReadyAgain))
    = Some PLAYING.
Proof. by_evaluation. Qed.

(** C1, amended. A lobby that is GAME_OVER stays GAME_OVER (or is destroyed)
    under every event but one: a PLAYER_READY on one of its channels after
    which at least two players are present and all are ready.  That event
    starts a new game: the status is PLAYING again. *)
Theorem GAME_OVER_left_only_by_ready (w : World) (c : string) (l : Lobby.t) :
  lobbies w !! c = Some l →
  Lobby.status l = GAME_OVER →
  (∀ e l',
     lobbies (step w e) !! c = Some l' →
     Lobby.status l' = GAME_OVER
     ∨ (Lobby.status l' = PLAYING
        ∧ ∃ ws playerId env,
            e = EvMessage ws PLAYER_READY env
            ∧ bindings w !! ws = Some (c, playerId)
            ∧ 2 ≤ length (updateFirst (hasId playerId) (Player.setReady true) (Lobby.players l))
            ∧ Forall (λ p, Player.isReady p = true)
                (updateFirst (hasId playerId) (Player.setReady true) (Lobby.players l))))
  ∧ (∀ ws playerId env,
       bindings w !! ws = Some (c, playerId) →
       2 ≤ length (updateFirst (hasId playerId) (Player.setReady true) (Lobby.players l)) →
       Forall (λ p, Player.isReady p = true)
         (updateFirst (hasId playerId) (Player.setReady true) (Lobby.players l)) →
       ∃ l', lobbies (step w (EvMessage ws PLAYER_READY env)) !! c = Some l'
             ∧ Lobby.status l' = PLAYING).
Proof.
  intros Hl Hs.
  assert (Lobby.status l ≠ PLAYING) as Hnp by (by rewrite Hs).
  split.
  - intros e l'.
    destruct e as [hostName codes uuid|c0 playerName uuid|c0 playerId|ws data env|ws|ws|h env];
      cbn [step].
    + destruct (createLobby _ _ _ _) as [[w' r]|] eqn:E.
      * rewrite (lookup_createLobby _ _ _ _ _ _ _ _ E Hl). intros [= <-]. by left.
      * rewrite Hl. intros [= <-]. by left.
    + intros (l0 & Hl0 & ->)%lookup_joinLobby. left. congruence.
    + intros (l0 & Hl0 & ->)%lookup_connection. left. congruence.
    + destruct (bindings w !! ws) as [[c0 playerId]|] eqn:Hb;
        [|rewrite Hl; intros [= <-]; by left].
      destruct data as [|direction| | |]; cbn [onMessage].
      * rewrite lookup_handlePlayerReady. case_decide as E; [subst c0|].
        -- rewrite Hl. cbn. intros [= <-]. unfold readied.
           cbn [Lobby.players Lobby.setPlayers].
           destruct (forallb _ _ && _) eqn:Ea; [|by left].
           apply andb_true_iff in Ea as [Hall%forallb_Forall Hlen%Nat.leb_le].
           right. split; [done|]. by exists ws, playerId, env.
        -- rewrite Hl. intros [= <-]. by left.
      * rewrite lookup_handleMovePaddle, Hl. case_decide; cbn; intros [= <-]; [|by left].
        left. unfold moved. by rewrite bool_decide_eq_false_2.
      * rewrite lookup_handlePlayerLeave, Hl. case_decide; cbn; [|intros [= <-]; by left].
        intros Hd. left. by rewrite (departed_status _ _ _ Hd Hnp).
      * rewrite Hl. intros [= <-]. by left.
      * rewrite Hl. intros [= <-]. by left.
    + cbn. rewrite Hl. intros [= <-]. by left.
    + destruct (bindings w !! ws) as [[c0 playerId]|]; [|rewrite Hl; intros [= <-]; by left].
      rewrite lookup_handlePlayerLeave. cbn [lobbies]. rewrite Hl.
      case_decide; cbn; [|intros [= <-]; by left].
      intros Hd. left. by rewrite (departed_status _ _ _ Hd Hnp).
    + destruct (intervals w !! h) as [c0|]; [|rewrite Hl; intros [= <-]; by left].
      rewrite lookup_tick, Hl. case_decide; cbn; intros [= <-]; [|by left].
      left. by rewrite ticked_idle.
  - intros ws playerId env Hb Hlen Hall. cbn [step]. rewrite Hb. cbn [onMessage].
    rewrite lookup_handlePlayerReady, decide_True, Hl by done. cbn.
    eexists. split; [done|]. unfold readied. cbn [Lobby.players Lobby.setPlayers].
    apply forallb_Forall in Hall. apply Nat.leb_le in Hlen. by rewrite Hall, Hlen.
Qed.

Lemma GAME_OVER_left_only_by_ready_witness :
  (lobbies (run aliceReadyAgain) !! "ABCD" = Some (lobbyAt "ABCD" (run aliceReadyAgain))
   ∧ Lobby.status (lobbyAt "ABCD" (run aliceReadyAgain)) = GAME_OVER
   ∧ bindings (run aliceReadyAgain) !! 1 = Some ("ABCD", "player-b")
   ∧ 2 ≤ length (updateFirst (hasId "player-b") (Player.setReady true)
                   (Lobby.players (lobbyAt "ABCD" (run aliceReadyAgain))))
   ∧ Forall (λ p, Player.isReady p = true)
       (updateFirst (hasId "player-b") (Player.setReady true)
          (Lobby.players (lobbyAt "ABCD" (run aliceReadyAgain)))))
  ∧ ∃ l', lobbies (step (run aliceReadyAgain) (EvMessage 1 PLAYER_READY env0)) !! "ABCD" = Some l'
          ∧ Lobby.status l' = PLAYING.
Proof.
  assert (lobbies (run aliceReadyAgain) !! "ABCD" = Some (lobbyAt "ABCD" (run aliceReadyAgain)))
    as H1 by (vm_compute; reflexivity).
  assert (Lobby.status (lobbyAt "ABCD" (run aliceReadyAgain)) = GAME_OVER)
    as H2 by (vm_compute; reflexivity).
  assert (bindings (run aliceReadyAgain) !! 1 = Some ("ABCD", "player-b"))
    as H3 by (vm_compute; reflexivity).
  assert (2 ≤ length (updateFirst (hasId "player-b") (Player.setReady true)
                        (Lobby.players (lobbyAt "ABCD" (run aliceReadyAgain)))))
    as H4 by (vm_compute; repeat constructor).
  assert (Forall (λ p, Player.isReady p = true)
            (updateFirst (hasId "player-b") (Player.setReady true)
               (Lobby.players (lobbyAt "ABCD" (run aliceReadyAgain)))))
    as H5 by (apply forallb_Forall; vm_compute; reflexivity).
  split; [exact (conj H1 (conj H2 (conj H3 (conj H4 H5))))|].
  exact (proj2 (GAME_OVER_left_only_by_ready _ "ABCD" _ H1 H2) 1 "player-b" env0 H3 H4 H5).
Defined.

(** ** Score entries *)

(** What [createLobby] builds for a non-empty host name: one player, the
    host, at TOP, and an empty [scores] object. *)
Lemma createLobby_lobby (w : World) (hostName : string) (codes : list string) (uuid : string)
    (w' : World) (r : Reply) :
  hostName ≠ "" →
  createLobby hostName codes uuid w = Some (w', r) →
  ∃ lobbyCode l,
    r = Created lobbyCode ("player-" +:+ uuid)
    ∧ lobbies w !! lobbyCode = None
    ∧ lobbies w' !! lobbyCode = Some l
    ∧ Lobby.players l = [Player.mk ("player-" +:+ uuid) hostName false TOP]
    ∧ Lobby.status l = WAITING
    ∧ GameState.scores (Lobby.gameState l) = ∅.
Proof.
  intros Hn. unfold createLobby. rewrite bool_decide_eq_false_2 by done.
  destruct (find _ codes) as [c|] eqn:Hf; [|done]. intros [= <- <-].
  apply find_some in Hf as [_ Hc%bool_decide_eq_true].
  eexists c, _. split; [done|]. split; [done|].
  autorewrite with world. rewrite lookup_insert_eq. done.
Qed.

(** C2 at its failing input: right after [createLobby] the host is a player
    of the lobby and has no entry in [scores]; the player who joins next
    gets a zero entry, the host still has none. *)
Theorem createLobby_host_has_no_score :
  ∃ w l w2 l2,
    createLobby "Alice" ["ABCD"] "a" initial = Some (w, Created "ABCD" "player-a")
    ∧ lobbies w !! "ABCD" = Some l
    ∧ ids l = ["player-a"]
    ∧ GameState.scores (Lobby.gameState l) !! "player-a" = None
    ∧ joinLobby "ABCD" "Bob" "b" w = (w2, Joined "player-b" "ABCD")
    ∧ lobbies w2 !! "ABCD" = Some l2
    ∧ ids l2 = ["player-a"; "player-b"]
    ∧ GameState.scores (Lobby.gameState l2) !! "player-b" = Some (Int 0)
    ∧ GameState.scores (Lobby.gameState l2) !! "player-a" = None.
Proof.
  exists (run [EvCreate "Alice" ["ABCD"] "a"]),
    (lobbyAt "ABCD" (run [EvCreate "Alice" ["ABCD"] "a"])),
    (run [EvCreate "Alice" ["ABCD"] "a"; EvJoin "ABCD" "Bob" "b"]),
    (lobbyAt "ABCD" (run [EvCreate "Alice" ["ABCD"] "a"; EvJoin "ABCD" "Bob" "b"])).
  by_evaluation.
Qed.

(** No handler ever removes a score entry: the keys of [scores] only grow
    while the lobby lives. *)
Lemma increment_dom (j : string) (scores : gmap string Score) :
  dom scores ⊆ dom (increment j scores).
Proof.
  unfold increment. destruct (scores !! j) as [[n|]|]; rewrite dom_insert; set_solver.
Qed.

Lemma zeroScores_dom (players : list Player.t) (scores : gmap string Score) :
  dom scores ⊆ dom (zeroScores players scores).
Proof.
  unfold zeroScores. revert scores.
  induction players as [|p ps IH]; intros scores; simpl; [done|].
  etrans; [|apply IH]. rewrite dom_insert. set_solver.
Qed.

(** ** Stale player ids *)

(** A leave for an id that is not in the lobby changes nothing. *)
Lemma handlePlayerLeave_unknown_player (w : World) (c playerId : string) (l : Lobby.t) :
  lobbies w !! c = Some l → playerId ∉ ids l → handlePlayerLeave c playerId w = w.
Proof.
  intros Hl Hid. unfold handlePlayerLeave. rewrite Hl.
  apply list_find_id_None in Hid. by rewrite Hid.
Qed.

(** In a reachable world a move for an id that is not in the lobby changes
    nothing either: while PLAYING every paddle belongs to a current player. *)
Lemma handleMovePaddle_unknown_player (w : World) (c playerId direction : string)
    (l : Lobby.t) :
  reachable w → lobbies w !! c = Some l → playerId ∉ ids l →
  handleMovePaddle c playerId direction w = w.
Proof.
  intros Hr Hl Hid. unfold handleMovePaddle. rewrite Hl.
  case_bool_decide as Hs; [|done].
  destruct (find _ _) as [p|] eqn:Hf; [|done]. exfalso. apply Hid.
  apply find_some in Hf as [Hin Hp]. apply list_elem_of_In in Hin.
  unfold ownedBy in Hp. apply bool_decide_eq_true in Hp as <-.
  by apply (ok_owners _ (ok_lobbies _ (reachable_ok _ Hr) _ _ Hl)).
Qed.

(** A PLAYER_READY for an id that is not in the lobby marks nobody, but the
    readiness test and the broadcast run all the same. *)
Lemma handlePlayerReady_unknown_player (w : World) (c playerId : string) (env : Env)
    (l : Lobby.t) :
  lobbies w !! c = Some l → playerId ∉ ids l →
  handlePlayerReady c playerId env w
  = if forallb Player.isReady (Lobby.players l) && (2 <=? length (Lobby.players l))
    then startGame c env w else updateGameState c w.
Proof.
  intros Hl Hid. unfold handlePlayerReady. rewrite Hl.
  rewrite updateFirst_none by (by apply find_hasId_None).
  assert (setLobby c (Lobby.setPlayers (Lobby.players l) l) w = w) as ->; [|done].
  destruct w, l. unfold setLobby, setLobbies. cbn in *. f_equal. by apply insert_id.
Qed.

(** C5 at its failing input.  Alice and Bob are ready, Carol has left the
    WAITING lobby; a PLAYER_READY that still arrives on Carol's channel finds
    no player to mark, yet it starts the game: the status becomes PLAYING, a
    tick loop is set and GAME_START goes out to the two open channels. *)
Theorem stale_PLAYER_READY_starts_game :
  statusOf "ABCD" (run carolLeavesWaiting) = Some WAITING
  ∧ ids (lobbyAt "ABCD" (run carolLeavesWaiting)) = ["player-a"; "player-b"]
  ∧ bindings (run carolLeavesWaiting) !! 2 = Some ("ABCD", "player-c")
  ∧ intervals (run carolLeavesWaiting) = ∅
  ∧ statusOf "ABCD" (step (run carolLeavesWaiting) (EvMessage 2 PLAYER_READY env0))
    = Some PLAYING
  ∧ intervals (step (run carolLeavesWaiting) (EvMessage 2 PLAYER_READY env0)) !! 0
    = Some "ABCD"
  ∧ sent (step (run carolLeavesWaiting) (EvMessage 2 PLAYER_READY env0))
    = sent (run carolLeavesWaiting) ++ [(0, GAME_START 0); (1, GAME_START 0)].
Proof. by_evaluation. Qed.

(** X23. The keys of [scores] only grow while a lobby lives: whatever the
    event, an entry that was there is still there (also that of a player who
    has left). *)
Lemma step_keeps_score_entries (w : World) (e : Event) (c : string) (l l' : Lobby.t) :
  lobbies w !! c = Some l →
  lobbies (step w e) !! c = Some l' →
  dom (GameState.scores (Lobby.gameState l)) ⊆ dom (GameState.scores (Lobby.gameState l')).
Proof.
  intros Hl.
  assert (∀ env h playerId,
            dom (GameState.scores (Lobby.gameState l))
            ⊆ dom (GameState.scores (Lobby.gameState (readied env h playerId l)))) as Hready.
  { intros env h playerId. unfold readied. destruct (_ && _); [|done]. apply zeroScores_dom. }
  assert (∀ playerId l1, departed playerId l = Some l1 →
            GameState.scores (Lobby.gameState l1) = GameState.scores (Lobby.gameState l))
    as Hleave.
  { intros playerId l1. unfold departed, finished.
    destruct (list_find _ _) as [[i p]|]; [|by intros [= <-]].
    cbn zeta. cbn [Lobby.players Lobby.setClients Lobby.setPlayers].
    destruct (bool_decide (Lobby.host l = playerId)); [destruct (delete i _); [done|]|];
      destruct (bool_decide _); by intros [= <-]. }
  assert (∀ env, dom (GameState.scores (Lobby.gameState l))
                 ⊆ dom (GameState.scores (Lobby.gameState (ticked env l)))) as Htick.
  { intros env. unfold ticked. destruct (bool_decide _); [|done]. cbn zeta.
    destruct (scoringSide _); [|done]. destruct (find _ _); [|done].
    destruct (_ && _); apply increment_dom. }
  destruct e as [hostName codes uuid|c0 playerName uuid|c0 playerId|ws data env|ws|ws|h env];
    cbn [step].
  - destruct (createLobby _ _ _ _) as [[w' r]|] eqn:E.
    + rewrite (lookup_createLobby _ _ _ _ _ _ _ _ E Hl). by intros [= <-].
    + rewrite Hl. by intros [= <-].
  - destruct (lobbies w !! c0) as [l0|] eqn:H0.
    + destruct (joinLobby_lobbies w c0 playerName uuid l0 H0) as [-> | ->];
        [|rewrite Hl; by intros [= <-]].
      destruct (decide (c0 = c)) as [->|Hne].
      * rewrite lookup_insert_eq. intros [= <-]. rewrite Hl in H0. injection H0 as <-.
        unfold joined. destruct (4 <=? _); [done|]. cbn. rewrite dom_insert. set_solver.
      * rewrite lookup_insert_ne, Hl by done. by intros [= <-].
    + unfold joinLobby. destruct (_ || _); [|rewrite H0]; cbn; rewrite Hl; by intros [= <-].
  - unfold connection. destruct (_ || _); [rewrite Hl; by intros [= <-]|].
    destruct (lobbies w !! c0) as [l0|] eqn:H0; [|rewrite Hl; by intros [= <-]].
    destruct (list_find _ _); [|rewrite Hl; by intros [= <-]]. cbn.
    destruct (decide (c0 = c)) as [->|Hne].
    + rewrite lookup_insert_eq. intros [= <-]. rewrite Hl in H0. by injection H0 as <-.
    + rewrite lookup_insert_ne, Hl by done. by intros [= <-].
  - destruct (bindings w !! ws) as [[c0 playerId]|]; [|rewrite Hl; by intros [= <-]].
    destruct data as [|direction| | |]; cbn [onMessage].
    + rewrite lookup_handlePlayerReady, Hl. case_decide; cbn; intros [= <-]; [|done].
      apply Hready.
    + rewrite lookup_handleMovePaddle, Hl. case_decide; cbn; intros [= <-]; [|done].
      unfold moved. destruct (bool_decide _); [|done]. by destruct (find _ _).
    + rewrite lookup_handlePlayerLeave, Hl. case_decide; cbn; [|by intros [= <-]].
      intros Hd. by rewrite (Hleave _ _ Hd).
    + rewrite Hl. by intros [= <-].
    + rewrite Hl. by intros [= <-].
  - cbn. rewrite Hl. by intros [= <-].
  - destruct (bindings w !! ws) as [[c0 playerId]|]; [|rewrite Hl; by intros [= <-]].
    rewrite lookup_handlePlayerLeave. cbn [lobbies]. rewrite Hl.
    case_decide; cbn; [|by intros [= <-]].
    intros Hd. by rewrite (Hleave _ _ Hd).
  - destruct (intervals w !! h) as [c0|]; [|rewrite Hl; by intros [= <-]].
    rewrite lookup_tick, Hl. case_decide; cbn; intros [= <-]; [|done]. apply Htick.
Qed.

(** * Further properties of the handlers *)

(** ** Invariants of the lobbies of a reachable world, in general *)

Lemma createLobby_cases w hostName codes uuid w' r :
  createLobby hostName codes uuid w = Some (w', r) →
  (hostName = "" ∧ w' = w ∧ r = Error 400 "Host name is required")
  ∨ ∃ c, hostName ≠ "" ∧ lobbies w !! c = None ∧ c ∈ codes
         ∧ r = Created c ("player-" +:+ uuid)
         ∧ w' = setLobby c (createdLobby c hostName uuid) w.
Proof.
  unfold createLobby. case_bool_decide as Hn; [intros [= <- <-]; by left|].
  destruct (find _ codes) as [c|] eqn:Hf; [|done]. intros [= <- <-].
  apply find_some in Hf as [Hin Hc%bool_decide_eq_true]. apply list_elem_of_In in Hin.
  right. by exists c.
Qed.

Lemma joinLobby_cases w c playerName uuid :
  (∃ status msg, joinLobby c playerName uuid w = (w, Error status msg))
  ∨ ∃ l, c ≠ "" ∧ playerName ≠ "" ∧ lobbies w !! c = Some l
         ∧ length (Lobby.players l) < 4
         ∧ joinLobby c playerName uuid w
           = (broadcastToLobby c (PLAYER_JOINED playerName)
                (setLobby c (joined playerName uuid l) w),
              Joined ("player-" +:+ uuid) c).
Proof.
  unfold joinLobby, joined.
  case_bool_decide as Hc; [left; by eauto|]. case_bool_decide as Hn; [left; by eauto|].
  cbn [orb]. destruct (lobbies w !! c) as [l|] eqn:Hl; [|left; by eauto].
  destruct (Nat.leb_spec 4 (length (Lobby.players l))); [left; by eauto|].
  right. exists l. repeat split; try done.
  by rewrite (proj2 (Nat.leb_gt _ _)).
Qed.

Lemma connection_cases w c playerId :
  connection c playerId w = w
  ∨ ∃ l, c ≠ "" ∧ playerId ≠ "" ∧ lobbies w !! c = Some l ∧ playerId ∈ ids l
         ∧ connection c playerId w
           = mkWorld (<[c := connected (nextSocket w) playerId l]> (lobbies w))
               (intervals w) (nextInterval w)
               (<[nextSocket w := (c, playerId)]> (bindings w)) (S (nextSocket w))
               ({[nextSocket w]} ∪ openSockets w)
               (sent w ++ [(nextSocket w, GAME_STATE_UPDATE (Lobby.gameState l))]).
Proof.
  unfold connection.
  case_bool_decide as Hc; [by left|]. case_bool_decide as Hn; [by left|]. cbn [orb].
  destruct (lobbies w !! c) as [l|] eqn:Hl; [|by left].
  destruct (list_find _ _) as [[i p]|] eqn:Hf; [|by left].
  right. exists l. repeat split; try done.
  apply list_find_Some in Hf as (Hi & <- & _).
  unfold ids. apply list_elem_of_fmap. exists p. split; [done|].
  by eapply list_elem_of_lookup_2.
Qed.

Section ReachableLobbies.
Context (P : string → Lobby.t → Prop).
Context (P_created : ∀ c hostName uuid, hostName ≠ "" → P c (createdLobby c hostName uuid)).
Context (P_joined : ∀ c l playerName uuid,
  lobby_ok l → P c l → playerName ≠ "" → length (Lobby.players l) < 4 →
  P c (joined playerName uuid l)).
Context (P_connected : ∀ c l ws playerId,
  lobby_ok l → P c l → playerId ∈ ids l → P c (connected ws playerId l)).
Context (P_readied : ∀ c l env h playerId, lobby_ok l → P c l → P c (readied env h playerId l)).
Context (P_moved : ∀ c l playerId direction,
  lobby_ok l → P c l → P c (moved playerId direction l)).
Context (P_departed : ∀ c l playerId l',
  lobby_ok l → P c l → departed playerId l = Some l' → P c l').
Context (P_ticked : ∀ c l env, lobby_ok l → P c l → P c (ticked env l)).

Lemma step_lobby_invariant w e :
  world_ok w →
  (∀ c l, lobbies w !! c = Some l → P c l) →
  ∀ c l, lobbies (step w e) !! c = Some l → P c l.
Proof.
  intros Hok HP c l'.
  assert (∀ l, lobbies w !! c = Some l → lobby_ok l) as Hlok
    by (intros l Hl; by eapply ok_lobbies).
  assert (∀ playerId w0, lobbies w0 = lobbies w →
            lobbies (handlePlayerLeave c playerId w0) !! c = Some l' → P c l') as Hleave.
  { intros playerId w0 Hw0. rewrite lookup_handlePlayerLeave, decide_True, Hw0 by done.
    destruct (lobbies w !! c) as [l|] eqn:Hl; [|done]. cbn. intros Hd.
    eapply P_departed; eauto. }
  destruct e as [hostName codes uuid|c0 playerName uuid|c0 playerId|ws data env|ws|ws|h env];
    cbn [step].
  - destruct (createLobby _ _ _ _) as [[w' r]|] eqn:E; [|by apply HP].
    apply createLobby_cases in E as [(_ & -> & _)|(c1 & Hn & Hfresh & _ & _ & ->)];
      [by apply HP|].
    cbn. destruct (decide (c1 = c)) as [->|Hne].
    + rewrite lookup_insert_eq. intros [= <-]. by apply P_created.
    + rewrite lookup_insert_ne by done. apply HP.
  - destruct (joinLobby_cases w c0 playerName uuid)
      as [(st & msg & ->)|(l & _ & Hn & Hl & Hlen & ->)]; [by apply HP|].
    cbn [fst]. rewrite lobbies_broadcastToLobby. cbn.
    destruct (decide (c0 = c)) as [->|Hne].
    + rewrite lookup_insert_eq. intros [= <-]. apply P_joined; eauto.
    + rewrite lookup_insert_ne by done. apply HP.
  - destruct (connection_cases w c0 playerId) as [->|(l & _ & _ & Hl & Hin & ->)];
      [by apply HP|].
    cbn. destruct (decide (c0 = c)) as [->|Hne].
    + rewrite lookup_insert_eq. intros [= <-]. apply P_connected; eauto.
    + rewrite lookup_insert_ne by done. apply HP.
  - destruct (bindings w !! ws) as [[c0 playerId]|]; [|by apply HP].
    destruct data as [|direction| | |]; cbn [onMessage]; try by apply HP.
    + rewrite lookup_handlePlayerReady. case_decide; [subst c0|by apply HP].
      destruct (lobbies w !! c) as [l|] eqn:Hl; [|done]. cbn. intros [= <-].
      apply P_readied; eauto.
    + rewrite lookup_handleMovePaddle. case_decide; [subst c0|by apply HP].
      destruct (lobbies w !! c) as [l|] eqn:Hl; [|done]. cbn. intros [= <-].
      apply P_moved; eauto.
    + destruct (decide (c0 = c)) as [->|Hne]; [by apply Hleave|].
      rewrite lookup_handlePlayerLeave, decide_False by done. apply HP.
  - cbn. apply HP.
  - destruct (bindings w !! ws) as [[c0 playerId]|]; [|by apply HP].
    destruct (decide (c0 = c)) as [->|Hne]; [by apply Hleave|].
    rewrite lookup_handlePlayerLeave, decide_False by done. cbn. apply HP.
  - destruct (intervals w !! h) as [c0|]; [|by apply HP].
    rewrite lookup_tick. case_decide; [subst c0|by apply HP].
    destruct (lobbies w !! c) as [l|] eqn:Hl; [|done]. cbn. intros [= <-].
    apply P_ticked; eauto.
Qed.

Lemma reachable_lobby_invariant w c l : reachable w → lobbies w !! c = Some l → P c l.
Proof.
  intros [es ->]. revert c l. unfold run.
  induction es as [|e es IH] using rev_ind.
  - intros c l. cbn. by rewrite lookup_empty.
  - rewrite foldl_snoc. apply step_lobby_invariant; [|done].
    apply reachable_ok. by exists es.
Qed.

End ReachableLobbies.

(** ** The roster *)

Lemma ids_delete_other (players : list Player.t) (i : nat) (p : Player.t) (x : string) :
  players !! i = Some p → Player.id p ≠ x →
  x ∈ Player.id <$> players → x ∈ Player.id <$> delete i players.
Proof.
  revert i. induction players as [|q qs IH]; intros i Hi Hne Hx; [done|].
  destruct i as [|i]; cbn in *.
  - injection Hi as ->. apply elem_of_cons in Hx as [->|?]; done.
  - apply elem_of_cons in Hx as [->|Hx]; [by left|]. right. by eapply IH.
Qed.

Lemma ids_delete_subseteq (players : list Player.t) (i : nat) :
  Player.id <$> delete i players ⊆ Player.id <$> players.
Proof. apply sublist_subseteq, fmap_sublist, sublist_delete. Qed.

Lemma ids_endedLobby (l : Lobby.t) : ids (endedLobby l) = ids l.
Proof. unfold ids, endedLobby. cbn. apply ids_setReady. Qed.

Lemma finished_roster (l : Lobby.t) :
  ids (finished l) = ids l
  ∧ length (Lobby.players (finished l)) = length (Lobby.players l)
  ∧ Lobby.host (finished l) = Lobby.host l
  ∧ Lobby.code (finished l) = Lobby.code l
  ∧ Lobby.clients (finished l) = Lobby.clients l.
Proof.
  unfold finished. destruct (bool_decide _); [|done].
  rewrite ids_endedLobby. cbn. by rewrite length_fmap.
Qed.

Lemma ticked_roster (env : Env) (l : Lobby.t) :
  ids (ticked env l) = ids l
  ∧ length (Lobby.players (ticked env l)) = length (Lobby.players l)
  ∧ Lobby.host (ticked env l) = Lobby.host l
  ∧ Lobby.code (ticked env l) = Lobby.code l
  ∧ Lobby.clients (ticked env l) = Lobby.clients l.
Proof.
  unfold ticked. destruct (bool_decide _); [|done]. cbn zeta.
  destruct (scoringSide _); [|done]. destruct (find _ _); [|done].
  destruct (_ && _); [|done].
  rewrite ids_endedLobby. cbn. by rewrite length_fmap.
Qed.

Lemma readied_roster (env : Env) (h : nat) (playerId : string) (l : Lobby.t) :
  ids (readied env h playerId l) = ids l
  ∧ length (Lobby.players (readied env h playerId l)) = length (Lobby.players l)
  ∧ Lobby.host (readied env h playerId l) = Lobby.host l
  ∧ Lobby.code (readied env h playerId l) = Lobby.code l
  ∧ Lobby.clients (readied env h playerId l) = Lobby.clients l.
Proof.
  assert (Player.id <$> updateFirst (hasId playerId) (Player.setReady true) (Lobby.players l)
          = ids l) as Hids by (by apply fmap_updateFirst).
  unfold readied. cbn zeta. destruct (_ && _); unfold ids; cbn;
    by rewrite Hids, length_updateFirst.
Qed.

Lemma moved_roster (playerId direction : string) (l : Lobby.t) :
  Lobby.players (moved playerId direction l) = Lobby.players l
  ∧ Lobby.host (moved playerId direction l) = Lobby.host l
  ∧ Lobby.code (moved playerId direction l) = Lobby.code l
  ∧ Lobby.clients (moved playerId direction l) = Lobby.clients l.
Proof. unfold moved. destruct (bool_decide _); [|done]. by destruct (find _ _). Qed.

Lemma reachable_roster (w : World) (c : string) (l : Lobby.t) :
  reachable w → lobbies w !! c = Some l → roster_ok c l.
Proof.
  revert w c l. apply reachable_lobby_invariant.
  - intros c hostName uuid _. split; cbn; [lia | | done |].
    + unfold ids. cbn. by apply list_elem_of_singleton.
    + intros client H. by apply elem_of_nil in H.
  - intros c l playerName uuid _ [Hs Hh Hc Hcl] _ Hlen.
    unfold joined. rewrite (proj2 (Nat.leb_gt _ _)) by lia.
    split; unfold ids in *; cbn; rewrite ?fmap_app, ?length_app; cbn.
    + lia.
    + apply elem_of_app. by left.
    + done.
    + intros client H. apply elem_of_app. left. by apply Hcl.
  - intros c l ws playerId _ [Hs Hh Hc Hcl] Hin. split; cbn; try done.
    intros client [H|H%list_elem_of_singleton]%elem_of_app; [by apply Hcl|by subst].
  - intros c l env h playerId _ [Hs Hh Hc Hcl].
    destruct (readied_roster env h playerId l) as (Hi & Hl & Hho & Hco & Hcli).
    split; rewrite ?Hi, ?Hl, ?Hho, ?Hco, ?Hcli; done.
  - intros c l playerId direction _ [Hs Hh Hc Hcl].
    destruct (moved_roster playerId direction l) as (Hp & Hho & Hco & Hcli).
    split; unfold ids; rewrite ?Hp, ?Hho, ?Hco, ?Hcli; done.
  - intros c l playerId l' _ [Hs Hh Hc Hcl]. unfold departed.
    destruct (list_find _ _) as [[i p]|] eqn:Hf; [|intros [= <-]; by split].
    apply list_find_Some in Hf as (Hi & Hp & _).
    cbn zeta. cbn [Lobby.players Lobby.setClients Lobby.setPlayers].
    assert (length (delete i (Lobby.players l)) = length (Lobby.players l) - 1) as Hlen
      by (apply length_delete; eauto).
    assert (∀ client,
              client ∈ filter (λ c, Client.playerId c ≠ playerId) (Lobby.clients l) →
              Client.playerId client ∈ Player.id <$> delete i (Lobby.players l)) as Hcl'.
    { intros client [Hne Hin]%list_elem_of_filter.
      eapply ids_delete_other; [done | congruence | by apply Hcl]. }
    case_bool_decide as Hhost.
    + destruct (delete i (Lobby.players l)) as [|first rest] eqn:E; [done|]. intros [= <-].
      match goal with |- roster_ok _ (finished ?l2) =>
        destruct (finished_roster l2) as (Hi2 & Hl2 & Hho & Hco & Hcli) end.
      split; rewrite ?Hi2, ?Hl2, ?Hho, ?Hco, ?Hcli; unfold ids; cbn; rewrite ?E; cbn.
      * cbn in Hlen. lia.
      * by left.
      * done.
      * done.
    + intros [= <-].
      match goal with |- roster_ok _ (finished ?l2) =>
        destruct (finished_roster l2) as (Hi2 & Hl2 & Hho & Hco & Hcli) end.
      assert (Lobby.host l ∈ Player.id <$> delete i (Lobby.players l)) as Hh'
        by (eapply ids_delete_other; [done | congruence | done]).
      split; rewrite ?Hi2, ?Hl2, ?Hho, ?Hco, ?Hcli; unfold ids; cbn; try done.
      assert (1 ≤ length (delete i (Lobby.players l))); [|lia].
      destruct (delete i (Lobby.players l)); [by apply elem_of_nil in Hh'|cbn; lia].
  - intros c l env _ [Hs Hh Hc Hcl].
    destruct (ticked_roster env l) as (Hi & Hl & Hho & Hco & Hcli).
    split; rewrite ?Hi, ?Hl, ?Hho, ?Hco, ?Hcli; done.
Qed.

(** ** The score board *)

Lemma zeroScores_lookup_other (players : list Player.t) (scores : gmap string Score)
    (i : string) :
  i ∉ Player.id <$> players → zeroScores players scores !! i = scores !! i.
Proof.
  unfold zeroScores. revert scores.
  induction players as [|p ps IH]; intros scores Hi; [done|].
  cbn in *. apply not_elem_of_cons in Hi as [Hne Hi].
  rewrite IH by done. by rewrite lookup_insert_ne.
Qed.

Lemma scores_ok_ended (l : Lobby.t) : scores_ok l → scores_ok (endedLobby l).
Proof. intros [Hr Hp]. split; [exact Hr | done]. Qed.

Lemma reachable_scores (w : World) (c : string) (l : Lobby.t) :
  reachable w → lobbies w !! c = Some l → scores_ok l.
Proof.
  revert w c l. apply (reachable_lobby_invariant (λ _, scores_ok)).
  - intros c hostName uuid _. split; cbn; [|done].
    intros i s. by rewrite lookup_empty.
  - intros c l playerName uuid _ [Hr Hp] _ Hlen.
    unfold joined. rewrite (proj2 (Nat.leb_gt _ _)) by lia.
    split; unfold ids; cbn.
    + intros i s. destruct (decide ("player-" +:+ uuid = i)) as [<-|Hne].
      * rewrite lookup_insert_eq. intros [= <-]. exists 0%Z. split; [done | lia].
      * rewrite lookup_insert_ne by done. apply Hr.
    + intros Hs i n. destruct (decide ("player-" +:+ uuid = i)) as [<-|Hne].
      * rewrite lookup_insert_eq. intros _ [= <-]. lia.
      * rewrite lookup_insert_ne, fmap_app by done.
        intros [Hi|Hi%list_elem_of_singleton]%elem_of_app; [by apply Hp|done].
  - intros c l ws playerId _ [Hr Hp] _. by split.
  - intros c l env h playerId _ [Hr Hp].
    assert (Player.id <$> updateFirst (hasId playerId) (Player.setReady true) (Lobby.players l)
            = ids l) as Hids by (by apply fmap_updateFirst).
    unfold readied. cbn zeta.
    set (players' := updateFirst (hasId playerId) (Player.setReady true) (Lobby.players l))
      in *.
    destruct (_ && _).
    + split; unfold ids; cbn -[zeroScores].
      * intros i s. destruct (decide (i ∈ Player.id <$> players')) as [Hi|Hi].
        -- rewrite zeroScores_lookup by done.
           intros [= <-]. exists 0%Z. split; [done | lia].
        -- rewrite zeroScores_lookup_other by done. apply Hr.
      * intros _ i n Hi. rewrite zeroScores_lookup by done.
        intros [= <-]. lia.
    + split; unfold ids; cbn; rewrite ?Hids; done.
  - intros c l playerId direction _ [Hr Hp].
    unfold moved. destruct (bool_decide _); [|done]. destruct (find _ _); by split.
  - intros c l playerId l' _ [Hr Hp]. unfold departed.
    destruct (list_find _ _) as [[i p]|] eqn:Hf; [|intros [= <-]; by split].
    cbn zeta. cbn [Lobby.players Lobby.setClients Lobby.setPlayers].
    assert (∀ l2, GameState.scores (Lobby.gameState l2) = GameState.scores (Lobby.gameState l) →
                  scores_ok (finished l2)) as Hfin.
    { intros l2 Hsc. unfold finished. case_bool_decide as Hs.
      - split; cbn; [by rewrite Hsc | done].
      - split; [by rewrite Hsc | done]. }
    destruct (bool_decide (Lobby.host l = playerId)); [destruct (delete i _); [done|]|];
      intros [= <-]; by apply Hfin.
  - intros c l env Hlok [Hr Hp]. unfold ticked. case_bool_decide as Hs; [|by split].
    cbn zeta. destruct (scoringSide _) as [side|]; [|by split].
    destruct (find _ _) as [player|] eqn:Hf; [|by split].
    pose proof (find_atSide_id _ _ _ Hf) as Hj. set (j := Player.id player) in *.
    destruct (ok_scores _ Hlok Hs _ Hj) as [n Hn].
    pose proof (Hp Hs _ _ Hj Hn) as Hlt.
    destruct (Hr _ _ Hn) as (n' & [= <-] & Hge).
    assert (increment j (GameState.scores (Lobby.gameState l))
            = <[j := Int (n + 1)]> (GameState.scores (Lobby.gameState l))) as Hinc
      by (unfold increment; by rewrite Hn).
    rewrite Hinc, lookup_insert_eq, (truthy_id l j Hlok Hj). cbn.
    assert (∀ i s, <[j := Int (n + 1)]> (GameState.scores (Lobby.gameState l)) !! i = Some s →
                   ∃ m, s = Int m ∧ (0 ≤ m ≤ 10)%Z) as Hr'.
    { intros i s. destruct (decide (j = i)) as [<-|Hne].
      - rewrite lookup_insert_eq. intros [= <-]. exists (n + 1)%Z. split; [done | lia].
      - rewrite lookup_insert_ne by done. apply Hr. }
    destruct (Z.leb_spec 10 (n + 1)) as [Hten|Hten].
    + split; cbn; [exact Hr' | done].
    + split; cbn; [exact Hr'|].
      intros _ i m Hi. destruct (decide (j = i)) as [<-|Hne].
      * rewrite lookup_insert_eq. intros [= <-]. lia.
      * rewrite lookup_insert_ne by done. by apply Hp.
Qed.

(** ** The phases *)

Lemma reachable_phase (w : World) (c : string) (l : Lobby.t) :
  reachable w → lobbies w !! c = Some l → phase_ok l.
Proof.
  revert w c l. apply (reachable_lobby_invariant (λ _, phase_ok)).
  - intros c hostName uuid _. by split.
  - intros c l playerName uuid _ [Hp Hw] _ Hlen.
    unfold joined. rewrite (proj2 (Nat.leb_gt _ _)) by lia. by split.
  - intros c l ws playerId _ [Hp Hw] _. by split.
  - intros c l env h playerId _ [Hp Hw]. unfold readied. cbn zeta.
    destruct (_ && _); split; cbn; eauto; done.
  - intros c l playerId direction Hlok [Hp Hw]. unfold moved.
    case_bool_decide as Hs; [|by split]. destruct (find _ _); [|by split].
    split; cbn; [exact Hp|]. intros Hs'. unfold Lobby.status in Hs. congruence.
  - intros c l playerId l' _ [Hp Hw]. unfold departed.
    destruct (list_find _ _) as [[i p]|] eqn:Hf; [|intros [= <-]; by split].
    cbn zeta. cbn [Lobby.players Lobby.setClients Lobby.setPlayers]. unfold finished.
    destruct (bool_decide (Lobby.host l = playerId)); [destruct (delete i _); [done|]|];
      intros [= <-]; case_bool_decide as Hs; by split.
  - intros c l env _ [Hp Hw]. unfold ticked. case_bool_decide as Hs; [|by split].
    cbn zeta.
    assert (Lobby.status l ≠ WAITING) as Hnw by (by rewrite Hs).
    destruct (scoringSide _) as [side|]; [|by split].
    destruct (find _ _) as [player|]; [|by split].
    destruct (_ && _); by split.
Qed.

(** X1. In every reachable world a live lobby has between one and four
    players, its host is one of them, and it is registered under its own
    code: a lobby never outlives its last player and never grows past the
    limit of the join endpoint. *)
Theorem lobby_has_one_to_four_players (w : World) (c : string) (l : Lobby.t) :
  reachable w →
  lobbies w !! c = Some l →
  1 ≤ length (Lobby.players l) ≤ 4 ∧ Lobby.host l ∈ ids l ∧ Lobby.code l = c.
Proof. intros Hr Hl. destruct (reachable_roster w c l Hr Hl). done. Qed.

Lemma lobby_has_one_to_four_players_witness :
  (reachable (run threeReady)
   ∧ lobbies (run threeReady) !! "ABCD" = Some (lobbyAt "ABCD" (run threeReady)))
  ∧ 1 ≤ length (Lobby.players (lobbyAt "ABCD" (run threeReady))) ≤ 4
  ∧ Lobby.host (lobbyAt "ABCD" (run threeReady)) ∈ ids (lobbyAt "ABCD" (run threeReady))
  ∧ Lobby.code (lobbyAt "ABCD" (run threeReady)) = "ABCD".
Proof.
  assert (reachable (run threeReady)) as H1 by (by exists threeReady).
  assert (lobbies (run threeReady) !! "ABCD" = Some (lobbyAt "ABCD" (run threeReady)))
    as H2 by (vm_compute; reflexivity).
  split; [exact (conj H1 H2)|].
  exact (lobby_has_one_to_four_players _ "ABCD" _ H1 H2).
Defined.

(** X2. In every reachable world each channel attached to a lobby is bound
    to a current player of that lobby; and once [handlePlayerLeave] has run
    for a player id, no channel of the lobby is bound to that id any more, so
    no later broadcast reaches the player who left. *)
Theorem channels_belong_to_current_players (w : World) (c playerId : string) (l : Lobby.t) :
  reachable w →
  lobbies w !! c = Some l →
  (∀ client, client ∈ Lobby.clients l → Client.playerId client ∈ ids l)
  ∧ (∀ l' client,
       lobbies (handlePlayerLeave c playerId w) !! c = Some l' →
       client ∈ Lobby.clients l' → Client.playerId client ≠ playerId).
Proof.
  intros Hr Hl. pose proof (roster_clients _ _ (reachable_roster w c l Hr Hl)) as Hcl.
  split; [exact Hcl|]. intros l' client.
  rewrite lookup_handlePlayerLeave, decide_True, Hl by done. cbn. unfold departed.
  destruct (list_find _ _) as [[i p]|] eqn:Hf.
  - cbn zeta. cbn [Lobby.players Lobby.setClients Lobby.setPlayers].
    assert (∀ l2, client ∈ Lobby.clients (finished l2) → client ∈ Lobby.clients l2) as Hfin.
    { intros l2. by destruct (finished_roster l2) as (_ & _ & _ & _ & ->). }
    destruct (bool_decide (Lobby.host l = playerId)); [destruct (delete i _); [done|]|];
      intros [= <-] Hin%Hfin; cbn in Hin; by apply list_elem_of_filter in Hin as [? _].
  - intros [= <-] Hin Heq. apply list_find_id_None in Hf. apply Hf.
    rewrite <- Heq. by apply Hcl.
Qed.

Lemma channels_belong_to_current_players_witness :
  (reachable (run threeReady)
   ∧ lobbies (run threeReady) !! "ABCD" = Some (lobbyAt "ABCD" (run threeReady)))
  ∧ (∀ client, client ∈ Lobby.clients (lobbyAt "ABCD" (run threeReady)) →
       Client.playerId client ∈ ids (lobbyAt "ABCD" (run threeReady)))
  ∧ (∀ l' client,
       lobbies (handlePlayerLeave "ABCD" "player-c" (run threeReady)) !! "ABCD" = Some l' →
       client ∈ Lobby.clients l' → Client.playerId client ≠ "player-c").
Proof.
  assert (reachable (run threeReady)) as H1 by (by exists threeReady).
  assert (lobbies (run threeReady) !! "ABCD" = Some (lobbyAt "ABCD" (run threeReady)))
    as H2 by (vm_compute; reflexivity).
  split; [exact (conj H1 H2)|].
  exact (channels_belong_to_current_players _ "ABCD" "player-c" _ H1 H2).
Defined.

(** X3. In every reachable world each entry of [scores] is an integer from
    0 to 10 (the [NaN] of an increment on a missing entry never arises), and
    while the lobby is PLAYING every current player has an entry, below 10. *)
Theorem scores_are_integers_up_to_ten (w : World) (c : string) (l : Lobby.t) :
  reachable w →
  lobbies w !! c = Some l →
  (∀ i s, GameState.scores (Lobby.gameState l) !! i = Some s →
     ∃ n, s = Int n ∧ (0 ≤ n ≤ 10)%Z)
  ∧ (Lobby.status l = PLAYING →
     ∀ i, i ∈ ids l →
       ∃ n, GameState.scores (Lobby.gameState l) !! i = Some (Int n) ∧ (0 ≤ n < 10)%Z).
Proof.
  intros Hr Hl. destruct (reachable_scores w c l Hr Hl) as [Hrange Hplay].
  split; [exact Hrange|]. intros Hs i Hi.
  destruct (ok_scores _ (ok_lobbies _ (reachable_ok _ Hr) _ _ Hl) Hs i Hi) as [n Hn].
  exists n. split; [done|]. destruct (Hrange _ _ Hn) as (m & [= <-] & ?).
  specialize (Hplay Hs _ _ Hi Hn). lia.
Qed.

Lemma scores_are_integers_up_to_ten_witness :
  (reachable (run hundredTicks)
   ∧ lobbies (run hundredTicks) !! "ABCD" = Some (lobbyAt "ABCD" (run hundredTicks)))
  ∧ (∀ i s,
       GameState.scores (Lobby.gameState (lobbyAt "ABCD" (run hundredTicks))) !! i = Some s →
       ∃ n, s = Int n ∧ (0 ≤ n ≤ 10)%Z).
Proof.
  assert (reachable (run hundredTicks)) as H1 by (by exists hundredTicks).
  assert (lobbies (run hundredTicks) !! "ABCD" = Some (lobbyAt "ABCD" (run hundredTicks)))
    as H2 by (vm_compute; reflexivity).
  split; [exact (conj H1 H2)|].
  exact (proj1 (scores_are_integers_up_to_ten _ "ABCD" _ H1 H2)).
Defined.

(** X4. In every reachable world a PLAYING lobby has exactly one active tick
    timer: its handle is registered in the lobby, the timer is active and
    fires for this lobby's code, and no other active timer fires for it. *)
Theorem PLAYING_lobby_has_one_timer (w : World) (c : string) (l : Lobby.t) :
  reachable w →
  lobbies w !! c = Some l →
  Lobby.status l = PLAYING →
  ∃ h, Lobby.gameLoopInterval l = Some h
       ∧ intervals w !! h = Some c
       ∧ ∀ h', intervals w !! h' = Some c → h' = h.
Proof.
  intros Hr Hl Hs. pose proof (reachable_ok _ Hr) as Hok.
  destruct (phase_playing _ (reachable_phase w c l Hr Hl) Hs) as [h Hh].
  exists h. split; [done|]. split; [by eapply ok_timer_active|].
  intros h' Hh'. apply (ok_timer_owner _ Hok) in Hh' as (_ & l0 & Hl0 & Hg). congruence.
Qed.

Lemma PLAYING_lobby_has_one_timer_witness :
  (reachable (run threeReady)
   ∧ lobbies (run threeReady) !! "ABCD" = Some (lobbyAt "ABCD" (run threeReady))
   ∧ Lobby.status (lobbyAt "ABCD" (run threeReady)) = PLAYING)
  ∧ ∃ h, Lobby.gameLoopInterval (lobbyAt "ABCD" (run threeReady)) = Some h
         ∧ intervals (run threeReady) !! h = Some "ABCD"
         ∧ ∀ h', intervals (run threeReady) !! h' = Some "ABCD" → h' = h.
Proof.
  assert (reachable (run threeReady)) as H1 by (by exists threeReady).
  assert (lobbies (run threeReady) !! "ABCD" = Some (lobbyAt "ABCD" (run threeReady)))
    as H2 by (vm_compute; reflexivity).
  assert (Lobby.status (lobbyAt "ABCD" (run threeReady)) = PLAYING)
    as H3 by (vm_compute; reflexivity).
  split; [exact (conj H1 (conj H2 H3))|].
  exact (PLAYING_lobby_has_one_timer _ "ABCD" _ H1 H2 H3).
Defined.

(** X5. In every reachable world a WAITING lobby has never played: it has
    no paddles and its ball rests in the centre with velocity (0, 0); the
    paddles exist only from the first start on. *)
Theorem WAITING_lobby_has_never_played (w : World) (c : string) (l : Lobby.t) :
  reachable w →
  lobbies w !! c = Some l →
  Lobby.status l = WAITING →
  GameState.paddles (Lobby.gameState l) = []
  ∧ GameState.ball (Lobby.gameState l) = Ball.mk 300 300 0 0.
Proof. intros Hr Hl Hs. by apply (phase_waiting _ (reachable_phase w c l Hr Hl)). Qed.

Lemma WAITING_lobby_has_never_played_witness :
  (reachable (run aliceReady)
   ∧ lobbies (run aliceReady) !! "ABCD" = Some (lobbyAt "ABCD" (run aliceReady))
   ∧ Lobby.status (lobbyAt "ABCD" (run aliceReady)) = WAITING)
  ∧ GameState.paddles (Lobby.gameState (lobbyAt "ABCD" (run aliceReady))) = []
  ∧ GameState.ball (Lobby.gameState (lobbyAt "ABCD" (run aliceReady))) = Ball.mk 300 300 0 0.
Proof.
  assert (reachable (run aliceReady)) as H1 by (by exists aliceReady).
  assert (lobbies (run aliceReady) !! "ABCD" = Some (lobbyAt "ABCD" (run aliceReady)))
    as H2 by (vm_compute; reflexivity).
  assert (Lobby.status (lobbyAt "ABCD" (run aliceReady)) = WAITING)
    as H3 by (vm_compute; reflexivity).
  split; [exact (conj H1 (conj H2 H3))|].
  exact (WAITING_lobby_has_never_played _ "ABCD" _ H1 H2 H3).
Defined.

(** ** One step of the event loop on one lobby *)

Section StepRelation.
Context (R : Lobby.t → Lobby.t → Prop).
Context (R_refl : ∀ l, R l l).
Context (R_joined : ∀ l playerName uuid, R l (joined playerName uuid l)).
Context (R_connected : ∀ l ws playerId, R l (connected ws playerId l)).
Context (R_readied : ∀ l env h playerId, R l (readied env h playerId l)).
Context (R_moved : ∀ l playerId direction, R l (moved playerId direction l)).
Context (R_departed : ∀ l playerId l', departed playerId l = Some l' → R l l').
Context (R_ticked : ∀ l env, R l (ticked env l)).

Lemma step_lobby_relation w e c l l' :
  lobbies w !! c = Some l → lobbies (step w e) !! c = Some l' → R l l'.
Proof.
  intros Hl.
  assert (lobbies w !! c = Some l' → R l l') as Hsame
    by (rewrite Hl; intros [= <-]; apply R_refl).
  assert (∀ playerId w0, lobbies w0 = lobbies w →
            lobbies (handlePlayerLeave c playerId w0) !! c = Some l' → R l l') as Hleave.
  { intros playerId w0 Hw0. rewrite lookup_handlePlayerLeave, decide_True, Hw0, Hl by done.
    cbn. apply R_departed. }
  destruct e as [hostName codes uuid|c0 playerName uuid|c0 playerId|ws data env|ws|ws|h env];
    cbn [step].
  - destruct (createLobby _ _ _ _) as [[w' r]|] eqn:E; [|done].
    rewrite (lookup_createLobby _ _ _ _ _ _ _ _ E Hl). intros [= <-]. apply R_refl.
  - destruct (joinLobby_cases w c0 playerName uuid)
      as [(st & msg & ->)|(l0 & _ & Hn & Hl0 & Hlen & ->)]; [done|].
    cbn [fst]. rewrite lobbies_broadcastToLobby. cbn.
    destruct (decide (c0 = c)) as [->|Hne].
    + rewrite lookup_insert_eq. intros [= <-]. rewrite Hl in Hl0. injection Hl0 as <-.
      apply R_joined.
    + by rewrite lookup_insert_ne.
  - destruct (connection_cases w c0 playerId) as [->|(l0 & _ & _ & Hl0 & Hin & ->)]; [done|].
    cbn. destruct (decide (c0 = c)) as [->|Hne].
    + rewrite lookup_insert_eq. intros [= <-]. rewrite Hl in Hl0. injection Hl0 as <-.
      apply R_connected.
    + by rewrite lookup_insert_ne.
  - destruct (bindings w !! ws) as [[c0 playerId]|]; [|done].
    destruct data as [|direction| | |]; cbn [onMessage]; try done.
    + rewrite lookup_handlePlayerReady. case_decide; [|done].
      rewrite Hl. cbn. intros [= <-]. apply R_readied.
    + rewrite lookup_handleMovePaddle. case_decide; [|done].
      rewrite Hl. cbn. intros [= <-]. apply R_moved.
    + destruct (decide (c0 = c)) as [->|Hne]; [by apply Hleave|].
      by rewrite lookup_handlePlayerLeave, decide_False.
  - done.
  - destruct (bindings w !! ws) as [[c0 playerId]|]; [|done].
    destruct (decide (c0 = c)) as [->|Hne]; [by apply Hleave|].
    by rewrite lookup_handlePlayerLeave, decide_False.
  - destruct (intervals w !! h) as [c0|]; [|done].
    rewrite lookup_tick. case_decide; [|done].
    rewrite Hl. cbn. intros [= <-]. apply R_ticked.
Qed.

End StepRelation.

(** X6. The status only moves forward within one event: a lobby that is
    WAITING after an event was WAITING before it (a lobby that has played
    never waits again), and a lobby that is GAME_OVER after an event was not
    WAITING before it (a game ends only from PLAYING). *)
Theorem status_never_returns_to_WAITING (w : World) (e : Event) (c : string)
    (l l' : Lobby.t) :
  lobbies w !! c = Some l →
  lobbies (step w e) !! c = Some l' →
  (Lobby.status l' = WAITING → Lobby.status l = WAITING)
  ∧ (Lobby.status l' = GAME_OVER → Lobby.status l ≠ WAITING).
Proof.
  apply (step_lobby_relation
           (λ l l', (Lobby.status l' = WAITING → Lobby.status l = WAITING)
                    ∧ (Lobby.status l' = GAME_OVER → Lobby.status l ≠ WAITING)));
    unfold Lobby.status.
  - intros l0. split; [done | congruence].
  - intros l0 playerName uuid. unfold joined. destruct (4 <=? _); split; cbn; congruence.
  - intros l0 ws playerId. split; cbn; congruence.
  - intros l0 env h playerId. unfold readied. cbn zeta.
    destruct (_ && _); split; cbn; congruence.
  - intros l0 playerId direction. unfold moved, Lobby.status.
    destruct (bool_decide _); [destruct (find _ _)|]; split; cbn; congruence.
  - intros l0 playerId l1. unfold departed.
    destruct (list_find _ _) as [[i p]|]; [|intros [= <-]; split; congruence].
    cbn zeta. cbn [Lobby.players Lobby.setClients Lobby.setPlayers].
    unfold finished, Lobby.status.
    destruct (bool_decide (Lobby.host l0 = playerId)); [destruct (delete i _); [done|]|];
      intros [= <-]; case_bool_decide as Hs; cbn in *; split; congruence.
  - intros l0 env. unfold ticked, Lobby.status. case_bool_decide as Hs; [|split; congruence].
    cbn zeta.
    destruct (scoringSide _); [destruct (find _ _); [destruct (_ && _)|]|];
      split; cbn; congruence.
Qed.

Lemma status_never_returns_to_WAITING_witness :
  (lobbies (run threeReady) !! "ABCD" = Some (lobbyAt "ABCD" (run threeReady))
   ∧ lobbies (step (run threeReady) (EvMessage 2 LEAVE_LOBBY env0)) !! "ABCD"
     = Some (lobbyAt "ABCD" (run carolLeaves)))
  ∧ (Lobby.status (lobbyAt "ABCD" (run carolLeaves)) = WAITING →
     Lobby.status (lobbyAt "ABCD" (run threeReady)) = WAITING)
  ∧ (Lobby.status (lobbyAt "ABCD" (run carolLeaves)) = GAME_OVER →
     Lobby.status (lobbyAt "ABCD" (run threeReady)) ≠ WAITING).
Proof.
  assert (lobbies (run threeReady) !! "ABCD" = Some (lobbyAt "ABCD" (run threeReady)))
    as H1 by (vm_compute; reflexivity).
  assert (lobbies (step (run threeReady) (EvMessage 2 LEAVE_LOBBY env0)) !! "ABCD"
          = Some (lobbyAt "ABCD" (run carolLeaves)))
    as H2 by (vm_compute; reflexivity).
  split; [exact (conj H1 H2)|].
  exact (status_never_returns_to_WAITING _ _ "ABCD" _ _ H1 H2).
Defined.

(** ** The admission endpoints, case by case *)

(** X7. The join endpoint answers [Joined] exactly when the code and the name
    are non-empty and the code names a live lobby with fewer than four
    players.  Otherwise it answers 400 (a field is missing), 404 (no such
    lobby) or 400 (the lobby is full), and the world is the one it was given:
    no player is added and nothing is sent. *)
Theorem joinLobby_succeeds_iff (w : World) (c playerName uuid : string) :
  ((joinLobby c playerName uuid w).2 = Joined ("player-" +:+ uuid) c
   ↔ c ≠ "" ∧ playerName ≠ "" ∧ ∃ l, lobbies w !! c = Some l ∧ length (Lobby.players l) < 4)
  ∧ (c = "" ∨ playerName = "" →
     joinLobby c playerName uuid w = (w, Error 400 "Lobby code and player name are required"))
  ∧ (c ≠ "" → playerName ≠ "" → lobbies w !! c = None →
     joinLobby c playerName uuid w = (w, Error 404 "Lobby not found"))
  ∧ (∀ l, c ≠ "" → playerName ≠ "" → lobbies w !! c = Some l →
          4 ≤ length (Lobby.players l) →
          joinLobby c playerName uuid w = (w, Error 400 "Lobby is full")).
Proof.
  split; [|split; [|split]].
  - unfold joinLobby. case_bool_decide as Hc; [cbn; split; [done | tauto]|].
    case_bool_decide as Hn; [cbn; split; [done | tauto]|]. cbn [orb].
    destruct (lobbies w !! c) as [l|] eqn:Hl; [|cbn; split; [done | by intros (_ & _ & ? & ? & _)]].
    destruct (Nat.leb_spec 4 (length (Lobby.players l))) as [Hfull|Hroom]; cbn.
    + split; [done|]. intros (_ & _ & l0 & [= <-] & ?). lia.
    + split; [|done]. intros _. eauto.
  - intros H. unfold joinLobby.
    destruct H as [-> | ->]; [done|]. by destruct (bool_decide (c = "")).
  - intros Hc Hn Hl. unfold joinLobby. rewrite !bool_decide_eq_false_2 by done. cbn [orb].
    by rewrite Hl.
  - intros l Hc Hn Hl Hfull. unfold joinLobby. rewrite !bool_decide_eq_false_2 by done.
    cbn [orb]. rewrite Hl. by rewrite (proj2 (Nat.leb_le _ _)).
Qed.

Lemma find_first {A} (f : A → bool) (before after : list A) (a : A) :
  Forall (λ b, f b = false) before → f a = true →
  find f (before ++ a :: after) = Some a.
Proof.
  intros Hb Ha. induction Hb as [|b before Hfb _ IH]; cbn; [by rewrite Ha|].
  by rewrite Hfb.
Qed.

Lemma find_None_iff {A} (f : A → bool) (l : list A) :
  find f l = None ↔ Forall (λ b, f b = false) l.
Proof.
  induction l as [|b l IH]; cbn; [by split|]. destruct (f b) eqn:E.
  - split; [done|]. intros H. apply Forall_cons in H as [H _]. congruence.
  - rewrite IH. split; [by constructor|]. by intros [_ H]%Forall_cons.
Qed.

(** X8. The create endpoint answers as soon as a candidate code is free.
    An empty host name is answered by 400 and changes nothing.  With a
    non-empty host name, if the codes drawn are [before], then [c], then
    [after], every code of [before] names a live lobby and [c] does not, the
    endpoint answers with [c] and the new host id, registers the new lobby
    under [c], leaves the lobbies that were there untouched, sends nothing
    and sets no timer.  The loop goes on drawing (no answer from the codes
    given) exactly when the host name is not empty and every code drawn
    names a live lobby. *)
Theorem createLobby_takes_first_free_code (w : World) (hostName : string)
    (codes : list string) (uuid : string) :
  (hostName = "" →
   createLobby hostName codes uuid w = Some (w, Error 400 "Host name is required"))
  ∧ (hostName ≠ "" →
     ∀ before c after,
       codes = before ++ c :: after →
       (∀ c', c' ∈ before → is_Some (lobbies w !! c')) →
       lobbies w !! c = None →
       ∃ w',
         createLobby hostName codes uuid w = Some (w', Created c ("player-" +:+ uuid))
         ∧ lobbies w' !! c = Some (createdLobby c hostName uuid)
         ∧ (∀ c', c' ≠ c → lobbies w' !! c' = lobbies w !! c')
         ∧ sent w' = sent w ∧ intervals w' = intervals w)
  ∧ (createLobby hostName codes uuid w = None
     ↔ hostName ≠ "" ∧ ∀ c', c' ∈ codes → is_Some (lobbies w !! c')).
Proof.
  assert (∀ cs : list string,
            Forall (λ c', bool_decide (lobbies w !! c' = None) = false) cs
            ↔ ∀ c', c' ∈ cs → is_Some (lobbies w !! c')) as Hlive.
  { intros cs. rewrite Forall_forall. apply forall_proper. intros c'.
    by rewrite bool_decide_eq_false, not_eq_None_Some. }
  split; [|split].
  - intros ->. done.
  - intros Hn before c after -> Hb Hc. unfold createLobby.
    rewrite bool_decide_eq_false_2 by done.
    rewrite (find_first _ before after c);
      [|by apply Hlive|by apply bool_decide_eq_true].
    eexists. split; [done|]. cbn.
    split; [apply lookup_insert_eq|]. split; [|done].
    intros c' Hne. by rewrite lookup_insert_ne.
  - unfold createLobby. case_bool_decide as Hn.
    + split; [done|]. by intros [? _].
    + rewrite <- Hlive, <- find_None_iff. destruct (find _ codes); split; try done.
      by intros [_ ?].
Qed.

Lemma createLobby_takes_first_free_code_witness :
  ("Bob" ≠ ""
   ∧ (∀ c', c' ∈ ["ABCD"] → is_Some (lobbies (run threeReady) !! c'))
   ∧ lobbies (run threeReady) !! "EFGH" = None)
  ∧ ∃ w',
      createLobby "Bob" ["ABCD"; "EFGH"; "IJKL"] "b" (run threeReady)
      = Some (w', Created "EFGH" "player-b")
      ∧ lobbies w' !! "EFGH" = Some (createdLobby "EFGH" "Bob" "b")
      ∧ (∀ c', c' ≠ "EFGH" → lobbies w' !! c' = lobbies (run threeReady) !! c')
      ∧ sent w' = sent (run threeReady) ∧ intervals w' = intervals (run threeReady).
Proof.
  assert ("Bob" ≠ "") as H1 by discriminate.
  assert (∀ c', c' ∈ ["ABCD"] → is_Some (lobbies (run threeReady) !! c')) as H2.
  { intros c' ->%list_elem_of_singleton. vm_compute. eauto. }
  assert (lobbies (run threeReady) !! "EFGH" = None) as H3 by (vm_compute; reflexivity).
  split; [exact (conj H1 (conj H2 H3))|].
  exact (proj1 (proj2 (createLobby_takes_first_free_code (run threeReady) "Bob"
                         ["ABCD"; "EFGH"; "IJKL"] "b"))
           H1 ["ABCD"] "EFGH" ["IJKL"] eq_refl H2 H3).
Defined.

(** X9. A channel is attached only for a current player of a live lobby.
    [connection] leaves the world as it is exactly when the code or the
    player id is empty, or the lobby is unknown, or the id is not one of
    its players.  Otherwise the new socket is open, bound to that lobby and
    player, appended to the lobby's channels, and it receives one message:
    the current game state; no other socket receives anything. *)
Theorem connection_attaches_only_members (w : World) (c playerId : string) :
  (connection c playerId w = w
   ↔ c = "" ∨ playerId = "" ∨ ∀ l, lobbies w !! c = Some l → playerId ∉ ids l)
  ∧ (∀ l, c ≠ "" → playerId ≠ "" → lobbies w !! c = Some l → playerId ∈ ids l →
       lobbies (connection c playerId w) !! c = Some (connected (nextSocket w) playerId l)
       ∧ (∀ c', c' ≠ c → lobbies (connection c playerId w) !! c' = lobbies w !! c')
       ∧ sent (connection c playerId w)
         = sent w ++ [(nextSocket w, GAME_STATE_UPDATE (Lobby.gameState l))]
       ∧ bindings (connection c playerId w) !! nextSocket w = Some (c, playerId)
       ∧ nextSocket w ∈ openSockets (connection c playerId w)
       ∧ intervals (connection c playerId w) = intervals w).
Proof.
  split.
  - split.
    + intros Hw. destruct (connection_cases w c playerId)
        as [_|(l & Hc & Hn & Hl & Hin & Heq)].
      * destruct (decide (c = "")) as [|Hc]; [by left|].
        destruct (decide (playerId = "")) as [|Hn]; [by right; left|].
        right; right. intros l Hl Hin. revert Hw. unfold connection.
        rewrite !bool_decide_eq_false_2 by done. cbn [orb]. rewrite Hl.
        destruct (list_find _ _) as [[i p]|] eqn:Hf.
        -- intros Hw. apply (f_equal nextSocket) in Hw. cbn in Hw. lia.
        -- intros _. by apply list_find_id_None in Hf.
      * rewrite Heq in Hw. apply (f_equal nextSocket) in Hw. cbn in Hw. lia.
    + intros H. unfold connection.
      destruct H as [->|[->|H]]; [done | by destruct (bool_decide (c = "")) |].
      destruct (_ || _); [done|]. destruct (lobbies w !! c) as [l|] eqn:Hl; [|done].
      specialize (H l eq_refl). apply list_find_id_None in H. by rewrite H.
  - intros l Hc Hn Hl Hin.
    destruct (connection_cases w c playerId) as [Hw|(l0 & _ & _ & Hl0 & _ & ->)].
    + exfalso. revert Hw. unfold connection.
      rewrite !bool_decide_eq_false_2 by done. cbn [orb]. rewrite Hl.
      destruct (list_find _ _) as [[i p]|] eqn:Hf.
      * intros Hw. apply (f_equal nextSocket) in Hw. cbn in Hw. lia.
      * by apply list_find_id_None in Hf.
    + rewrite Hl in Hl0. injection Hl0 as <-. cbn.
      split; [apply lookup_insert_eq|].
      split; [intros c' Hne; by rewrite lookup_insert_ne|].
      split; [done|]. split; [apply lookup_insert_eq|].
      split; [apply elem_of_union; left; by apply elem_of_singleton | done].
Qed.

(** X10. The status endpoint lists the display names of the current players
    in lobby order: after a successful join it answers the names it
    answered before followed by the name that joined.  It answers 400 for an
    empty code and 404 for a code that names no live lobby. *)
Theorem getStatus_lists_players_in_join_order (w : World) (c playerName uuid : string)
    (w' : World) (playerId : string) :
  joinLobby c playerName uuid w = (w', Joined playerId c) →
  (∃ names, getStatus c w = StatusOk c names
            ∧ getStatus c w' = StatusOk c (names ++ [playerName]))
  ∧ getStatus "" w' = StatusError 400 "Lobby code is required"
  ∧ (∀ c', c' ≠ "" → lobbies w' !! c' = None →
           getStatus c' w' = StatusError 404 "Lobby not found").
Proof.
  intros Hj. split; [|split].
  - destruct (joinLobby_cases w c playerName uuid)
      as [(st & msg & E)|(l & Hc & Hn & Hl & Hlen & E)]; rewrite E in Hj; [done|].
    injection Hj as <- _. exists (Player.name <$> Lobby.players l).
    unfold getStatus. rewrite bool_decide_eq_false_2 by done.
    rewrite Hl, lobbies_broadcastToLobby. cbn. rewrite lookup_insert_eq.
    split; [done|]. unfold joined. rewrite (proj2 (Nat.leb_gt _ _)) by lia. cbn.
    by rewrite fmap_app.
  - done.
  - intros c' Hc' Hl. unfold getStatus. rewrite bool_decide_eq_false_2 by done. by rewrite Hl.
Qed.

Lemma getStatus_lists_players_in_join_order_witness :
  joinLobby "ABCD" "Dave" "d" (run threeReady)
  = ((joinLobby "ABCD" "Dave" "d" (run threeReady)).1, Joined "player-d" "ABCD")
  ∧ getStatus "ABCD" (run threeReady) = StatusOk "ABCD" ["Alice"; "Bob"; "Carol"]
  ∧ ∃ names, getStatus "ABCD" (run threeReady) = StatusOk "ABCD" names
             ∧ getStatus "ABCD" (joinLobby "ABCD" "Dave" "d" (run threeReady)).1
               = StatusOk "ABCD" (names ++ ["Dave"]).
Proof.
  assert (joinLobby "ABCD" "Dave" "d" (run threeReady)
          = ((joinLobby "ABCD" "Dave" "d" (run threeReady)).1, Joined "player-d" "ABCD"))
    as H1 by (vm_compute; reflexivity).
  split; [exact H1|]. split; [vm_compute; reflexivity|].
  exact (proj1 (getStatus_lists_players_in_join_order _ _ _ _ _ _ H1)).
Defined.

(** ** The end of a game *)

Lemma sent_setLobby (w : World) (c : string) (l : Lobby.t) : sent (setLobby c l w) = sent w.
Proof. reflexivity. Qed.

Lemma endGame_sent (w : World) (c : string) (winnerId : option string) (l : Lobby.t) :
  lobbies w !! c = Some l →
  sent (endGame c winnerId w)
  = sent w ++ deliveries w l (GAME_OVER_MSG (winnerName winnerId l))
      ++ deliveries w l
           (GAME_STATE_UPDATE (GameState.setStatus GAME_OVER (Lobby.gameState l))).
Proof.
  intros Hl. unfold endGame. rewrite Hl.
  destruct (Lobby.gameLoopInterval l) as [h|].
  all: erewrite sent_updateGameState by apply lookup_setLobby.
  all: rewrite sent_setLobby.
  all: erewrite sent_broadcastToLobby by apply lookup_setLobby.
  all: rewrite <- app_assoc; unfold deliveries.
  all: cbn [openSockets setLobby setLobbies]; rewrite openSockets_broadcastToLobby.
  all: reflexivity.
Qed.

(** X11. In a reachable world, when a current player of a PLAYING lobby
    leaves, the game ends in the same call: the lobby stays, without that
    player, with status GAME_OVER and every remaining player not ready; its
    timer is cleared; and the remaining open channels receive, in this
    order, PLAYER_LEFT with the leaver's name, GAME_OVER with the winner
    "Unknown", and the final game state. *)
Theorem leave_during_play_ends_game (w : World) (c playerId : string) (l : Lobby.t)
    (i : nat) (p : Player.t) :
  reachable w →
  lobbies w !! c = Some l →
  Lobby.status l = PLAYING →
  list_find (λ q, Player.id q = playerId) (Lobby.players l) = Some (i, p) →
  ∃ l',
    lobbies (handlePlayerLeave c playerId w) !! c = Some l'
    ∧ Lobby.status l' = GAME_OVER
    ∧ Lobby.players l' = Player.setReady false <$> delete i (Lobby.players l)
    ∧ Lobby.clients l' = filter (λ cl, Client.playerId cl ≠ playerId) (Lobby.clients l)
    ∧ Lobby.gameLoopInterval l' = None
    ∧ (∀ h, intervals (handlePlayerLeave c playerId w) !! h ≠ Some c)
    ∧ sent (handlePlayerLeave c playerId w)
      = sent w ++ deliveries w l' (PLAYER_LEFT (Player.name p))
          ++ deliveries w l' (GAME_OVER_MSG "Unknown")
          ++ deliveries w l' (GAME_STATE_UPDATE (Lobby.gameState l')).
Proof.
  intros Hr Hl Hs Hf. pose proof (reachable_ok _ Hr) as Hok.
  pose proof (ok_lobbies _ Hok _ _ Hl) as Hlok.
  assert (2 ≤ length (Lobby.players l)) as Hlen by (by apply (ok_players _ Hlok)).
  assert (length (delete i (Lobby.players l)) = length (Lobby.players l) - 1) as Hdel.
  { apply length_delete. apply list_find_Some in Hf as (Hi & _). eauto. }
  assert (∀ l2,
            Lobby.status l2 = PLAYING →
            ∃ l', l' = endedLobby l2
              ∧ lobbies (endGame c None
                           (broadcastToLobby c (PLAYER_LEFT (Player.name p))
                              (setLobby c l2 w))) !! c = Some l'
              ∧ sent (endGame c None
                        (broadcastToLobby c (PLAYER_LEFT (Player.name p)) (setLobby c l2 w)))
                = sent w ++ deliveries w l' (PLAYER_LEFT (Player.name p))
                    ++ deliveries w l' (GAME_OVER_MSG "Unknown")
                    ++ deliveries w l' (GAME_STATE_UPDATE (Lobby.gameState l'))) as Hend.
  { intros l2 Hs2. eexists. split; [done|].
    assert (lobbies (broadcastToLobby c (PLAYER_LEFT (Player.name p)) (setLobby c l2 w)) !! c
            = Some l2) as Hl2 by (rewrite lobbies_broadcastToLobby; apply lookup_setLobby).
    rewrite (endGame_lobbies _ _ _ _ Hl2), lookup_insert_eq. split; [done|].
    rewrite (endGame_sent _ _ _ _ Hl2).
    erewrite sent_broadcastToLobby by apply lookup_setLobby.
    rewrite <- app_assoc. unfold deliveries. rewrite openSockets_broadcastToLobby.
    reflexivity. }
  assert (∀ l', lobbies (handlePlayerLeave c playerId w) !! c = Some l' →
                Lobby.status l' = GAME_OVER →
                ∀ h, intervals (handlePlayerLeave c playerId w) !! h ≠ Some c) as Htimer.
  { intros l' Hl' Hs' h Hh. pose proof (handlePlayerLeave_ok w c playerId Hok) as Hok'.
    apply (ok_timer_owner _ Hok') in Hh as (_ & l0 & Hl0 & Hg).
    rewrite Hl' in Hl0. injection Hl0 as <-.
    assert (Lobby.status l' ≠ PLAYING) as Hnp by (by rewrite Hs').
    apply (ok_handle _ (ok_lobbies _ Hok' _ _ Hl')) in Hnp. congruence. }
  revert Htimer. unfold handlePlayerLeave. rewrite Hl, Hf. cbn zeta.
  cbn [Lobby.players Lobby.setClients Lobby.setPlayers].
  destruct (bool_decide (Lobby.host l = playerId)).
  - destruct (delete i (Lobby.players l)) as [|first rest] eqn:E; [cbn in Hdel; lia|].
    rewrite bool_decide_eq_true_2 by done. intros Htimer.
    match goal with |- context [setLobby c ?l2 w] =>
      destruct (Hend l2) as (l' & -> & Hl' & Hsent); [done|] end.
    eexists. split; [exact Hl'|].
    split; [done|]. split; [done|]. split; [done|]. split; [done|].
    split; [by apply (Htimer _ Hl')|]. exact Hsent.
  - rewrite bool_decide_eq_true_2 by done. intros Htimer.
    match goal with |- context [setLobby c ?l2 w] =>
      destruct (Hend l2) as (l' & -> & Hl' & Hsent); [done|] end.
    eexists. split; [exact Hl'|].
    split; [done|]. split; [done|]. split; [done|]. split; [done|].
    split; [by apply (Htimer _ Hl')|]. exact Hsent.
Qed.

Lemma leave_during_play_ends_game_witness :
  (reachable (run threeReady)
   ∧ lobbies (run threeReady) !! "ABCD" = Some (lobbyAt "ABCD" (run threeReady))
   ∧ Lobby.status (lobbyAt "ABCD" (run threeReady)) = PLAYING
   ∧ list_find (λ q, Player.id q = "player-c") (Lobby.players (lobbyAt "ABCD" (run threeReady)))
     = Some (2, Player.mk "player-c" "Carol" true BOTTOM))
  ∧ ∃ l',
      lobbies (handlePlayerLeave "ABCD" "player-c" (run threeReady)) !! "ABCD" = Some l'
      ∧ Lobby.status l' = GAME_OVER
      ∧ Lobby.players l'
        = Player.setReady false <$> delete 2 (Lobby.players (lobbyAt "ABCD" (run threeReady))).
Proof.
  assert (reachable (run threeReady)) as H1 by (by exists threeReady).
  assert (lobbies (run threeReady) !! "ABCD" = Some (lobbyAt "ABCD" (run threeReady)))
    as H2 by (vm_compute; reflexivity).
  assert (Lobby.status (lobbyAt "ABCD" (run threeReady)) = PLAYING)
    as H3 by (vm_compute; reflexivity).
  assert (list_find (λ q, Player.id q = "player-c")
            (Lobby.players (lobbyAt "ABCD" (run threeReady)))
          = Some (2, Player.mk "player-c" "Carol" true BOTTOM))
    as H4 by (vm_compute; reflexivity).
  split; [exact (conj H1 (conj H2 (conj H3 H4)))|].
  destruct (leave_during_play_ends_game _ "ABCD" "player-c" _ _ _ H1 H2 H3 H4)
    as (l' & Hl' & Hs & Hp & _).
  exists l'. exact (conj Hl' (conj Hs Hp)).
Defined.

(** X12. In a reachable world, when the only player of a lobby leaves, the
    lobby is removed from the registry and nothing else happens: the other
    lobbies are untouched, nothing is sent, and no timer is left behind for
    the code, which is free for a later lobby. *)
Theorem last_player_leaving_destroys_lobby (w : World) (c : string) (l : Lobby.t)
    (p : Player.t) :
  reachable w →
  lobbies w !! c = Some l →
  Lobby.players l = [p] →
  lobbies (handlePlayerLeave c (Player.id p) w) = delete c (lobbies w)
  ∧ sent (handlePlayerLeave c (Player.id p) w) = sent w
  ∧ intervals (handlePlayerLeave c (Player.id p) w) = intervals w
  ∧ ∀ h, intervals w !! h ≠ Some c.
Proof.
  intros Hr Hl Hp. pose proof (reachable_ok _ Hr) as Hok.
  pose proof (ok_lobbies _ Hok _ _ Hl) as Hlok.
  assert (Lobby.host l = Player.id p) as Hhost.
  { pose proof (roster_host _ _ (reachable_roster w c l Hr Hl)) as Hh.
    unfold ids in Hh. rewrite Hp in Hh. by apply list_elem_of_singleton in Hh. }
  assert (Lobby.status l ≠ PLAYING) as Hs.
  { intros Hs. apply (ok_players _ Hlok) in Hs. rewrite Hp in Hs. cbn in Hs. lia. }
  unfold handlePlayerLeave. rewrite Hl, Hp. cbn.
  rewrite decide_True by done. cbn. rewrite bool_decide_eq_true_2 by done.
  split; [done|]. split; [done|]. split; [done|].
  intros h Hh. apply (ok_timer_owner _ Hok) in Hh as (_ & l0 & Hl0 & Hg).
  rewrite Hl in Hl0. injection Hl0 as <-.
  apply (ok_handle _ Hlok) in Hs. congruence.
Qed.

Lemma last_player_leaving_destroys_lobby_witness :
  (reachable (run [EvCreate "Alice" ["ABCD"] "a"])
   ∧ lobbies (run [EvCreate "Alice" ["ABCD"] "a"]) !! "ABCD"
     = Some (createdLobby "ABCD" "Alice" "a")
   ∧ Lobby.players (createdLobby "ABCD" "Alice" "a")
     = [Player.mk "player-a" "Alice" false TOP])
  ∧ lobbies (handlePlayerLeave "ABCD" "player-a" (run [EvCreate "Alice" ["ABCD"] "a"]))
    = delete "ABCD" (lobbies (run [EvCreate "Alice" ["ABCD"] "a"])).
Proof.
  assert (reachable (run [EvCreate "Alice" ["ABCD"] "a"])) as H1 by (by eexists).
  assert (lobbies (run [EvCreate "Alice" ["ABCD"] "a"]) !! "ABCD"
          = Some (createdLobby "ABCD" "Alice" "a")) as H2 by (vm_compute; reflexivity).
  assert (Lobby.players (createdLobby "ABCD" "Alice" "a")
          = [Player.mk "player-a" "Alice" false TOP]) as H3 by reflexivity.
  split; [exact (conj H1 (conj H2 H3))|].
  exact (proj1 (last_player_leaving_destroys_lobby _ "ABCD" _ _ H1 H2 H3)).
Defined.

(** X13. In a reachable world one tick of a PLAYING lobby gives at most one
    point: either the scores are as they were, or exactly one entry, that of
    a current player, has gone from [n] to [n + 1]. *)
Theorem tick_awards_at_most_one_point (w : World) (c : string) (env : Env) (l : Lobby.t) :
  reachable w →
  lobbies w !! c = Some l →
  Lobby.status l = PLAYING →
  ∃ l',
    lobbies (tick c env w) !! c = Some l'
    ∧ (GameState.scores (Lobby.gameState l') = GameState.scores (Lobby.gameState l)
       ∨ ∃ player n,
           player ∈ Lobby.players l
           ∧ GameState.scores (Lobby.gameState l) !! Player.id player = Some (Int n)
           ∧ GameState.scores (Lobby.gameState l')
             = <[Player.id player := Int (n + 1)]> (GameState.scores (Lobby.gameState l))).
Proof.
  intros Hr Hl Hs. pose proof (ok_lobbies _ (reachable_ok _ Hr) _ _ Hl) as Hlok.
  destruct (tick_lobbies w c env l Hl) as [-> _]. rewrite lookup_insert_eq.
  exists (ticked env l). split; [done|].
  destruct (ticked_scores env l Hs) as [[Hsc _]|(side & player & _ & Hf & Hsc & _)];
    [by left|].
  right. destruct (ok_scores _ Hlok Hs _ (find_atSide_id _ _ _ Hf)) as [n Hn].
  exists player, n. split.
  { apply find_some in Hf as [Hin _]. by apply list_elem_of_In. }
  split; [done|]. rewrite Hsc. unfold increment. by rewrite Hn.
Qed.

Lemma tick_awards_at_most_one_point_witness :
  (reachable (run hundredTicks)
   ∧ lobbies (run hundredTicks) !! "ABCD" = Some (lobbyAt "ABCD" (run hundredTicks))
   ∧ Lobby.status (lobbyAt "ABCD" (run hundredTicks)) = PLAYING)
  ∧ ∃ l', lobbies (tick "ABCD" env0 (run hundredTicks)) !! "ABCD" = Some l'.
Proof.
  assert (reachable (run hundredTicks)) as H1 by (by exists hundredTicks).
  assert (lobbies (run hundredTicks) !! "ABCD" = Some (lobbyAt "ABCD" (run hundredTicks)))
    as H2 by (vm_compute; reflexivity).
  assert (Lobby.status (lobbyAt "ABCD" (run hundredTicks)) = PLAYING)
    as H3 by (vm_compute; reflexivity).
  split; [exact (conj H1 (conj H2 H3))|].
  destruct (tick_awards_at_most_one_point _ "ABCD" env0 _ H1 H2 H3) as (l' & Hl' & _).
  exists l'. exact Hl'.
Defined.

(** X14. In a reachable world, when a tick gives a player of a PLAYING
    lobby the tenth point, the game is over within that call and the winner
    is announced by name: the open channels of the lobby receive GAME_OVER
    with the display name of the (first) player who has the scorer's id,
    then the final game state, in which that player's score is 10. *)
Theorem tenth_point_announces_winner (w : World) (c : string) (env : Env) (l : Lobby.t)
    (side : Position) (player : Player.t) :
  reachable w →
  lobbies w !! c = Some l →
  Lobby.status l = PLAYING →
  scoringSide (advance (GameState.ball (Lobby.gameState l))) = Some side →
  find (atSide side) (Lobby.players l) = Some player →
  GameState.scores (Lobby.gameState l) !! Player.id player = Some (Int 9) →
  ∃ l' winner,
    lobbies (updateBallPosition c env w) !! c = Some l'
    ∧ Lobby.status l' = GAME_OVER
    ∧ GameState.scores (Lobby.gameState l') !! Player.id player = Some (Int 10)
    ∧ find (hasId (Player.id player)) (Lobby.players l) = Some winner
    ∧ Player.id winner = Player.id player
    ∧ sent (updateBallPosition c env w)
      = sent w ++ deliveries w l (GAME_OVER_MSG (Player.name winner))
          ++ deliveries w l (GAME_STATE_UPDATE (Lobby.gameState l')).
Proof.
  intros Hr Hl Hs Hside Hf Hn. pose proof (reachable_ok _ Hr) as Hok.
  pose proof (ok_lobbies _ Hok _ _ Hl) as Hlok.
  pose proof (find_atSide_id _ _ _ Hf) as Hj.
  destruct (find (hasId (Player.id player)) (Lobby.players l)) as [winner|] eqn:Hw;
    [|by apply find_hasId_None in Hw].
  assert (Player.id winner = Player.id player) as Hid.
  { apply find_some in Hw as [_ Hw]. unfold hasId in Hw. by apply bool_decide_eq_true in Hw. }
  unfold updateBallPosition. rewrite Hl, bool_decide_eq_true_2 by done. cbn zeta.
  rewrite scoringSide_collide, Hside, Hf. unfold increment. rewrite Hn.
  rewrite lookup_insert_eq, (truthy_id l _ Hlok Hj). cbn [andb reachedTen].
  change (10 <=? 9 + 1)%Z with true. cbn iota.
  erewrite endGame_lobbies by apply lookup_setLobby.
  erewrite endGame_sent by apply lookup_setLobby.
  rewrite lobbies_setLobby, insert_insert_eq, lookup_insert_eq.
  eexists _, winner. split; [done|]. split; [done|].
  split; [cbn; apply lookup_insert_eq|]. split; [done|]. split; [done|].
  unfold winnerName. rewrite (truthy_id l _ Hlok Hj). cbn [Lobby.players Lobby.setGameState].
  by rewrite Hw.
Qed.

(** ** The start of a game *)

Lemma sent_startGameLoop (w : World) (c : string) : sent (startGameLoop c w) = sent w.
Proof.
  unfold startGameLoop. destruct (lobbies w !! c) as [l|]; [|done].
  by destruct (Lobby.gameLoopInterval l).
Qed.

Lemma setReady_ready (p : Player.t) : Player.isReady p = true → Player.setReady true p = p.
Proof. destruct p as [pid pname ready pos]. cbn. by intros ->. Qed.

Lemma updateFirst_fixed {A} (f : A → bool) (g : A → A) (l : list A) :
  Forall (λ a, g a = a) l → updateFirst f g l = l.
Proof.
  induction 1 as [|a l Ha Hl IH]; [done|]. cbn. destruct (f a); by rewrite ?Ha, ?IH.
Qed.

(** X15. The start procedure lays out the field from the player list: one
    paddle per player, in lobby order, with the player's id and side and the
    fixed geometry of that side (top and bottom 100 by 10 at x = 250, left
    and right 10 by 100 at y = 250, so each is centred on 300 along its
    axis); every current player's score is 0 and the other entries are
    kept; the ball is at (300, 300) with each velocity component 3 or -3;
    the lobby is PLAYING with a fresh timer; and GAME_START with the server
    time goes to the open channels. *)
Theorem startGame_lays_out_the_field (w : World) (c : string) (env : Env) (l : Lobby.t) :
  lobbies w !! c = Some l →
  ∃ l',
    lobbies (startGame c env w) !! c = Some l'
    ∧ Lobby.status l' = PLAYING
    ∧ Lobby.players l' = Lobby.players l
    ∧ Paddle.playerId <$> GameState.paddles (Lobby.gameState l') = ids l
    ∧ Paddle.position <$> GameState.paddles (Lobby.gameState l')
      = Player.position <$> Lobby.players l
    ∧ (∀ p, p ∈ GameState.paddles (Lobby.gameState l') →
         (Paddle.x p, Paddle.y p, Paddle.width p, Paddle.height p)
         = match Paddle.position p with
           | TOP => (250, 20, 100, 10)
           | RIGHT => (570, 250, 10, 100)
           | BOTTOM => (250, 570, 100, 10)
           | LEFT => (20, 250, 10, 100)
           end%Z)
    ∧ (∀ i, i ∈ ids l → GameState.scores (Lobby.gameState l') !! i = Some (Int 0))
    ∧ (∀ i, i ∉ ids l →
         GameState.scores (Lobby.gameState l') !! i
         = GameState.scores (Lobby.gameState l) !! i)
    ∧ GameState.ball (Lobby.gameState l')
      = Ball.mk 300 300 (randomVelocity (random1 env)) (randomVelocity (random2 env))
    ∧ Lobby.gameLoopInterval l' = Some (nextInterval w)
    ∧ intervals (startGame c env w) !! nextInterval w = Some c
    ∧ sent (startGame c env w) = sent w ++ deliveries w l (GAME_START (now env)).
Proof.
  intros Hl. exists (startedLobby env (nextInterval w) l).
  rewrite (startGame_lobbies _ _ _ _ Hl), lookup_insert_eq.
  destruct (startGame_intervals w c env l Hl) as [-> _].
  split; [done|]. split; [done|]. split; [done|]. cbn -[zeroScores].
  split. { rewrite <- list_fmap_compose. apply list_fmap_ext. intros ? p _. apply makePaddle_playerId. }
  split. { rewrite <- list_fmap_compose. apply list_fmap_ext. intros ? p _. cbn.
           unfold makePaddle. by destruct (Player.position p). }
  split. { intros p (q & -> & _)%list_elem_of_fmap. unfold makePaddle.
           by destruct (Player.position q). }
  split; [intros i Hi; by apply zeroScores_lookup|].
  split; [intros i Hi; by apply zeroScores_lookup_other|].
  split; [done|]. split; [done|]. split; [apply lookup_insert_eq|].
  unfold startGame. rewrite Hl, sent_startGameLoop.
  erewrite sent_broadcastToLobby by apply lookup_setLobby. done.
Qed.

Lemma startGame_lays_out_the_field_witness :
  lobbies (run aliceReady) !! "ABCD" = Some (lobbyAt "ABCD" (run aliceReady))
  ∧ ∃ l',
      lobbies (startGame "ABCD" env0 (run aliceReady)) !! "ABCD" = Some l'
      ∧ Lobby.status l' = PLAYING
      ∧ Paddle.playerId <$> GameState.paddles (Lobby.gameState l')
        = ids (lobbyAt "ABCD" (run aliceReady)).
Proof.
  assert (lobbies (run aliceReady) !! "ABCD" = Some (lobbyAt "ABCD" (run aliceReady)))
    as H1 by (vm_compute; reflexivity).
  split; [exact H1|].
  destruct (startGame_lays_out_the_field _ "ABCD" env0 _ H1) as (l' & Hl' & Hs & _ & Hp & _).
  exists l'. exact (conj Hl' (conj Hs Hp)).
Defined.

(** X16. [handlePlayerReady] does not look at the status.  In a reachable
    world, a PLAYER_READY that arrives while the lobby is PLAYING and all of
    its at least two players are ready starts the game over: every current
    player's score is 0 again, the ball is back in the centre, the running
    timer is cleared and a fresh one is set. *)
Theorem PLAYER_READY_in_play_restarts (w : World) (c playerId : string) (env : Env)
    (l : Lobby.t) (h : nat) :
  reachable w →
  lobbies w !! c = Some l →
  Lobby.status l = PLAYING →
  Forall (λ p, Player.isReady p = true) (Lobby.players l) →
  Lobby.gameLoopInterval l = Some h →
  lobbies (handlePlayerReady c playerId env w) !! c
  = Some (startedLobby env (nextInterval w) l)
  ∧ (∀ i, i ∈ ids l →
       GameState.scores (Lobby.gameState (startedLobby env (nextInterval w) l)) !! i
       = Some (Int 0))
  ∧ intervals (handlePlayerReady c playerId env w) !! h = None
  ∧ intervals (handlePlayerReady c playerId env w) !! nextInterval w = Some c.
Proof.
  intros Hr Hl Hs Hall Hh. pose proof (reachable_ok _ Hr) as Hok.
  pose proof (ok_lobbies _ Hok _ _ Hl) as Hlok.
  assert (updateFirst (hasId playerId) (Player.setReady true) (Lobby.players l)
          = Lobby.players l) as Hsame.
  { apply updateFirst_fixed. eapply Forall_impl; [done|]. apply setReady_ready. }
  assert (readied env (nextInterval w) playerId l = startedLobby env (nextInterval w) l)
    as Hready.
  { unfold readied. cbn zeta. cbn [Lobby.players Lobby.setPlayers]. rewrite Hsame.
    apply forallb_Forall in Hall. rewrite Hall.
    rewrite (proj2 (Nat.leb_le _ _)) by (by apply (ok_players _ Hlok)). cbn.
    by destruct l. }
  destruct (handlePlayerReady_lobbies w c playerId env l Hl) as [Hlob Hsync].
  rewrite Hlob, lookup_insert_eq, Hready. split; [done|].
  split; [intros i Hi; by apply zeroScores_lookup|].
  assert (h < nextInterval w) as Hlt.
  { pose proof (ok_timer_active _ Hok _ _ _ Hl Hh) as Hi.
    by apply (ok_timer_owner _ Hok) in Hi as [? _]. }
  rewrite Hready in Hsync. destruct Hsync as [(E & _)|[(E & _)|(_ & -> & _)]].
  - cbn in E. rewrite Hh in E. injection E as E. lia.
  - done.
  - rewrite Hh. cbn. rewrite lookup_insert_ne, lookup_delete_eq by lia.
    split; [done|]. apply lookup_insert_eq.
Qed.

Lemma PLAYER_READY_in_play_restarts_witness :
  (reachable (run hundredTicks)
   ∧ lobbies (run hundredTicks) !! "ABCD" = Some (lobbyAt "ABCD" (run hundredTicks))
   ∧ Lobby.status (lobbyAt "ABCD" (run hundredTicks)) = PLAYING
   ∧ Forall (λ p, Player.isReady p = true) (Lobby.players (lobbyAt "ABCD" (run hundredTicks)))
   ∧ Lobby.gameLoopInterval (lobbyAt "ABCD" (run hundredTicks)) = Some 0)
  ∧ lobbies (handlePlayerReady "ABCD" "player-a" env0 (run hundredTicks)) !! "ABCD"
    = Some (startedLobby env0 (nextInterval (run hundredTicks))
              (lobbyAt "ABCD" (run hundredTicks))).
Proof.
  assert (reachable (run hundredTicks)) as H1 by (by exists hundredTicks).
  assert (lobbies (run hundredTicks) !! "ABCD" = Some (lobbyAt "ABCD" (run hundredTicks)))
    as H2 by (vm_compute; reflexivity).
  assert (Lobby.status (lobbyAt "ABCD" (run hundredTicks)) = PLAYING)
    as H3 by (vm_compute; reflexivity).
  assert (Forall (λ p, Player.isReady p = true)
            (Lobby.players (lobbyAt "ABCD" (run hundredTicks))))
    as H4 by (apply forallb_Forall; vm_compute; reflexivity).
  assert (Lobby.gameLoopInterval (lobbyAt "ABCD" (run hundredTicks)) = Some 0)
    as H5 by (vm_compute; reflexivity).
  split; [exact (conj H1 (conj H2 (conj H3 (conj H4 H5))))|].
  exact (proj1 (PLAYER_READY_in_play_restarts _ "ABCD" "player-a" env0 _ _ H1 H2 H3 H4 H5)).
Defined.

(** X17. A player who joins while a game is on gets no paddle: in a
    reachable world, after a successful join of a PLAYING lobby under an id
    that no current player has, every MOVE_PADDLE of the new player is
    ignored (the world is unchanged, nothing is sent). *)
Theorem player_joining_in_play_cannot_move (w : World) (c playerName uuid : string)
    (l : Lobby.t) (w' : World) (direction : string) :
  reachable w →
  lobbies w !! c = Some l →
  Lobby.status l = PLAYING →
  ("player-" +:+ uuid) ∉ ids l →
  joinLobby c playerName uuid w = (w', Joined ("player-" +:+ uuid) c) →
  handleMovePaddle c ("player-" +:+ uuid) direction w' = w'.
Proof.
  intros Hr Hl Hs Hfresh Hj. pose proof (ok_lobbies _ (reachable_ok _ Hr) _ _ Hl) as Hlok.
  destruct (joinLobby_cases w c playerName uuid)
    as [(st & msg & E)|(l0 & _ & _ & Hl0 & Hlen & E)]; rewrite E in Hj; [done|].
  injection Hj as <-. rewrite Hl in Hl0. injection Hl0 as <-.
  unfold handleMovePaddle. rewrite lobbies_broadcastToLobby, lookup_setLobby.
  unfold joined. rewrite (proj2 (Nat.leb_gt _ _)) by lia.
  case_bool_decide as Hs'; [|done]. cbn.
  destruct (find _ _) as [p|] eqn:Hf; [|done]. exfalso. apply Hfresh.
  apply find_some in Hf as [Hin Hp]. apply list_elem_of_In in Hin.
  unfold ownedBy in Hp. apply bool_decide_eq_true in Hp as <-.
  by apply (ok_owners _ Hlok).
Qed.

Lemma player_joining_in_play_cannot_move_witness :
  (reachable (run threeReady)
   ∧ lobbies (run threeReady) !! "ABCD" = Some (lobbyAt "ABCD" (run threeReady))
   ∧ Lobby.status (lobbyAt "ABCD" (run threeReady)) = PLAYING
   ∧ (("player-" +:+ "d") ∉ ids (lobbyAt "ABCD" (run threeReady)))
   ∧ joinLobby "ABCD" "Dave" "d" (run threeReady)
     = ((joinLobby "ABCD" "Dave" "d" (run threeReady)).1, Joined ("player-" +:+ "d") "ABCD"))
  ∧ handleMovePaddle "ABCD" ("player-" +:+ "d") "UP"
      (joinLobby "ABCD" "Dave" "d" (run threeReady)).1
    = (joinLobby "ABCD" "Dave" "d" (run threeReady)).1.
Proof.
  assert (reachable (run threeReady)) as H1 by (by exists threeReady).
  assert (lobbies (run threeReady) !! "ABCD" = Some (lobbyAt "ABCD" (run threeReady)))
    as H2 by (vm_compute; reflexivity).
  assert (Lobby.status (lobbyAt "ABCD" (run threeReady)) = PLAYING)
    as H3 by (vm_compute; reflexivity).
  assert (("player-" +:+ "d") ∉ ids (lobbyAt "ABCD" (run threeReady))) as H4.
  { apply find_hasId_None. vm_compute. reflexivity. }
  assert (joinLobby "ABCD" "Dave" "d" (run threeReady)
          = ((joinLobby "ABCD" "Dave" "d" (run threeReady)).1,
             Joined ("player-" +:+ "d") "ABCD"))
    as H5 by (vm_compute; reflexivity).
  split; [exact (conj H1 (conj H2 (conj H3 (conj H4 H5))))|].
  exact (player_joining_in_play_cannot_move _ "ABCD" "Dave" "d" _ _ "UP" H1 H2 H3 H4 H5).
Defined.

Lemma tenth_point_announces_winner_witness :
  (reachable (run matchPoint)
   ∧ lobbies (run matchPoint) !! "ABCD" = Some (lobbyAt "ABCD" (run matchPoint))
   ∧ Lobby.status (lobbyAt "ABCD" (run matchPoint)) = PLAYING
   ∧ scoringSide (advance (GameState.ball (Lobby.gameState (lobbyAt "ABCD" (run matchPoint)))))
     = Some BOTTOM
   ∧ find (atSide BOTTOM) (Lobby.players (lobbyAt "ABCD" (run matchPoint)))
     = Some (Player.mk "player-c" "Carol" true BOTTOM)
   ∧ GameState.scores (Lobby.gameState (lobbyAt "ABCD" (run matchPoint))) !! "player-c"
     = Some (Int 9))
  ∧ ∃ l' winner,
      lobbies (updateBallPosition "ABCD" env0 (run matchPoint)) !! "ABCD" = Some l'
      ∧ Lobby.status l' = GAME_OVER
      ∧ GameState.scores (Lobby.gameState l') !! "player-c" = Some (Int 10)
      ∧ find (hasId "player-c") (Lobby.players (lobbyAt "ABCD" (run matchPoint)))
        = Some winner.
Proof.
  assert (reachable (run matchPoint)) as H1 by (by exists matchPoint).
  assert (lobbies (run matchPoint) !! "ABCD" = Some (lobbyAt "ABCD" (run matchPoint)))
    as H2 by (vm_compute; reflexivity).
  assert (Lobby.status (lobbyAt "ABCD" (run matchPoint)) = PLAYING)
    as H3 by (vm_compute; reflexivity).
  assert (scoringSide
            (advance (GameState.ball (Lobby.gameState (lobbyAt "ABCD" (run matchPoint)))))
          = Some BOTTOM) as H4 by (vm_compute; reflexivity).
  assert (find (atSide BOTTOM) (Lobby.players (lobbyAt "ABCD" (run matchPoint)))
          = Some (Player.mk "player-c" "Carol" true BOTTOM))
    as H5 by (vm_compute; reflexivity).
  assert (GameState.scores (Lobby.gameState (lobbyAt "ABCD" (run matchPoint))) !! "player-c"
          = Some (Int 9)) as H6 by (vm_compute; reflexivity).
  split; [exact (conj H1 (conj H2 (conj H3 (conj H4 (conj H5 H6)))))|].
  destruct (tenth_point_announces_winner _ "ABCD" env0 _ _ _ H1 H2 H3 H4 H5 H6)
    as (l' & winner & Hl' & Hs & Hsc & Hw & _).
  exists l', winner. exact (conj Hl' (conj Hs (conj Hsc Hw))).
Defined.

(** ** Lobbies do not interfere *)

(** X18. One event changes at most one lobby: for every world and event
    there is a code such that the lobby registered under any other code is
    after the event exactly what it was before. *)
Theorem step_touches_one_lobby (w : World) (e : Event) :
  ∃ c, ∀ c', c' ≠ c → lobbies (step w e) !! c' = lobbies w !! c'.
Proof.
  destruct e as [hostName codes uuid|c0 playerName uuid|c0 playerId|ws data env|ws|ws|h env];
    cbn [step].
  - destruct (createLobby _ _ _ _) as [[w' r]|] eqn:E; [|by exists ""].
    apply createLobby_cases in E as [(_ & -> & _)|(c & _ & _ & _ & _ & ->)]; [by exists ""|].
    exists c. intros c' Hne. cbn. by rewrite lookup_insert_ne.
  - exists c0. intros c' Hne.
    destruct (joinLobby_cases w c0 playerName uuid) as [(st & msg & ->)|(l & _ & _ & _ & _ & ->)];
      [done|].
    cbn [fst]. rewrite lobbies_broadcastToLobby. cbn. by rewrite lookup_insert_ne.
  - exists c0. intros c' Hne.
    destruct (connection_cases w c0 playerId) as [->|(l & _ & _ & _ & _ & ->)]; [done|].
    cbn. by rewrite lookup_insert_ne.
  - destruct (bindings w !! ws) as [[c0 playerId]|]; [|by exists ""].
    exists c0. intros c' Hne. destruct data as [|direction| | |]; cbn [onMessage]; try done.
    + by rewrite lookup_handlePlayerReady, decide_False.
    + by rewrite lookup_handleMovePaddle, decide_False.
    + by rewrite lookup_handlePlayerLeave, decide_False.
  - by exists "".
  - destruct (bindings w !! ws) as [[c0 playerId]|]; [|by exists ""].
    exists c0. intros c' Hne. by rewrite lookup_handlePlayerLeave, decide_False.
  - destruct (intervals w !! h) as [c0|]; [|by exists ""].
    exists c0. intros c' Hne. by rewrite lookup_tick, decide_False.
Qed.

(** ** Leaving twice *)

Lemma id_not_in_delete (players : list Player.t) (i : nat) (p : Player.t) :
  NoDup (Player.id <$> players) → players !! i = Some p →
  Player.id p ∉ Player.id <$> delete i players.
Proof.
  revert i. induction players as [|q qs IH]; intros i Hnd Hi; [done|].
  cbn in Hnd. apply NoDup_cons in Hnd as [Hq Hnd].
  destruct i as [|i]; cbn in *.
  - by injection Hi as ->.
  - apply not_elem_of_cons. split; [|by apply IH].
    intros Heq. apply Hq. rewrite <- Heq. apply list_elem_of_fmap. exists p.
    split; [done|]. by eapply list_elem_of_lookup_2.
Qed.

(** X19. Leaving is idempotent when player ids are distinct: an explicit
    LEAVE_LOBBY followed by the closing of the channel runs
    [handlePlayerLeave] twice for the same id, and the second run changes
    nothing (no second PLAYER_LEFT, no second end of game). *)
Theorem leaving_twice_is_leaving_once (w : World) (c playerId : string) (l : Lobby.t) :
  lobbies w !! c = Some l →
  NoDup (ids l) →
  handlePlayerLeave c playerId (handlePlayerLeave c playerId w) = handlePlayerLeave c playerId w.
Proof.
  intros Hl Hnd.
  destruct (lobbies (handlePlayerLeave c playerId w) !! c) as [l'|] eqn:Hl';
    [|unfold handlePlayerLeave at 1; by rewrite Hl'].
  apply (handlePlayerLeave_unknown_player _ _ _ _ Hl').
  revert Hl'. rewrite lookup_handlePlayerLeave, decide_True, Hl by done. cbn.
  unfold departed. destruct (list_find _ _) as [[i p]|] eqn:Hf.
  - apply list_find_Some in Hf as (Hi & <- & _).
    pose proof (id_not_in_delete _ _ _ Hnd Hi) as Hout.
    cbn zeta. cbn [Lobby.players Lobby.setClients Lobby.setPlayers].
    destruct (bool_decide (Lobby.host l = Player.id p));
      [destruct (delete i (Lobby.players l)) eqn:E; [done|]|]; intros [= <-];
      match goal with |- _ ∉ ids (finished ?l2) =>
        destruct (finished_roster l2) as (-> & _) end; unfold ids; cbn; by rewrite ?E.
  - intros [= <-]. by apply list_find_id_None.
Qed.

Lemma leaving_twice_is_leaving_once_witness :
  (lobbies (run threeReady) !! "ABCD" = Some (lobbyAt "ABCD" (run threeReady))
   ∧ NoDup (ids (lobbyAt "ABCD" (run threeReady))))
  ∧ handlePlayerLeave "ABCD" "player-c" (handlePlayerLeave "ABCD" "player-c" (run threeReady))
    = handlePlayerLeave "ABCD" "player-c" (run threeReady).
Proof.
  assert (lobbies (run threeReady) !! "ABCD" = Some (lobbyAt "ABCD" (run threeReady)))
    as H1 by (vm_compute; reflexivity).
  assert (NoDup (ids (lobbyAt "ABCD" (run threeReady)))) as H2.
  { apply (bool_decide_unpack _). vm_compute. exact I. }
  split; [exact (conj H1 H2)|].
  exact (leaving_twice_is_leaving_once _ "ABCD" "player-c" _ H1 H2).
Defined.

(** ** Collisions are strict *)

Lemma SFltb_irrefl (s : SpecFloat.spec_float) : SpecFloat.SFltb s s = false.
Proof.
  unfold SpecFloat.SFltb, SpecFloat.SFcompare.
  destruct s as [[]|[]| |[] m e]; rewrite ?Z.compare_refl, ?Pos.compare_cont_refl; done.
Qed.

Lemma ltb_irrefl (x : float) : PrimFloat.ltb x x = false.
Proof. rewrite FloatAxioms.ltb_spec. apply SFltb_irrefl. Qed.

(** X20. The overlap test is strict on all four sides: a ball that only
    touches a paddle, its left edge on the paddle's right edge, its right
    edge on the paddle's left edge, or the same vertically, does not collide
    with it. *)
Theorem touching_is_not_colliding (ball : Ball.t) (paddle : Paddle.t) :
  Ball.x ball = Z2F (Paddle.x paddle + Paddle.width paddle)
  ∨ (Ball.x ball + 10)%float = Z2F (Paddle.x paddle)
  ∨ Ball.y ball = Z2F (Paddle.y paddle + Paddle.height paddle)
  ∨ (Ball.y ball + 10)%float = Z2F (Paddle.y paddle) →
  checkCollision ball paddle = false.
Proof.
  unfold checkCollision. intros [-> | [-> | [-> | ->]]]; rewrite ltb_irrefl;
    rewrite ?andb_false_r; done.
Qed.

Lemma touching_is_not_colliding_witness :
  (Ball.x (Ball.mk 350 25 3 3) = Z2F (Paddle.x (Paddle.mk "player-a" TOP 250 20 100 10)
                                       + Paddle.width (Paddle.mk "player-a" TOP 250 20 100 10)))
  ∧ checkCollision (Ball.mk 350 25 3 3) (Paddle.mk "player-a" TOP 250 20 100 10) = false
  ∧ checkCollision (Ball.mk 349 25 3 3) (Paddle.mk "player-a" TOP 250 20 100 10) = true.
Proof.
  assert (Ball.x (Ball.mk 350 25 3 3)
          = Z2F (Paddle.x (Paddle.mk "player-a" TOP 250 20 100 10)
                 + Paddle.width (Paddle.mk "player-a" TOP 250 20 100 10)))
    as H1 by (vm_compute; reflexivity).
  split; [exact H1|]. split; [|vm_compute; reflexivity].
  exact (touching_is_not_colliding _ _ (or_introl H1)).
Defined.

Lemma step_keeps_score_entries_witness :
  (lobbies (run threeReady) !! "ABCD" = Some (lobbyAt "ABCD" (run threeReady))
   ∧ lobbies (step (run threeReady) (EvMessage 2 LEAVE_LOBBY env0)) !! "ABCD"
     = Some (lobbyAt "ABCD" (run carolLeaves)))
  ∧ dom (GameState.scores (Lobby.gameState (lobbyAt "ABCD" (run threeReady))))
    ⊆ dom (GameState.scores (Lobby.gameState (lobbyAt "ABCD" (run carolLeaves)))).
Proof.
  assert (lobbies (run threeReady) !! "ABCD" = Some (lobbyAt "ABCD" (run threeReady)))
    as H1 by (vm_compute; reflexivity).
  assert (lobbies (step (run threeReady) (EvMessage 2 LEAVE_LOBBY env0)) !! "ABCD"
          = Some (lobbyAt "ABCD" (run carolLeaves)))
    as H2 by (vm_compute; reflexivity).
  split; [exact (conj H1 H2)|].
  exact (step_keeps_score_entries _ _ "ABCD" _ _ H1 H2).
Defined.

(** ** Moving back and forth *)

Lemma updateFirst_updateFirst {A} (f : A → bool) (g g' : A → A) (l : list A) :
  (∀ a, f a = true → f (g a) = true) →
  updateFirst f g' (updateFirst f g l) = updateFirst f (g' ∘ g) l.
Proof.
  intros Hg. induction l as [|a l IH]; [done|]. cbn. destruct (f a) eqn:E; cbn.
  - by rewrite Hg.
  - by rewrite E, IH.
Qed.

Lemma updateFirst_id_on_first {A} (f : A → bool) (g : A → A) (l : list A) (a : A) :
  find f l = Some a → g a = a → updateFirst f g l = l.
Proof.
  induction l as [|b l IH]; [done|]. cbn. destruct (f b).
  - intros [= ->] ->. done.
  - intros Hf Hg. by rewrite IH.
Qed.

(** X21. In a reachable world a move and the opposite move cancel: when the
    sender's paddle in a PLAYING lobby is not at the low end of its axis,
    MOVE_PADDLE LEFT then RIGHT (for a top or bottom paddle; UP then DOWN for
    a left or right one) leaves the lobby exactly as it was. *)
Theorem move_and_back_restores_lobby (w : World) (c playerId : string) (l : Lobby.t)
    (p : Paddle.t) :
  reachable w →
  lobbies w !! c = Some l →
  Lobby.status l = PLAYING →
  find (ownedBy playerId) (GameState.paddles (Lobby.gameState l)) = Some p →
  (0 < match Paddle.position p with
       | TOP | BOTTOM => Paddle.x p
       | LEFT | RIGHT => Paddle.y p
       end)%Z →
  let back := match Paddle.position p with TOP | BOTTOM => "LEFT" | _ => "UP" end in
  let forth := match Paddle.position p with TOP | BOTTOM => "RIGHT" | _ => "DOWN" end in
  movePaddle back p ≠ p
  ∧ lobbies (handleMovePaddle c playerId forth (handleMovePaddle c playerId back w)) !! c
    = Some l.
Proof.
  intros Hr Hl Hs Hp Hpos back forth.
  assert (paddle_ok p) as Hpok.
  { pose proof (ok_paddles _ (ok_lobbies _ (reachable_ok _ Hr) _ _ Hl)) as HF.
    apply find_some in Hp as [Hin _]. apply list_elem_of_In in Hin.
    by eapply Forall_forall in HF. }
  assert (movePaddle back p ≠ p ∧ movePaddle forth (movePaddle back p) = p) as [Hmoved Hback].
  { subst back forth. unfold paddle_ok in Hpok.
    destruct p as [pid pos x y wd ht]; cbn in *.
    assert (∀ a : Z, (0 < a)%Z → (0 <? a)%Z = true) as Hlt by (intros; by apply Z.ltb_lt).
    assert (∀ a : Z, (a ≤ 500)%Z → (a - 10 + 100 <? 600)%Z = true) as Hlt100
      by (intros; apply Z.ltb_lt; lia).
    destruct pos; destruct Hpok as (-> & -> & Hb & k & ->);
      unfold movePaddle, PADDLE_SPEED;
      cbn [Paddle.position Paddle.x Paddle.y Paddle.width Paddle.height];
      rewrite ?bool_decide_eq_true_2 by done; rewrite (Hlt _ Hpos); cbn [andb];
      unfold Paddle.setX, Paddle.setY;
      cbn [Paddle.position Paddle.x Paddle.y Paddle.width Paddle.height Paddle.playerId];
      rewrite ?bool_decide_eq_false_2 by done; cbn [andb];
      rewrite ?bool_decide_eq_true_2 by done; rewrite Hlt100 by lia; cbn [andb];
      (split; [intros [=]; lia | f_equal; lia]). }
  split; [exact Hmoved|].
  rewrite !lookup_handleMovePaddle, !decide_True, Hl by done. cbn. f_equal.
  assert (∀ a, ownedBy playerId a = true → ownedBy playerId (movePaddle back a) = true) as Hown.
  { intros a. unfold ownedBy. by rewrite movePaddle_playerId. }
  unfold moved at 2. rewrite bool_decide_eq_true_2, Hp by done.
  unfold moved. rewrite bool_decide_eq_true_2 by done.
  cbn [Lobby.gameState Lobby.setGameState GameState.paddles GameState.setPaddles].
  rewrite (find_updateFirst _ _ _ _ Hown Hp).
  rewrite updateFirst_updateFirst by done.
  rewrite (updateFirst_id_on_first _ _ _ _ Hp) by exact Hback.
  by destruct l as [? ? ? ? [] ?].
Qed.

Lemma move_and_back_restores_lobby_witness :
  (reachable (run threeReady)
   ∧ lobbies (run threeReady) !! "ABCD" = Some (lobbyAt "ABCD" (run threeReady))
   ∧ Lobby.status (lobbyAt "ABCD" (run threeReady)) = PLAYING
   ∧ find (ownedBy "player-b")
       (GameState.paddles (Lobby.gameState (lobbyAt "ABCD" (run threeReady))))
     = Some (Paddle.mk "player-b" RIGHT 570 250 10 100)
   ∧ (0 < 250)%Z)
  ∧ lobbies (handleMovePaddle "ABCD" "player-b" "DOWN"
               (handleMovePaddle "ABCD" "player-b" "UP" (run threeReady))) !! "ABCD"
    = Some (lobbyAt "ABCD" (run threeReady)).
Proof.
  assert (reachable (run threeReady)) as H1 by (by exists threeReady).
  assert (lobbies (run threeReady) !! "ABCD" = Some (lobbyAt "ABCD" (run threeReady)))
    as H2 by (vm_compute; reflexivity).
  assert (Lobby.status (lobbyAt "ABCD" (run threeReady)) = PLAYING)
    as H3 by (vm_compute; reflexivity).
  assert (find (ownedBy "player-b")
            (GameState.paddles (Lobby.gameState (lobbyAt "ABCD" (run threeReady))))
          = Some (Paddle.mk "player-b" RIGHT 570 250 10 100))
    as H4 by (vm_compute; reflexivity).
  assert (0 < 250)%Z as H5 by reflexivity.
  split; [exact (conj H1 (conj H2 (conj H3 (conj H4 H5))))|].
  exact (proj2 (move_and_back_restores_lobby _ "ABCD" "player-b" _ _ H1 H2 H3 H4 H5)).
Defined.

(** ** Readiness flags *)

Lemma updateFirst_lookup_other {A} (f : A → bool) (g : A → A) (l : list A) (k : nat) (a : A) :
  l !! k = Some a → f a = false → updateFirst f g l !! k = Some a.
Proof.
  revert k. induction l as [|b l IH]; intros k Hk Ha; [done|].
  cbn. destruct (f b) eqn:E.
  - destruct k as [|k]; cbn in *; [congruence | done].
  - destruct k as [|k]; cbn in *; [done | by apply IH].
Qed.

(** X22. PLAYER_READY marks the sender and nobody else: whether or not the
    game starts, the lobby keeps its players in their order, every player
    with another id keeps the flag they had, and the first player with the
    sender's id, if there is one, is ready. *)
Theorem PLAYER_READY_marks_only_the_sender (w : World) (c playerId : string) (env : Env)
    (l : Lobby.t) :
  lobbies w !! c = Some l →
  ∃ l',
    lobbies (handlePlayerReady c playerId env w) !! c = Some l'
    ∧ ids l' = ids l
    ∧ (∀ k q, Lobby.players l !! k = Some q → Player.id q ≠ playerId →
              Lobby.players l' !! k = Some q)
    ∧ (∀ q, find (hasId playerId) (Lobby.players l) = Some q →
            find (hasId playerId) (Lobby.players l') = Some (Player.setReady true q)).
Proof.
  intros Hl. destruct (handlePlayerReady_lobbies w c playerId env l Hl) as [-> _].
  rewrite lookup_insert_eq. eexists. split; [done|].
  destruct (readied_roster env (nextInterval w) playerId l) as (Hids & _).
  split; [done|].
  assert (Lobby.players (readied env (nextInterval w) playerId l)
          = updateFirst (hasId playerId) (Player.setReady true) (Lobby.players l)) as ->.
  { unfold readied. cbn zeta. by destruct (_ && _). }
  split.
  - intros k q Hk Hne. apply updateFirst_lookup_other; [done|].
    unfold hasId. by apply bool_decide_eq_false.
  - intros q Hq. by apply find_updateFirst.
Qed.

Lemma PLAYER_READY_marks_only_the_sender_witness :
  lobbies (run aliceReady) !! "ABCD" = Some (lobbyAt "ABCD" (run aliceReady))
  ∧ ∃ l',
      lobbies (handlePlayerReady "ABCD" "player-b" env0 (run aliceReady)) !! "ABCD" = Some l'
      ∧ ids l' = ids (lobbyAt "ABCD" (run aliceReady)).
Proof.
  assert (lobbies (run aliceReady) !! "ABCD" = Some (lobbyAt "ABCD" (run aliceReady)))
    as H1 by (vm_compute; reflexivity).
  split; [exact H1|].
  destruct (PLAYER_READY_marks_only_the_sender _ "ABCD" "player-b" env0 _ H1)
    as (l' & Hl' & Hids & _).
  exists l'. exact (conj Hl' Hids).
Defined.
